(** * Storyboard generator: a shallow embedding of [generate-script.ts]

    The development models the script generator of the storyboard studio
    ([src/lib/generate-script.ts]) and the two helpers of the page that
    encode a form as URL query parameters and read it back.

    Modelling choices.
    - A JavaScript string is the sequence of its UTF-16 code units
      ([JsString.string]); a string literal of this file denotes the code
      units of the text between the quotes.  [\s] and [trim] use the white
      space and line terminators of ECMAScript; [toLowerCase] and
      [toUpperCase] use the case mappings of Unicode 14.0 (UnicodeData and
      SpecialCasing, the final form of the Greek sigma included), read code
      point by code point; the classes [\w], [\b], [A-Z], [a-z0-9] and the
      flag [i] of the regular expressions of the program, none of which has
      the flag [u], are those of ASCII, as ECMAScript defines them.
    - Counts and indices are natural numbers.  [Math.round(n / 2.7)] is
      computed exactly as the floor of [(20 n + 27) / 54]: the quotient
      [10 n / 27] is never half-way between two integers, and it stays at
      distance at least [1/54] from every such point, far more than a
      double-precision division can lose.
    - A plain object used as a table ([MOOD_PROFILES], [ASPECT_GUIDANCE],
      [LANGUAGE_LABELS]) is read with the bracket operator, which also sees
      the members the object inherits from [Object.prototype]; [lookup]
      keeps the two kinds of result apart.
    - A [TypeError] raised while the plan is built is the [Throw] result. *)

From Stdlib Require Import List NArith Arith Bool Lia.
From Stdlib.Strings Require Import Byte.
From Stdlib Require Import Permutation Sorted.
Import ListNotations.
Open Scope list_scope.
Open Scope nat_scope.

(** ** Strings *)

Module JsString.

(** A UTF-16 code unit, a number below 65536. *)
Definition code_unit : Set := N.

Inductive string : Set :=
| EmptyString
| String (c : code_unit) (s : string).

Declare Scope js_scope.
Delimit Scope js_scope with js.
Bind Scope js_scope with string.

Fixpoint append (a b : string) : string :=
  match a with
  | EmptyString => b
  | String c a' => String c (append a' b)
  end.

Infix "++" := append (right associativity, at level 60) : js_scope.

Fixpoint length (s : string) : nat :=
  match s with
  | EmptyString => 0
  | String _ s' => S (length s')
  end.

Fixpoint eqb (a b : string) : bool :=
  match a, b with
  | EmptyString, EmptyString => true
  | String c a', String d b' => N.eqb c d && eqb a' b'
  | _, _ => false
  end.

(** [items.join(sep)] *)
Fixpoint concat (sep : string) (items : list string) : string :=
  match items with
  | [] => EmptyString
  | [x] => x
  | x :: xs => append x (append sep (concat sep xs))
  end.

(** *** Literals

    The text of a literal is held in the file as UTF-8 bytes; [of_utf8]
    gives its UTF-16 code units. *)

(** The code units of a code point: itself, or a pair of surrogates. *)
Definition units_of_point (p : N) : string :=
  if (p <? 0x10000)%N then String p EmptyString
  else String (0xD800 + (p - 0x10000) / 0x400)%N
         (String (0xDC00 + (p - 0x10000) mod 0x400)%N EmptyString).

Fixpoint of_utf8 (bytes : list N) : string :=
  match bytes with
  | [] => EmptyString
  | b0 :: r0 =>
      if (b0 <? 0x80)%N then String b0 (of_utf8 r0)
      else
        match r0 with
        | [] => EmptyString
        | b1 :: r1 =>
            let p1 := ((b0 mod 0x20) * 0x40 + b1 mod 0x40)%N in
            if (b0 <? 0xE0)%N then String p1 (of_utf8 r1)
            else
              match r1 with
              | [] => EmptyString
              | b2 :: r2 =>
                  let p2 := (((b0 mod 0x10) * 0x40 + b1 mod 0x40) * 0x40
                             + b2 mod 0x40)%N in
                  if (b0 <? 0xF0)%N then String p2 (of_utf8 r2)
                  else
                    match r2 with
                    | [] => EmptyString
                    | b3 :: r3 =>
                        let p3 := ((((b0 mod 0x8) * 0x40 + b1 mod 0x40) * 0x40
                                    + b2 mod 0x40) * 0x40 + b3 mod 0x40)%N in
                        append (units_of_point p3) (of_utf8 r3)
                    end
              end
        end
  end.

Definition of_bytes (bytes : list Byte.byte) : string :=
  of_utf8 (map Byte.to_N bytes).

(** Only a text of ASCII characters is shown as a literal. *)
Fixpoint to_bytes (s : string) : option (list Byte.byte) :=
  match s with
  | EmptyString => Some []
  | String c s' =>
      if (c <? 0x80)%N then
        match Byte.of_N c, to_bytes s' with
        | Some b, Some bs => Some (b :: bs)
        | _, _ => None
        end
      else None
  end.

String Notation string of_bytes to_bytes : js_scope.

(** A code unit written as its character. *)
Definition unit_of_bytes (bytes : list Byte.byte) : option N :=
  match of_bytes bytes with
  | String c EmptyString => Some c
  | _ => None
  end.

Definition bytes_of_unit (c : N) : option (list Byte.byte) :=
  to_bytes (String c EmptyString).

Declare Scope code_unit_scope.
Delimit Scope code_unit_scope with char.
String Notation N unit_of_bytes bytes_of_unit : code_unit_scope.

Arguments String c%_char s%_js.

Open Scope js_scope.

(** *** Character classes *)

Definition in_range (lo hi : N) (c : code_unit) : bool :=
  (lo <=? c)%N && (c <=? hi)%N.

(** [\s] and the characters removed by [trim]: the white space and the line
    terminators of ECMAScript, that is TAB, LF, VT, FF, CR, SPACE, NO-BREAK
    SPACE, the other space separators of Unicode, the line and paragraph
    separators, and the byte order mark. *)
Definition is_space (c : code_unit) : bool :=
  in_range 0x09 0x0D c || (c =? 0x20)%N || (c =? 0xA0)%N || (c =? 0x1680)%N
  || in_range 0x2000 0x200A c || in_range 0x2028 0x2029 c || (c =? 0x202F)%N
  || (c =? 0x205F)%N || (c =? 0x3000)%N || (c =? 0xFEFF)%N.

(** [A-Z], [a-z], [0-9] *)
Definition is_upper (c : code_unit) : bool := in_range 65 90 c.
Definition is_lower (c : code_unit) : bool := in_range 97 122 c.
Definition is_digit (c : code_unit) : bool := in_range 48 57 c.
Definition is_alnum (c : code_unit) : bool := is_upper c || is_lower c || is_digit c.

(** [\w]: letters, digits and the underscore. *)
Definition is_word (c : code_unit) : bool := is_alnum c || (c =? 95)%N.

(** The two halves of a code point above U+FFFF. *)
Definition is_high_surrogate (c : code_unit) : bool := in_range 0xD800 0xDBFF c.
Definition is_low_surrogate (c : code_unit) : bool := in_range 0xDC00 0xDFFF c.

Definition astral (high low : code_unit) : N :=
  (0x10000 + (high - 0xD800) * 0x400 + (low - 0xDC00))%N.

(** *** Generic functions *)

Fixpoint map_chars (f : code_unit -> code_unit) (s : string) : string :=
  match s with
  | EmptyString => EmptyString
  | String c s' => String (f c) (map_chars f s')
  end.

Fixpoint filter_chars (p : code_unit -> bool) (s : string) : string :=
  match s with
  | EmptyString => EmptyString
  | String c s' => if p c then String c (filter_chars p s') else filter_chars p s'
  end.

Fixpoint drop_while (p : code_unit -> bool) (s : string) : string :=
  match s with
  | EmptyString => EmptyString
  | String c s' => if p c then drop_while p s' else s
  end.

Fixpoint all_chars (p : code_unit -> bool) (s : string) : bool :=
  match s with
  | EmptyString => true
  | String c s' => p c && all_chars p s'
  end.

Definition head_is (p : code_unit -> bool) (s : string) : bool :=
  match s with EmptyString => false | String c _ => p c end.

(** Truthiness of a string: [Boolean(s)], [!s] negated, [s ? _ : _]. *)
Definition truthy (s : string) : bool :=
  match s with EmptyString => false | String _ _ => true end.

(** *** The case mappings of Unicode

    A range [(first, last, step, target)] maps the code point
    [first + k * step], up to [last], to [target + k * step].  The letters of
    ASCII are not in the tables. *)

Definition LOWER_RANGES : list (N * N * N * N) :=
  [ (0xC0, 0xD6, 1, 0xE0); (0xD8, 0xDE, 1, 0xF8); (0x100, 0x12E, 2, 0x101);
    (0x132, 0x136, 2, 0x133); (0x139, 0x147, 2, 0x13A);
    (0x14A, 0x176, 2, 0x14B); (0x178, 0x178, 1, 0xFF);
    (0x179, 0x17D, 2, 0x17A); (0x181, 0x181, 1, 0x253);
    (0x182, 0x184, 2, 0x183); (0x186, 0x186, 1, 0x254);
    (0x187, 0x187, 1, 0x188); (0x189, 0x18A, 1, 0x256);
    (0x18B, 0x18B, 1, 0x18C); (0x18E, 0x18E, 1, 0x1DD);
    (0x18F, 0x18F, 1, 0x259); (0x190, 0x190, 1, 0x25B);
    (0x191, 0x191, 1, 0x192); (0x193, 0x193, 1, 0x260);
    (0x194, 0x194, 1, 0x263); (0x196, 0x196, 1, 0x269);
    (0x197, 0x197, 1, 0x268); (0x198, 0x198, 1, 0x199);
    (0x19C, 0x19C, 1, 0x26F); (0x19D, 0x19D, 1, 0x272);
    (0x19F, 0x19F, 1, 0x275); (0x1A0, 0x1A4, 2, 0x1A1);
    (0x1A6, 0x1A6, 1, 0x280); (0x1A7, 0x1A7, 1, 0x1A8);
    (0x1A9, 0x1A9, 1, 0x283); (0x1AC, 0x1AC, 1, 0x1AD);
    (0x1AE, 0x1AE, 1, 0x288); (0x1AF, 0x1AF, 1, 0x1B0);
    (0x1B1, 0x1B2, 1, 0x28A); (0x1B3, 0x1B5, 2, 0x1B4);
    (0x1B7, 0x1B7, 1, 0x292); (0x1B8, 0x1B8, 1, 0x1B9);
    (0x1BC, 0x1BC, 1, 0x1BD); (0x1C4, 0x1C4, 1, 0x1C6);
    (0x1C5, 0x1C5, 1, 0x1C6); (0x1C7, 0x1C7, 1, 0x1C9);
    (0x1C8, 0x1C8, 1, 0x1C9); (0x1CA, 0x1CA, 1, 0x1CC);
    (0x1CB, 0x1DB, 2, 0x1CC); (0x1DE, 0x1EE, 2, 0x1DF);
    (0x1F1, 0x1F1, 1, 0x1F3); (0x1F2, 0x1F4, 2, 0x1F3);
    (0x1F6, 0x1F6, 1, 0x195); (0x1F7, 0x1F7, 1, 0x1BF);
    (0x1F8, 0x21E, 2, 0x1F9); (0x220, 0x220, 1, 0x19E);
    (0x222, 0x232, 2, 0x223); (0x23A, 0x23A, 1, 0x2C65);
    (0x23B, 0x23B, 1, 0x23C); (0x23D, 0x23D, 1, 0x19A);
    (0x23E, 0x23E, 1, 0x2C66); (0x241, 0x241, 1, 0x242);
    (0x243, 0x243, 1, 0x180); (0x244, 0x244, 1, 0x289);
    (0x245, 0x245, 1, 0x28C); (0x246, 0x24E, 2, 0x247);
    (0x370, 0x372, 2, 0x371); (0x376, 0x376, 1, 0x377);
    (0x37F, 0x37F, 1, 0x3F3); (0x386, 0x386, 1, 0x3AC);
    (0x388, 0x38A, 1, 0x3AD); (0x38C, 0x38C, 1, 0x3CC);
    (0x38E, 0x38F, 1, 0x3CD); (0x391, 0x3A1, 1, 0x3B1);
    (0x3A3, 0x3AB, 1, 0x3C3); (0x3CF, 0x3CF, 1, 0x3D7);
    (0x3D8, 0x3EE, 2, 0x3D9); (0x3F4, 0x3F4, 1, 0x3B8);
    (0x3F7, 0x3F7, 1, 0x3F8); (0x3F9, 0x3F9, 1, 0x3F2);
    (0x3FA, 0x3FA, 1, 0x3FB); (0x3FD, 0x3FF, 1, 0x37B);
    (0x400, 0x40F, 1, 0x450); (0x410, 0x42F, 1, 0x430);
    (0x460, 0x480, 2, 0x461); (0x48A, 0x4BE, 2, 0x48B);
    (0x4C0, 0x4C0, 1, 0x4CF); (0x4C1, 0x4CD, 2, 0x4C2);
    (0x4D0, 0x52E, 2, 0x4D1); (0x531, 0x556, 1, 0x561);
    (0x10A0, 0x10C5, 1, 0x2D00); (0x10C7, 0x10C7, 1, 0x2D27);
    (0x10CD, 0x10CD, 1, 0x2D2D); (0x13A0, 0x13EF, 1, 0xAB70);
    (0x13F0, 0x13F5, 1, 0x13F8); (0x1C90, 0x1CBA, 1, 0x10D0);
    (0x1CBD, 0x1CBF, 1, 0x10FD); (0x1E00, 0x1E94, 2, 0x1E01);
    (0x1E9E, 0x1E9E, 1, 0xDF); (0x1EA0, 0x1EFE, 2, 0x1EA1);
    (0x1F08, 0x1F0F, 1, 0x1F00); (0x1F18, 0x1F1D, 1, 0x1F10);
    (0x1F28, 0x1F2F, 1, 0x1F20); (0x1F38, 0x1F3F, 1, 0x1F30);
    (0x1F48, 0x1F4D, 1, 0x1F40); (0x1F59, 0x1F5F, 2, 0x1F51);
    (0x1F68, 0x1F6F, 1, 0x1F60); (0x1F88, 0x1F8F, 1, 0x1F80);
    (0x1F98, 0x1F9F, 1, 0x1F90); (0x1FA8, 0x1FAF, 1, 0x1FA0);
    (0x1FB8, 0x1FB9, 1, 0x1FB0); (0x1FBA, 0x1FBB, 1, 0x1F70);
    (0x1FBC, 0x1FBC, 1, 0x1FB3); (0x1FC8, 0x1FCB, 1, 0x1F72);
    (0x1FCC, 0x1FCC, 1, 0x1FC3); (0x1FD8, 0x1FD9, 1, 0x1FD0);
    (0x1FDA, 0x1FDB, 1, 0x1F76); (0x1FE8, 0x1FE9, 1, 0x1FE0);
    (0x1FEA, 0x1FEB, 1, 0x1F7A); (0x1FEC, 0x1FEC, 1, 0x1FE5);
    (0x1FF8, 0x1FF9, 1, 0x1F78); (0x1FFA, 0x1FFB, 1, 0x1F7C);
    (0x1FFC, 0x1FFC, 1, 0x1FF3); (0x2126, 0x2126, 1, 0x3C9);
    (0x212A, 0x212A, 1, 0x6B); (0x212B, 0x212B, 1, 0xE5);
    (0x2132, 0x2132, 1, 0x214E); (0x2160, 0x216F, 1, 0x2170);
    (0x2183, 0x2183, 1, 0x2184); (0x24B6, 0x24CF, 1, 0x24D0);
    (0x2C00, 0x2C2F, 1, 0x2C30); (0x2C60, 0x2C60, 1, 0x2C61);
    (0x2C62, 0x2C62, 1, 0x26B); (0x2C63, 0x2C63, 1, 0x1D7D);
    (0x2C64, 0x2C64, 1, 0x27D); (0x2C67, 0x2C6B, 2, 0x2C68);
    (0x2C6D, 0x2C6D, 1, 0x251); (0x2C6E, 0x2C6E, 1, 0x271);
    (0x2C6F, 0x2C6F, 1, 0x250); (0x2C70, 0x2C70, 1, 0x252);
    (0x2C72, 0x2C72, 1, 0x2C73); (0x2C75, 0x2C75, 1, 0x2C76);
    (0x2C7E, 0x2C7F, 1, 0x23F); (0x2C80, 0x2CE2, 2, 0x2C81);
    (0x2CEB, 0x2CED, 2, 0x2CEC); (0x2CF2, 0x2CF2, 1, 0x2CF3);
    (0xA640, 0xA66C, 2, 0xA641); (0xA680, 0xA69A, 2, 0xA681);
    (0xA722, 0xA72E, 2, 0xA723); (0xA732, 0xA76E, 2, 0xA733);
    (0xA779, 0xA77B, 2, 0xA77A); (0xA77D, 0xA77D, 1, 0x1D79);
    (0xA77E, 0xA786, 2, 0xA77F); (0xA78B, 0xA78B, 1, 0xA78C);
    (0xA78D, 0xA78D, 1, 0x265); (0xA790, 0xA792, 2, 0xA791);
    (0xA796, 0xA7A8, 2, 0xA797); (0xA7AA, 0xA7AA, 1, 0x266);
    (0xA7AB, 0xA7AB, 1, 0x25C); (0xA7AC, 0xA7AC, 1, 0x261);
    (0xA7AD, 0xA7AD, 1, 0x26C); (0xA7AE, 0xA7AE, 1, 0x26A);
    (0xA7B0, 0xA7B0, 1, 0x29E); (0xA7B1, 0xA7B1, 1, 0x287);
    (0xA7B2, 0xA7B2, 1, 0x29D); (0xA7B3, 0xA7B3, 1, 0xAB53);
    (0xA7B4, 0xA7C2, 2, 0xA7B5); (0xA7C4, 0xA7C4, 1, 0xA794);
    (0xA7C5, 0xA7C5, 1, 0x282); (0xA7C6, 0xA7C6, 1, 0x1D8E);
    (0xA7C7, 0xA7C9, 2, 0xA7C8); (0xA7D0, 0xA7D0, 1, 0xA7D1);
    (0xA7D6, 0xA7D8, 2, 0xA7D7); (0xA7F5, 0xA7F5, 1, 0xA7F6);
    (0xFF21, 0xFF3A, 1, 0xFF41); (0x10400, 0x10427, 1, 0x10428);
    (0x104B0, 0x104D3, 1, 0x104D8); (0x10570, 0x10594, 2, 0x10597);
    (0x10571, 0x10579, 2, 0x10598); (0x1057D, 0x10589, 2, 0x105A4);
    (0x1058D, 0x10591, 2, 0x105B4); (0x10595, 0x10595, 1, 0x105BC);
    (0x10C80, 0x10CB2, 1, 0x10CC0); (0x118A0, 0x118BF, 1, 0x118C0);
    (0x16E40, 0x16E5F, 1, 0x16E60); (0x1E900, 0x1E921, 1, 0x1E922) ]%N.

Definition UPPER_RANGES : list (N * N * N * N) :=
  [ (0xB5, 0xB5, 1, 0x39C); (0xE0, 0xF6, 1, 0xC0); (0xF8, 0xFE, 1, 0xD8);
    (0xFF, 0xFF, 1, 0x178); (0x101, 0x12F, 2, 0x100); (0x131, 0x131, 1, 0x49);
    (0x133, 0x137, 2, 0x132); (0x13A, 0x148, 2, 0x139);
    (0x14B, 0x177, 2, 0x14A); (0x17A, 0x17E, 2, 0x179);
    (0x17F, 0x17F, 1, 0x53); (0x180, 0x180, 1, 0x243);
    (0x183, 0x185, 2, 0x182); (0x188, 0x188, 1, 0x187);
    (0x18C, 0x18C, 1, 0x18B); (0x192, 0x192, 1, 0x191);
    (0x195, 0x195, 1, 0x1F6); (0x199, 0x199, 1, 0x198);
    (0x19A, 0x19A, 1, 0x23D); (0x19E, 0x19E, 1, 0x220);
    (0x1A1, 0x1A5, 2, 0x1A0); (0x1A8, 0x1A8, 1, 0x1A7);
    (0x1AD, 0x1AD, 1, 0x1AC); (0x1B0, 0x1B0, 1, 0x1AF);
    (0x1B4, 0x1B6, 2, 0x1B3); (0x1B9, 0x1B9, 1, 0x1B8);
    (0x1BD, 0x1BD, 1, 0x1BC); (0x1BF, 0x1BF, 1, 0x1F7);
    (0x1C5, 0x1C5, 1, 0x1C4); (0x1C6, 0x1C6, 1, 0x1C4);
    (0x1C8, 0x1C8, 1, 0x1C7); (0x1C9, 0x1C9, 1, 0x1C7);
    (0x1CB, 0x1CB, 1, 0x1CA); (0x1CC, 0x1CC, 1, 0x1CA);
    (0x1CE, 0x1DC, 2, 0x1CD); (0x1DD, 0x1DD, 1, 0x18E);
    (0x1DF, 0x1EF, 2, 0x1DE); (0x1F2, 0x1F2, 1, 0x1F1);
    (0x1F3, 0x1F3, 1, 0x1F1); (0x1F5, 0x1F5, 1, 0x1F4);
    (0x1F9, 0x21F, 2, 0x1F8); (0x223, 0x233, 2, 0x222);
    (0x23C, 0x23C, 1, 0x23B); (0x23F, 0x240, 1, 0x2C7E);
    (0x242, 0x242, 1, 0x241); (0x247, 0x24F, 2, 0x246);
    (0x250, 0x250, 1, 0x2C6F); (0x251, 0x251, 1, 0x2C6D);
    (0x252, 0x252, 1, 0x2C70); (0x253, 0x253, 1, 0x181);
    (0x254, 0x254, 1, 0x186); (0x256, 0x257, 1, 0x189);
    (0x259, 0x259, 1, 0x18F); (0x25B, 0x25B, 1, 0x190);
    (0x25C, 0x25C, 1, 0xA7AB); (0x260, 0x260, 1, 0x193);
    (0x261, 0x261, 1, 0xA7AC); (0x263, 0x263, 1, 0x194);
    (0x265, 0x265, 1, 0xA78D); (0x266, 0x266, 1, 0xA7AA);
    (0x268, 0x268, 1, 0x197); (0x269, 0x269, 1, 0x196);
    (0x26A, 0x26A, 1, 0xA7AE); (0x26B, 0x26B, 1, 0x2C62);
    (0x26C, 0x26C, 1, 0xA7AD); (0x26F, 0x26F, 1, 0x19C);
    (0x271, 0x271, 1, 0x2C6E); (0x272, 0x272, 1, 0x19D);
    (0x275, 0x275, 1, 0x19F); (0x27D, 0x27D, 1, 0x2C64);
    (0x280, 0x280, 1, 0x1A6); (0x282, 0x282, 1, 0xA7C5);
    (0x283, 0x283, 1, 0x1A9); (0x287, 0x287, 1, 0xA7B1);
    (0x288, 0x288, 1, 0x1AE); (0x289, 0x289, 1, 0x244);
    (0x28A, 0x28B, 1, 0x1B1); (0x28C, 0x28C, 1, 0x245);
    (0x292, 0x292, 1, 0x1B7); (0x29D, 0x29D, 1, 0xA7B2);
    (0x29E, 0x29E, 1, 0xA7B0); (0x345, 0x345, 1, 0x399);
    (0x371, 0x373, 2, 0x370); (0x377, 0x377, 1, 0x376);
    (0x37B, 0x37D, 1, 0x3FD); (0x3AC, 0x3AC, 1, 0x386);
    (0x3AD, 0x3AF, 1, 0x388); (0x3B1, 0x3C1, 1, 0x391);
    (0x3C2, 0x3C2, 1, 0x3A3); (0x3C3, 0x3CB, 1, 0x3A3);
    (0x3CC, 0x3CC, 1, 0x38C); (0x3CD, 0x3CE, 1, 0x38E);
    (0x3D0, 0x3D0, 1, 0x392); (0x3D1, 0x3D1, 1, 0x398);
    (0x3D5, 0x3D5, 1, 0x3A6); (0x3D6, 0x3D6, 1, 0x3A0);
    (0x3D7, 0x3D7, 1, 0x3CF); (0x3D9, 0x3EF, 2, 0x3D8);
    (0x3F0, 0x3F0, 1, 0x39A); (0x3F1, 0x3F1, 1, 0x3A1);
    (0x3F2, 0x3F2, 1, 0x3F9); (0x3F3, 0x3F3, 1, 0x37F);
    (0x3F5, 0x3F5, 1, 0x395); (0x3F8, 0x3F8, 1, 0x3F7);
    (0x3FB, 0x3FB, 1, 0x3FA); (0x430, 0x44F, 1, 0x410);
    (0x450, 0x45F, 1, 0x400); (0x461, 0x481, 2, 0x460);
    (0x48B, 0x4BF, 2, 0x48A); (0x4C2, 0x4CE, 2, 0x4C1);
    (0x4CF, 0x4CF, 1, 0x4C0); (0x4D1, 0x52F, 2, 0x4D0);
    (0x561, 0x586, 1, 0x531); (0x10D0, 0x10FA, 1, 0x1C90);
    (0x10FD, 0x10FF, 1, 0x1CBD); (0x13F8, 0x13FD, 1, 0x13F0);
    (0x1C80, 0x1C80, 1, 0x412); (0x1C81, 0x1C81, 1, 0x414);
    (0x1C82, 0x1C82, 1, 0x41E); (0x1C83, 0x1C84, 1, 0x421);
    (0x1C85, 0x1C85, 1, 0x422); (0x1C86, 0x1C86, 1, 0x42A);
    (0x1C87, 0x1C87, 1, 0x462); (0x1C88, 0x1C88, 1, 0xA64A);
    (0x1D79, 0x1D79, 1, 0xA77D); (0x1D7D, 0x1D7D, 1, 0x2C63);
    (0x1D8E, 0x1D8E, 1, 0xA7C6); (0x1E01, 0x1E95, 2, 0x1E00);
    (0x1E9B, 0x1E9B, 1, 0x1E60); (0x1EA1, 0x1EFF, 2, 0x1EA0);
    (0x1F00, 0x1F07, 1, 0x1F08); (0x1F10, 0x1F15, 1, 0x1F18);
    (0x1F20, 0x1F27, 1, 0x1F28); (0x1F30, 0x1F37, 1, 0x1F38);
    (0x1F40, 0x1F45, 1, 0x1F48); (0x1F51, 0x1F57, 2, 0x1F59);
    (0x1F60, 0x1F67, 1, 0x1F68); (0x1F70, 0x1F71, 1, 0x1FBA);
    (0x1F72, 0x1F75, 1, 0x1FC8); (0x1F76, 0x1F77, 1, 0x1FDA);
    (0x1F78, 0x1F79, 1, 0x1FF8); (0x1F7A, 0x1F7B, 1, 0x1FEA);
    (0x1F7C, 0x1F7D, 1, 0x1FFA); (0x1FB0, 0x1FB1, 1, 0x1FB8);
    (0x1FBE, 0x1FBE, 1, 0x399); (0x1FD0, 0x1FD1, 1, 0x1FD8);
    (0x1FE0, 0x1FE1, 1, 0x1FE8); (0x1FE5, 0x1FE5, 1, 0x1FEC);
    (0x214E, 0x214E, 1, 0x2132); (0x2170, 0x217F, 1, 0x2160);
    (0x2184, 0x2184, 1, 0x2183); (0x24D0, 0x24E9, 1, 0x24B6);
    (0x2C30, 0x2C5F, 1, 0x2C00); (0x2C61, 0x2C61, 1, 0x2C60);
    (0x2C65, 0x2C65, 1, 0x23A); (0x2C66, 0x2C66, 1, 0x23E);
    (0x2C68, 0x2C6C, 2, 0x2C67); (0x2C73, 0x2C73, 1, 0x2C72);
    (0x2C76, 0x2C76, 1, 0x2C75); (0x2C81, 0x2CE3, 2, 0x2C80);
    (0x2CEC, 0x2CEE, 2, 0x2CEB); (0x2CF3, 0x2CF3, 1, 0x2CF2);
    (0x2D00, 0x2D25, 1, 0x10A0); (0x2D27, 0x2D27, 1, 0x10C7);
    (0x2D2D, 0x2D2D, 1, 0x10CD); (0xA641, 0xA66D, 2, 0xA640);
    (0xA681, 0xA69B, 2, 0xA680); (0xA723, 0xA72F, 2, 0xA722);
    (0xA733, 0xA76F, 2, 0xA732); (0xA77A, 0xA77C, 2, 0xA779);
    (0xA77F, 0xA787, 2, 0xA77E); (0xA78C, 0xA78C, 1, 0xA78B);
    (0xA791, 0xA793, 2, 0xA790); (0xA794, 0xA794, 1, 0xA7C4);
    (0xA797, 0xA7A9, 2, 0xA796); (0xA7B5, 0xA7C3, 2, 0xA7B4);
    (0xA7C8, 0xA7CA, 2, 0xA7C7); (0xA7D1, 0xA7D1, 1, 0xA7D0);
    (0xA7D7, 0xA7D9, 2, 0xA7D6); (0xA7F6, 0xA7F6, 1, 0xA7F5);
    (0xAB53, 0xAB53, 1, 0xA7B3); (0xAB70, 0xABBF, 1, 0x13A0);
    (0xFF41, 0xFF5A, 1, 0xFF21) ]%N.

Definition UPPER_SPECIAL : list (N * list N) :=
  [ (0xDF, [0x53; 0x53]); (0x149, [0x2BC; 0x4E]); (0x1F0, [0x4A; 0x30C]);
    (0x390, [0x399; 0x308; 0x301]); (0x3B0, [0x3A5; 0x308; 0x301]);
    (0x587, [0x535; 0x552]); (0x1E96, [0x48; 0x331]); (0x1E97, [0x54; 0x308]);
    (0x1E98, [0x57; 0x30A]); (0x1E99, [0x59; 0x30A]); (0x1E9A, [0x41; 0x2BE]);
    (0x1F50, [0x3A5; 0x313]); (0x1F52, [0x3A5; 0x313; 0x300]);
    (0x1F54, [0x3A5; 0x313; 0x301]); (0x1F56, [0x3A5; 0x313; 0x342]);
    (0x1F80, [0x1F08; 0x399]); (0x1F81, [0x1F09; 0x399]);
    (0x1F82, [0x1F0A; 0x399]); (0x1F83, [0x1F0B; 0x399]);
    (0x1F84, [0x1F0C; 0x399]); (0x1F85, [0x1F0D; 0x399]);
    (0x1F86, [0x1F0E; 0x399]); (0x1F87, [0x1F0F; 0x399]);
    (0x1F88, [0x1F08; 0x399]); (0x1F89, [0x1F09; 0x399]);
    (0x1F8A, [0x1F0A; 0x399]); (0x1F8B, [0x1F0B; 0x399]);
    (0x1F8C, [0x1F0C; 0x399]); (0x1F8D, [0x1F0D; 0x399]);
    (0x1F8E, [0x1F0E; 0x399]); (0x1F8F, [0x1F0F; 0x399]);
    (0x1F90, [0x1F28; 0x399]); (0x1F91, [0x1F29; 0x399]);
    (0x1F92, [0x1F2A; 0x399]); (0x1F93, [0x1F2B; 0x399]);
    (0x1F94, [0x1F2C; 0x399]); (0x1F95, [0x1F2D; 0x399]);
    (0x1F96, [0x1F2E; 0x399]); (0x1F97, [0x1F2F; 0x399]);
    (0x1F98, [0x1F28; 0x399]); (0x1F99, [0x1F29; 0x399]);
    (0x1F9A, [0x1F2A; 0x399]); (0x1F9B, [0x1F2B; 0x399]);
    (0x1F9C, [0x1F2C; 0x399]); (0x1F9D, [0x1F2D; 0x399]);
    (0x1F9E, [0x1F2E; 0x399]); (0x1F9F, [0x1F2F; 0x399]);
    (0x1FA0, [0x1F68; 0x399]); (0x1FA1, [0x1F69; 0x399]);
    (0x1FA2, [0x1F6A; 0x399]); (0x1FA3, [0x1F6B; 0x399]);
    (0x1FA4, [0x1F6C; 0x399]); (0x1FA5, [0x1F6D; 0x399]);
    (0x1FA6, [0x1F6E; 0x399]); (0x1FA7, [0x1F6F; 0x399]);
    (0x1FA8, [0x1F68; 0x399]); (0x1FA9, [0x1F69; 0x399]);
    (0x1FAA, [0x1F6A; 0x399]); (0x1FAB, [0x1F6B; 0x399]);
    (0x1FAC, [0x1F6C; 0x399]); (0x1FAD, [0x1F6D; 0x399]);
    (0x1FAE, [0x1F6E; 0x399]); (0x1FAF, [0x1F6F; 0x399]);
    (0x1FB2, [0x1FBA; 0x399]); (0x1FB3, [0x391; 0x399]);
    (0x1FB4, [0x386; 0x399]); (0x1FB6, [0x391; 0x342]);
    (0x1FB7, [0x391; 0x342; 0x399]); (0x1FBC, [0x391; 0x399]);
    (0x1FC2, [0x1FCA; 0x399]); (0x1FC3, [0x397; 0x399]);
    (0x1FC4, [0x389; 0x399]); (0x1FC6, [0x397; 0x342]);
    (0x1FC7, [0x397; 0x342; 0x399]); (0x1FCC, [0x397; 0x399]);
    (0x1FD2, [0x399; 0x308; 0x300]); (0x1FD3, [0x399; 0x308; 0x301]);
    (0x1FD6, [0x399; 0x342]); (0x1FD7, [0x399; 0x308; 0x342]);
    (0x1FE2, [0x3A5; 0x308; 0x300]); (0x1FE3, [0x3A5; 0x308; 0x301]);
    (0x1FE4, [0x3A1; 0x313]); (0x1FE6, [0x3A5; 0x342]);
    (0x1FE7, [0x3A5; 0x308; 0x342]); (0x1FF2, [0x1FFA; 0x399]);
    (0x1FF3, [0x3A9; 0x399]); (0x1FF4, [0x38F; 0x399]);
    (0x1FF6, [0x3A9; 0x342]); (0x1FF7, [0x3A9; 0x342; 0x399]);
    (0x1FFC, [0x3A9; 0x399]); (0xFB00, [0x46; 0x46]); (0xFB01, [0x46; 0x49]);
    (0xFB02, [0x46; 0x4C]); (0xFB03, [0x46; 0x46; 0x49]);
    (0xFB04, [0x46; 0x46; 0x4C]); (0xFB05, [0x53; 0x54]);
    (0xFB06, [0x53; 0x54]); (0xFB13, [0x544; 0x546]);
    (0xFB14, [0x544; 0x535]); (0xFB15, [0x544; 0x53B]);
    (0xFB16, [0x54E; 0x546]); (0xFB17, [0x544; 0x53D]) ]%N.

Definition CASE_IGNORABLE : list (N * N) :=
  [ (0x27, 0x27); (0x2E, 0x2E); (0x3A, 0x3A); (0x5E, 0x5E); (0x60, 0x60);
    (0xA8, 0xA8); (0xAD, 0xAD); (0xAF, 0xAF); (0xB4, 0xB4); (0xB7, 0xB8);
    (0x2B0, 0x36F); (0x374, 0x375); (0x37A, 0x37A); (0x384, 0x385);
    (0x387, 0x387); (0x483, 0x489); (0x559, 0x559); (0x55F, 0x55F);
    (0x591, 0x5BD); (0x5BF, 0x5BF); (0x5C1, 0x5C2); (0x5C4, 0x5C5);
    (0x5C7, 0x5C7); (0x5F4, 0x5F4); (0x600, 0x605); (0x610, 0x61A);
    (0x61C, 0x61C); (0x640, 0x640); (0x64B, 0x65F); (0x670, 0x670);
    (0x6D6, 0x6DD); (0x6DF, 0x6E8); (0x6EA, 0x6ED); (0x70F, 0x70F);
    (0x711, 0x711); (0x730, 0x74A); (0x7A6, 0x7B0); (0x7EB, 0x7F5);
    (0x7FA, 0x7FA); (0x7FD, 0x7FD); (0x816, 0x82D); (0x859, 0x85B);
    (0x888, 0x888); (0x890, 0x891); (0x898, 0x89F); (0x8C9, 0x902);
    (0x93A, 0x93A); (0x93C, 0x93C); (0x941, 0x948); (0x94D, 0x94D);
    (0x951, 0x957); (0x962, 0x963); (0x971, 0x971); (0x981, 0x981);
    (0x9BC, 0x9BC); (0x9C1, 0x9C4); (0x9CD, 0x9CD); (0x9E2, 0x9E3);
    (0x9FE, 0x9FE); (0xA01, 0xA02); (0xA3C, 0xA3C); (0xA41, 0xA42);
    (0xA47, 0xA48); (0xA4B, 0xA4D); (0xA51, 0xA51); (0xA70, 0xA71);
    (0xA75, 0xA75); (0xA81, 0xA82); (0xABC, 0xABC); (0xAC1, 0xAC5);
    (0xAC7, 0xAC8); (0xACD, 0xACD); (0xAE2, 0xAE3); (0xAFA, 0xAFF);
    (0xB01, 0xB01); (0xB3C, 0xB3C); (0xB3F, 0xB3F); (0xB41, 0xB44);
    (0xB4D, 0xB4D); (0xB55, 0xB56); (0xB62, 0xB63); (0xB82, 0xB82);
    (0xBC0, 0xBC0); (0xBCD, 0xBCD); (0xC00, 0xC00); (0xC04, 0xC04);
    (0xC3C, 0xC3C); (0xC3E, 0xC40); (0xC46, 0xC48); (0xC4A, 0xC4D);
    (0xC55, 0xC56); (0xC62, 0xC63); (0xC81, 0xC81); (0xCBC, 0xCBC);
    (0xCBF, 0xCBF); (0xCC6, 0xCC6); (0xCCC, 0xCCD); (0xCE2, 0xCE3);
    (0xD00, 0xD01); (0xD3B, 0xD3C); (0xD41, 0xD44); (0xD4D, 0xD4D);
    (0xD62, 0xD63); (0xD81, 0xD81); (0xDCA, 0xDCA); (0xDD2, 0xDD4);
    (0xDD6, 0xDD6); (0xE31, 0xE31); (0xE34, 0xE3A); (0xE46, 0xE4E);
    (0xEB1, 0xEB1); (0xEB4, 0xEBC); (0xEC6, 0xEC6); (0xEC8, 0xECD);
    (0xF18, 0xF19); (0xF35, 0xF35); (0xF37, 0xF37); (0xF39, 0xF39);
    (0xF71, 0xF7E); (0xF80, 0xF84); (0xF86, 0xF87); (0xF8D, 0xF97);
    (0xF99, 0xFBC); (0xFC6, 0xFC6); (0x102D, 0x1030); (0x1032, 0x1037);
    (0x1039, 0x103A); (0x103D, 0x103E); (0x1058, 0x1059); (0x105E, 0x1060);
    (0x1071, 0x1074); (0x1082, 0x1082); (0x1085, 0x1086); (0x108D, 0x108D);
    (0x109D, 0x109D); (0x10FC, 0x10FC); (0x135D, 0x135F); (0x1712, 0x1714);
    (0x1732, 0x1733); (0x1752, 0x1753); (0x1772, 0x1773); (0x17B4, 0x17B5);
    (0x17B7, 0x17BD); (0x17C6, 0x17C6); (0x17C9, 0x17D3); (0x17D7, 0x17D7);
    (0x17DD, 0x17DD); (0x180B, 0x180F); (0x1843, 0x1843); (0x1885, 0x1886);
    (0x18A9, 0x18A9); (0x1920, 0x1922); (0x1927, 0x1928); (0x1932, 0x1932);
    (0x1939, 0x193B); (0x1A17, 0x1A18); (0x1A1B, 0x1A1B); (0x1A56, 0x1A56);
    (0x1A58, 0x1A5E); (0x1A60, 0x1A60); (0x1A62, 0x1A62); (0x1A65, 0x1A6C);
    (0x1A73, 0x1A7C); (0x1A7F, 0x1A7F); (0x1AA7, 0x1AA7); (0x1AB0, 0x1ACE);
    (0x1B00, 0x1B03); (0x1B34, 0x1B34); (0x1B36, 0x1B3A); (0x1B3C, 0x1B3C);
    (0x1B42, 0x1B42); (0x1B6B, 0x1B73); (0x1B80, 0x1B81); (0x1BA2, 0x1BA5);
    (0x1BA8, 0x1BA9); (0x1BAB, 0x1BAD); (0x1BE6, 0x1BE6); (0x1BE8, 0x1BE9);
    (0x1BED, 0x1BED); (0x1BEF, 0x1BF1); (0x1C2C, 0x1C33); (0x1C36, 0x1C37);
    (0x1C78, 0x1C7D); (0x1CD0, 0x1CD2); (0x1CD4, 0x1CE0); (0x1CE2, 0x1CE8);
    (0x1CED, 0x1CED); (0x1CF4, 0x1CF4); (0x1CF8, 0x1CF9); (0x1D2C, 0x1D6A);
    (0x1D78, 0x1D78); (0x1D9B, 0x1DFF); (0x1FBD, 0x1FBD); (0x1FBF, 0x1FC1);
    (0x1FCD, 0x1FCF); (0x1FDD, 0x1FDF); (0x1FED, 0x1FEF); (0x1FFD, 0x1FFE);
    (0x200B, 0x200F); (0x2018, 0x2019); (0x2024, 0x2024); (0x2027, 0x2027);
    (0x202A, 0x202E); (0x2060, 0x2064); (0x2066, 0x206F); (0x2071, 0x2071);
    (0x207F, 0x207F); (0x2090, 0x209C); (0x20D0, 0x20F0); (0x2C7C, 0x2C7D);
    (0x2CEF, 0x2CF1); (0x2D6F, 0x2D6F); (0x2D7F, 0x2D7F); (0x2DE0, 0x2DFF);
    (0x2E2F, 0x2E2F); (0x3005, 0x3005); (0x302A, 0x302D); (0x3031, 0x3035);
    (0x303B, 0x303B); (0x3099, 0x309E); (0x30FC, 0x30FE); (0xA015, 0xA015);
    (0xA4F8, 0xA4FD); (0xA60C, 0xA60C); (0xA66F, 0xA672); (0xA674, 0xA67D);
    (0xA67F, 0xA67F); (0xA69C, 0xA69F); (0xA6F0, 0xA6F1); (0xA700, 0xA721);
    (0xA770, 0xA770); (0xA788, 0xA78A); (0xA7F2, 0xA7F4); (0xA7F8, 0xA7F9);
    (0xA802, 0xA802); (0xA806, 0xA806); (0xA80B, 0xA80B); (0xA825, 0xA826);
    (0xA82C, 0xA82C); (0xA8C4, 0xA8C5); (0xA8E0, 0xA8F1); (0xA8FF, 0xA8FF);
    (0xA926, 0xA92D); (0xA947, 0xA951); (0xA980, 0xA982); (0xA9B3, 0xA9B3);
    (0xA9B6, 0xA9B9); (0xA9BC, 0xA9BD); (0xA9CF, 0xA9CF); (0xA9E5, 0xA9E6);
    (0xAA29, 0xAA2E); (0xAA31, 0xAA32); (0xAA35, 0xAA36); (0xAA43, 0xAA43);
    (0xAA4C, 0xAA4C); (0xAA70, 0xAA70); (0xAA7C, 0xAA7C); (0xAAB0, 0xAAB0);
    (0xAAB2, 0xAAB4); (0xAAB7, 0xAAB8); (0xAABE, 0xAABF); (0xAAC1, 0xAAC1);
    (0xAADD, 0xAADD); (0xAAEC, 0xAAED); (0xAAF3, 0xAAF4); (0xAAF6, 0xAAF6);
    (0xAB5B, 0xAB5F); (0xAB69, 0xAB6B); (0xABE5, 0xABE5); (0xABE8, 0xABE8);
    (0xABED, 0xABED); (0xFB1E, 0xFB1E); (0xFBB2, 0xFBC2); (0xFE00, 0xFE0F);
    (0xFE13, 0xFE13); (0xFE20, 0xFE2F); (0xFE52, 0xFE52); (0xFE55, 0xFE55);
    (0xFEFF, 0xFEFF); (0xFF07, 0xFF07); (0xFF0E, 0xFF0E); (0xFF1A, 0xFF1A);
    (0xFF3E, 0xFF3E); (0xFF40, 0xFF40); (0xFF70, 0xFF70); (0xFF9E, 0xFF9F);
    (0xFFE3, 0xFFE3); (0xFFF9, 0xFFFB); (0x101FD, 0x101FD);
    (0x102E0, 0x102E0); (0x10376, 0x1037A); (0x10780, 0x10785);
    (0x10787, 0x107B0); (0x107B2, 0x107BA); (0x10A01, 0x10A03);
    (0x10A05, 0x10A06); (0x10A0C, 0x10A0F); (0x10A38, 0x10A3A);
    (0x10A3F, 0x10A3F); (0x10AE5, 0x10AE6); (0x10D24, 0x10D27);
    (0x10EAB, 0x10EAC); (0x10F46, 0x10F50); (0x10F82, 0x10F85);
    (0x11001, 0x11001); (0x11038, 0x11046); (0x11070, 0x11070);
    (0x11073, 0x11074); (0x1107F, 0x11081); (0x110B3, 0x110B6);
    (0x110B9, 0x110BA); (0x110BD, 0x110BD); (0x110C2, 0x110C2);
    (0x110CD, 0x110CD); (0x11100, 0x11102); (0x11127, 0x1112B);
    (0x1112D, 0x11134); (0x11173, 0x11173); (0x11180, 0x11181);
    (0x111B6, 0x111BE); (0x111C9, 0x111CC); (0x111CF, 0x111CF);
    (0x1122F, 0x11231); (0x11234, 0x11234); (0x11236, 0x11237);
    (0x1123E, 0x1123E); (0x112DF, 0x112DF); (0x112E3, 0x112EA);
    (0x11300, 0x11301); (0x1133B, 0x1133C); (0x11340, 0x11340);
    (0x11366, 0x1136C); (0x11370, 0x11374); (0x11438, 0x1143F);
    (0x11442, 0x11444); (0x11446, 0x11446); (0x1145E, 0x1145E);
    (0x114B3, 0x114B8); (0x114BA, 0x114BA); (0x114BF, 0x114C0);
    (0x114C2, 0x114C3); (0x115B2, 0x115B5); (0x115BC, 0x115BD);
    (0x115BF, 0x115C0); (0x115DC, 0x115DD); (0x11633, 0x1163A);
    (0x1163D, 0x1163D); (0x1163F, 0x11640); (0x116AB, 0x116AB);
    (0x116AD, 0x116AD); (0x116B0, 0x116B5); (0x116B7, 0x116B7);
    (0x1171D, 0x1171F); (0x11722, 0x11725); (0x11727, 0x1172B);
    (0x1182F, 0x11837); (0x11839, 0x1183A); (0x1193B, 0x1193C);
    (0x1193E, 0x1193E); (0x11943, 0x11943); (0x119D4, 0x119D7);
    (0x119DA, 0x119DB); (0x119E0, 0x119E0); (0x11A01, 0x11A0A);
    (0x11A33, 0x11A38); (0x11A3B, 0x11A3E); (0x11A47, 0x11A47);
    (0x11A51, 0x11A56); (0x11A59, 0x11A5B); (0x11A8A, 0x11A96);
    (0x11A98, 0x11A99); (0x11C30, 0x11C36); (0x11C38, 0x11C3D);
    (0x11C3F, 0x11C3F); (0x11C92, 0x11CA7); (0x11CAA, 0x11CB0);
    (0x11CB2, 0x11CB3); (0x11CB5, 0x11CB6); (0x11D31, 0x11D36);
    (0x11D3A, 0x11D3A); (0x11D3C, 0x11D3D); (0x11D3F, 0x11D45);
    (0x11D47, 0x11D47); (0x11D90, 0x11D91); (0x11D95, 0x11D95);
    (0x11D97, 0x11D97); (0x11EF3, 0x11EF4); (0x13430, 0x13438);
    (0x16AF0, 0x16AF4); (0x16B30, 0x16B36); (0x16B40, 0x16B43);
    (0x16F4F, 0x16F4F); (0x16F8F, 0x16F9F); (0x16FE0, 0x16FE1);
    (0x16FE3, 0x16FE4); (0x1AFF0, 0x1AFF3); (0x1AFF5, 0x1AFFB);
    (0x1AFFD, 0x1AFFE); (0x1BC9D, 0x1BC9E); (0x1BCA0, 0x1BCA3);
    (0x1CF00, 0x1CF2D); (0x1CF30, 0x1CF46); (0x1D167, 0x1D169);
    (0x1D173, 0x1D182); (0x1D185, 0x1D18B); (0x1D1AA, 0x1D1AD);
    (0x1D242, 0x1D244); (0x1DA00, 0x1DA36); (0x1DA3B, 0x1DA6C);
    (0x1DA75, 0x1DA75); (0x1DA84, 0x1DA84); (0x1DA9B, 0x1DA9F);
    (0x1DAA1, 0x1DAAF); (0x1E000, 0x1E006); (0x1E008, 0x1E018);
    (0x1E01B, 0x1E021); (0x1E023, 0x1E024); (0x1E026, 0x1E02A);
    (0x1E130, 0x1E13D); (0x1E2AE, 0x1E2AE); (0x1E2EC, 0x1E2EF);
    (0x1E8D0, 0x1E8D6); (0x1E944, 0x1E94B); (0x1F3FB, 0x1F3FF);
    (0xE0001, 0xE0001); (0xE0020, 0xE007F); (0xE0100, 0xE01EF) ]%N.

Definition CASED : list (N * N) :=
  [ (0x41, 0x5A); (0x61, 0x7A); (0xAA, 0xAA); (0xB5, 0xB5); (0xBA, 0xBA);
    (0xC0, 0xD6); (0xD8, 0xF6); (0xF8, 0x1BA); (0x1BC, 0x1BF); (0x1C4, 0x293);
    (0x295, 0x2AF); (0x370, 0x373); (0x376, 0x377); (0x37B, 0x37D);
    (0x37F, 0x37F); (0x386, 0x386); (0x388, 0x38A); (0x38C, 0x38C);
    (0x38E, 0x3A1); (0x3A3, 0x3F5); (0x3F7, 0x481); (0x48A, 0x52F);
    (0x531, 0x556); (0x560, 0x588); (0x10A0, 0x10C5); (0x10C7, 0x10C7);
    (0x10CD, 0x10CD); (0x10D0, 0x10FA); (0x10FD, 0x10FF); (0x13A0, 0x13F5);
    (0x13F8, 0x13FD); (0x1C80, 0x1C88); (0x1C90, 0x1CBA); (0x1CBD, 0x1CBF);
    (0x1D00, 0x1D2B); (0x1D6B, 0x1D77); (0x1D79, 0x1D9A); (0x1E00, 0x1F15);
    (0x1F18, 0x1F1D); (0x1F20, 0x1F45); (0x1F48, 0x1F4D); (0x1F50, 0x1F57);
    (0x1F59, 0x1F59); (0x1F5B, 0x1F5B); (0x1F5D, 0x1F5D); (0x1F5F, 0x1F7D);
    (0x1F80, 0x1FB4); (0x1FB6, 0x1FBC); (0x1FBE, 0x1FBE); (0x1FC2, 0x1FC4);
    (0x1FC6, 0x1FCC); (0x1FD0, 0x1FD3); (0x1FD6, 0x1FDB); (0x1FE0, 0x1FEC);
    (0x1FF2, 0x1FF4); (0x1FF6, 0x1FFC); (0x2102, 0x2102); (0x2107, 0x2107);
    (0x210A, 0x2113); (0x2115, 0x2115); (0x2119, 0x211D); (0x2124, 0x2124);
    (0x2126, 0x2126); (0x2128, 0x2128); (0x212A, 0x212D); (0x212F, 0x2134);
    (0x2139, 0x2139); (0x213C, 0x213F); (0x2145, 0x2149); (0x214E, 0x214E);
    (0x2160, 0x217F); (0x2183, 0x2184); (0x24B6, 0x24E9); (0x2C00, 0x2C7B);
    (0x2C7E, 0x2CE4); (0x2CEB, 0x2CEE); (0x2CF2, 0x2CF3); (0x2D00, 0x2D25);
    (0x2D27, 0x2D27); (0x2D2D, 0x2D2D); (0xA640, 0xA66D); (0xA680, 0xA69B);
    (0xA722, 0xA76F); (0xA771, 0xA787); (0xA78B, 0xA78E); (0xA790, 0xA7CA);
    (0xA7D0, 0xA7D1); (0xA7D3, 0xA7D3); (0xA7D5, 0xA7D9); (0xA7F5, 0xA7F6);
    (0xA7FA, 0xA7FA); (0xAB30, 0xAB5A); (0xAB60, 0xAB68); (0xAB70, 0xABBF);
    (0xFB00, 0xFB06); (0xFB13, 0xFB17); (0xFF21, 0xFF3A); (0xFF41, 0xFF5A);
    (0x10400, 0x1044F); (0x104B0, 0x104D3); (0x104D8, 0x104FB);
    (0x10570, 0x1057A); (0x1057C, 0x1058A); (0x1058C, 0x10592);
    (0x10594, 0x10595); (0x10597, 0x105A1); (0x105A3, 0x105B1);
    (0x105B3, 0x105B9); (0x105BB, 0x105BC); (0x10C80, 0x10CB2);
    (0x10CC0, 0x10CF2); (0x118A0, 0x118DF); (0x16E40, 0x16E7F);
    (0x1D400, 0x1D454); (0x1D456, 0x1D49C); (0x1D49E, 0x1D49F);
    (0x1D4A2, 0x1D4A2); (0x1D4A5, 0x1D4A6); (0x1D4A9, 0x1D4AC);
    (0x1D4AE, 0x1D4B9); (0x1D4BB, 0x1D4BB); (0x1D4BD, 0x1D4C3);
    (0x1D4C5, 0x1D505); (0x1D507, 0x1D50A); (0x1D50D, 0x1D514);
    (0x1D516, 0x1D51C); (0x1D51E, 0x1D539); (0x1D53B, 0x1D53E);
    (0x1D540, 0x1D544); (0x1D546, 0x1D546); (0x1D54A, 0x1D550);
    (0x1D552, 0x1D6A5); (0x1D6A8, 0x1D6C0); (0x1D6C2, 0x1D6DA);
    (0x1D6DC, 0x1D6FA); (0x1D6FC, 0x1D714); (0x1D716, 0x1D734);
    (0x1D736, 0x1D74E); (0x1D750, 0x1D76E); (0x1D770, 0x1D788);
    (0x1D78A, 0x1D7A8); (0x1D7AA, 0x1D7C2); (0x1D7C4, 0x1D7CB);
    (0x1DF00, 0x1DF09); (0x1DF0B, 0x1DF1E); (0x1E900, 0x1E943);
    (0x1F130, 0x1F149); (0x1F150, 0x1F169); (0x1F170, 0x1F189) ]%N.

Fixpoint expand_range (count : nat) (step : N) (source target : N) : list (N * N) :=
  match count with
  | 0 => []
  | S n => (source, target) :: expand_range n step (source + step)%N (target + step)%N
  end.

Definition expand (range : N * N * N * N) : list (N * N) :=
  let '(first, last, step, target) := range in
  expand_range (S (N.to_nat ((last - first) / step))) step first target.

Definition LOWER_TABLE : list (N * N) :=
  Eval vm_compute in flat_map expand LOWER_RANGES.

Definition UPPER_TABLE : list (N * N) :=
  Eval vm_compute in flat_map expand UPPER_RANGES.

Fixpoint assoc {A : Type} (p : N) (table : list (N * A)) : option A :=
  match table with
  | [] => None
  | (k, v) :: rest => if (p =? k)%N then Some v else assoc p rest
  end.

(** The ranges of a class are in ascending order. *)
Fixpoint in_ranges (p : N) (ranges : list (N * N)) : bool :=
  match ranges with
  | [] => false
  | (lo, hi) :: rest =>
      if (p <? lo)%N then false
      else if (p <=? hi)%N then true
      else in_ranges p rest
  end.

(** The lower-case mapping of a code point other than the capital sigma and
    the capital I with a dot above: [None] when it maps to itself. *)
Definition lower_simple (p : N) : option N :=
  if (p <? 0x80)%N then (if is_upper p then Some (p + 32)%N else None)
  else assoc p LOWER_TABLE.

Definition CAPITAL_SIGMA : N := 0x3A3%N.
Definition SMALL_SIGMA : N := 0x3C3%N.
Definition FINAL_SIGMA : N := 0x3C2%N.
Definition CAPITAL_I_WITH_DOT : N := 0x130%N.

(** The class of a code point in the test of the final sigma: a code point
    that is case-ignorable is skipped, whether cased or not. *)
Definition is_case_ignorable (p : N) : bool := in_ranges p CASE_IGNORABLE.
Definition is_cased (p : N) : bool := in_ranges p CASED.

(** Whether the text before the next code point ends with a cased letter
    followed by case-ignorable code points only. *)
Definition after_cased (before : bool) (p : N) : bool :=
  if is_case_ignorable p then before else is_cased p.

(** Whether the text starts with case-ignorable code points followed by a
    cased letter. *)
Fixpoint cased_follows (s : string) : bool :=
  match s with
  | EmptyString => false
  | String c s' =>
      match s' with
      | String d rest =>
          if is_high_surrogate c && is_low_surrogate d
          then (if is_case_ignorable (astral c d) then cased_follows rest
                else is_cased (astral c d))
          else (if is_case_ignorable c then cased_follows s' else is_cased c)
      | EmptyString => if is_case_ignorable c then false else is_cased c
      end
  end.

Fixpoint concat_units (points : list N) : string :=
  match points with
  | [] => EmptyString
  | p :: rest => append (units_of_point p) (concat_units rest)
  end.

(** The lower case of the code point [p], held in the string as [original]
    and followed by [rest].  The capital sigma becomes the final sigma when
    a cased letter comes before it and none follows. *)
Definition lower_point (before : bool) (p : N) (original rest : string) : string :=
  if (p =? CAPITAL_SIGMA)%N then
    String (if before && negb (cased_follows rest) then FINAL_SIGMA else SMALL_SIGMA)
      EmptyString
  else if (p =? CAPITAL_I_WITH_DOT)%N then concat_units [0x69; 0x307]%N
  else
    match lower_simple p with
    | Some target => units_of_point target
    | None => original
    end.

Fixpoint lower_from (before : bool) (s : string) : string :=
  match s with
  | EmptyString => EmptyString
  | String c s' =>
      match s' with
      | String d rest =>
          if is_high_surrogate c && is_low_surrogate d
          then append
                 (lower_point before (astral c d)
                    (String c (String d EmptyString)) rest)
                 (lower_from (after_cased before (astral c d)) rest)
          else append (lower_point before c (String c EmptyString) s')
                 (lower_from (after_cased before c) s')
      | EmptyString => lower_point before c (String c EmptyString) EmptyString
      end
  end.

(** [s.toLowerCase()] *)
Definition toLowerCase (s : string) : string := lower_from false s.

(** [c.toUpperCase()] for a string [c] of one code unit: a surrogate, which
    is then unpaired, and a code unit without upper case stay as they are;
    some characters have an upper case of two or three. *)
Definition upper_unit (c : code_unit) : string :=
  if (c <? 0x80)%N then String (if is_lower c then c - 32 else c)%N EmptyString
  else
    match assoc c UPPER_SPECIAL with
    | Some units => concat_units units
    | None =>
        match assoc c UPPER_TABLE with
        | Some target => String target EmptyString
        | None => String c EmptyString
        end
    end.

(** *** Methods *)

Definition trimStart (s : string) : string := drop_while is_space s.

Fixpoint trimEnd (s : string) : string :=
  match s with
  | EmptyString => EmptyString
  | String c s' =>
      match trimEnd s' with
      | EmptyString => if is_space c then EmptyString else String c EmptyString
      | t => String c t
      end
  end.

Definition trim (s : string) : string := trimEnd (trimStart s).

Definition cons_head (c : code_unit) (r : list string) : list string :=
  match r with
  | [] => [String c EmptyString]
  | p :: ps => String c p :: ps
  end.

(** [s.split(/[sep]+/)]: the pieces between the maximal runs of separator
    characters, the empty pieces at both ends included. *)
Fixpoint split_runs (sep : code_unit -> bool) (s : string) : list string :=
  match s with
  | EmptyString => [EmptyString]
  | String c s' =>
      let r := split_runs sep s' in
      if sep c then (if head_is sep s' then r else EmptyString :: r)
      else cons_head c r
  end.

Fixpoint starts_with (t s : string) : bool :=
  match t, s with
  | EmptyString, _ => true
  | String a t', String b s' => N.eqb a b && starts_with t' s'
  | String _ _, EmptyString => false
  end.

(** [s.includes(t)] *)
Fixpoint includes (s t : string) : bool :=
  starts_with t s ||
  match s with
  | EmptyString => false
  | String _ s' => includes s' t
  end.

(** [value.charAt(0).toUpperCase() + value.slice(1)], and [value] itself
    when it is empty. *)
Definition capitalize (value : string) : string :=
  match value with
  | EmptyString => value
  | String c rest => append (upper_unit c) rest
  end.

Fixpoint of_uint (digits : Decimal.uint) : string :=
  match digits with
  | Decimal.Nil => EmptyString
  | Decimal.D0 d => String "0"%char (of_uint d)
  | Decimal.D1 d => String "1"%char (of_uint d)
  | Decimal.D2 d => String "2"%char (of_uint d)
  | Decimal.D3 d => String "3"%char (of_uint d)
  | Decimal.D4 d => String "4"%char (of_uint d)
  | Decimal.D5 d => String "5"%char (of_uint d)
  | Decimal.D6 d => String "6"%char (of_uint d)
  | Decimal.D7 d => String "7"%char (of_uint d)
  | Decimal.D8 d => String "8"%char (of_uint d)
  | Decimal.D9 d => String "9"%char (of_uint d)
  end.

(** Decimal rendering of a non-negative integer inside a template. *)
Definition of_nat (n : nat) : string := of_uint (Nat.to_uint n).

(** The letters [a] and [i] in either case, as the flag [i] of a regular
    expression without the flag [u] matches them. *)
Definition is_a (c : code_unit) : bool := (c =? "a"%char)%N || (c =? "A"%char)%N.
Definition is_i (c : code_unit) : bool := (c =? "i"%char)%N || (c =? "I"%char)%N.

(** [s.replace(/AI/gi, "AI")]: every occurrence of the two letters, whatever
    their case and whatever surrounds them. *)
Fixpoint replace_ai_anywhere (s : string) : string :=
  match s with
  | EmptyString => EmptyString
  | String c s' =>
      match s' with
      | String d rest =>
          if is_a c && is_i d
          then String "A"%char (String "I"%char (replace_ai_anywhere rest))
          else String c (replace_ai_anywhere s')
      | EmptyString => String c EmptyString
      end
  end.

(** [s.replace(/\b(ai)\b/gi, "AI")]: the two letters only when they stand as
    a word of their own; [prev_word] tells whether the character before the
    current position is a word character. *)
Fixpoint replace_ai_word (prev_word : bool) (s : string) : string :=
  match s with
  | EmptyString => EmptyString
  | String c s' =>
      match s' with
      | String d rest =>
          if negb prev_word && is_a c && is_i d && negb (head_is is_word rest)
          then String "A"%char (String "I"%char (replace_ai_word true rest))
          else String c (replace_ai_word (is_word c) s')
      | EmptyString => String c EmptyString
      end
  end.

(** The conversion of a string to a sequence of Unicode scalar values, as
    the arguments of a Web API declared [USVString] undergo it: a surrogate
    that is not half of a pair becomes U+FFFD. *)
Fixpoint to_well_formed (s : string) : string :=
  match s with
  | EmptyString => EmptyString
  | String c s' =>
      if is_high_surrogate c then
        match s' with
        | String d rest =>
            if is_low_surrogate d then String c (String d (to_well_formed rest))
            else String 0xFFFD%N (to_well_formed s')
        | EmptyString => String 0xFFFD%N EmptyString
        end
      else if is_low_surrogate c then String 0xFFFD%N (to_well_formed s')
      else String c (to_well_formed s')
  end.

Definition string_dec (a b : string) : {a = b} + {a <> b}.
Proof. decide equality. apply N.eq_dec. Defined.

End JsString.

Import JsString.
Open Scope js_scope.
(** ** Values that can be missing, and errors *)

(** What [table[key]] yields when it is not [undefined]: an own entry of the
    table, or a member inherited from [Object.prototype] (a function, or the
    prototype object itself for [__proto__]); such a member has none of the
    fields of a profile and no string method. *)
Inductive lookup (A : Type) : Type :=
| Own (a : A)
| Inherited (name : string).

Arguments Own {A} a.
Arguments Inherited {A} name.

(** The outcome of a computation that can raise a [TypeError]. *)
Inductive result (A : Type) : Type :=
| Ok (a : A)
| Throw.

Arguments Ok {A} a.
Arguments Throw {A}.

Definition bind {A B : Type} (r : result A) (k : A -> result B) : result B :=
  match r with
  | Ok a => k a
  | Throw => Throw
  end.

Notation "x <- r ;; k" := (bind r (fun x => k))
  (at level 61, r at next level, right associativity).

(** The property names every plain object inherits. *)
Definition OBJECT_PROTOTYPE_KEYS : list string :=
  [ "constructor"; "__defineGetter__"; "__defineSetter__"; "hasOwnProperty";
    "__lookupGetter__"; "__lookupSetter__"; "isPrototypeOf";
    "propertyIsEnumerable"; "toString"; "valueOf"; "__proto__";
    "toLocaleString" ].

Definition mem (x : string) (l : list string) : bool :=
  existsb (eqb x) l.

Fixpoint own_entry {A : Type} (table : list (string * A)) (key : string) : option A :=
  match table with
  | [] => None
  | (k, v) :: rest => if eqb k key then Some v else own_entry rest key
  end.

(** [table[key]]; [None] is [undefined]. *)
Definition read {A : Type} (table : list (string * A)) (key : string)
  : option (lookup A) :=
  match own_entry table key with
  | Some v => Some (Own v)
  | None => if mem key OBJECT_PROTOTYPE_KEYS then Some (Inherited key) else None
  end.

(** [a ?? b] *)
Definition nullish {X : Type} (a : option X) (b : X) : X :=
  match a with
  | Some x => x
  | None => b
  end.

(** [profile.f]; [None] is [undefined]. *)
Definition field {A : Type} (f : A -> string) (o : lookup A) : option string :=
  match o with
  | Own a => Some (f a)
  | Inherited _ => None
  end.

(** A value interpolated in a template literal. *)
Definition show (v : option string) : string :=
  match v with
  | Some s => s
  | None => "undefined"
  end.

(** [capitalize] applied to a value that may be [undefined]: [!value] holds
    for [undefined], which is returned as it is. *)
Definition capitalize_value (v : option string) : option string :=
  match v with
  | Some s => Some (capitalize s)
  | None => None
  end.

(** [arr[i].f]: reading a property of [undefined] is a [TypeError]. *)
Definition element {A : Type} (arr : list A) (i : nat) : result A :=
  match nth_error arr i with
  | Some a => Ok a
  | None => Throw
  end.

(** ** The data model *)

Module Form.
Record ScriptForm : Type := {
  topic : string;
  story : string;
  aspectRatio : string;
  mood : string;
  keywords : string;
  language : string
}.
End Form.

Module Scene.
Record ScenePlan : Type := {
  id : nat;
  label : string;
  voiceover : string;
  duration : string;
  visuals : string;
  overlay : string;
  assets : list string
}.
End Scene.

Module Mood.
Record MoodProfile : Type := {
  pacing : string;
  audio : string;
  colorPalette : list string;
  motion : string;
  lighting : string;
  voiceTone : string;
  hookVerb : string
}.
End Mood.

Module Aspect.
Record AspectConcept : Type := {
  framing : string;
  safeZone : string
}.
End Aspect.

Module Script.
(** [productionNotes] is declared [string[]]; its first entry is read from the
    aspect profile and is [undefined] ([None]) when that profile is an
    inherited member. *)
Record VideoScript : Type := {
  title : string;
  subtitle : string;
  hook : string;
  callToAction : string;
  aspectRatio : string;
  mood : string;
  language : string;
  pacing : string;
  audioRecommendation : string;
  colorPalette : list string;
  keywords : list string;
  narrationStyle : string;
  scenes : list Scene.ScenePlan;
  productionNotes : list (option string)
}.
End Script.

Import Form Scene Mood Aspect.

(** ** The tables *)

Definition LANGUAGE_LABELS : list (string * string) :=
  [ ("en", "English"); ("es", "Spanish"); ("fr", "French"); ("de", "German");
    ("pt", "Portuguese"); ("it", "Italian"); ("ja", "Japanese");
    ("zh", "Mandarin Chinese") ].

Definition calm : MoodProfile := {|
  pacing := "even, thoughtful cadence";
  audio := "Soft ambient piano bed with airy pads";
  colorPalette := ["#E6F0FF"; "#C9DBF4"; "#F4F6FB"];
  motion := "gentle parallax moves and slow dolly pushes";
  lighting := "diffused light with cool highlights";
  voiceTone := "warm, reassuring narration";
  hookVerb := "Invite"
|}.

Definition energetic : MoodProfile := {|
  pacing := "snappy with dynamic emphasis";
  audio := "Driving electronic beat with rhythmic pulses";
  colorPalette := ["#FFE6AA"; "#FF8A65"; "#3D5AFE"];
  motion := "bold camera sweeps and quick punch-ins";
  lighting := "high contrast with saturated accents";
  voiceTone := "confident and enthusiastic";
  hookVerb := "Energize"
|}.

Definition inspirational : MoodProfile := {|
  pacing := "uplifting, gradually building momentum";
  audio := "Cinematic orchestra with light percussion";
  colorPalette := ["#FFF3E0"; "#F8BBD0"; "#B39DDB"];
  motion := "slow reveals with lens flare accents";
  lighting := "warm backlighting with soft bloom";
  voiceTone := "aspirational and optimistic";
  hookVerb := "Inspire"
|}.

Definition MOOD_PROFILES : list (string * MoodProfile) :=
  [ ("calm", calm); ("energetic", energetic); ("inspirational", inspirational) ].

Definition DEFAULT_MOOD_PROFILE : lookup MoodProfile := Own calm.

Definition landscape : AspectConcept := {|
  framing :=
    "Landscape compositions with breathable negative space for lower-third overlays.";
  safeZone :=
    "Keep essential graphics inside the central 80% to protect against cropping on social platforms."
|}.

Definition vertical : AspectConcept := {|
  framing :=
    "Vertical storytelling with stacked layers and motion from bottom to top.";
  safeZone :=
    "Constrain text to the middle 60% to avoid UI overlays on short-form platforms."
|}.

Definition square : AspectConcept := {|
  framing := "Centered compositions with symmetrical graphic arrangements.";
  safeZone :=
    "Use a circular safe zone to keep faces and titles from getting clipped."
|}.

Definition ASPECT_GUIDANCE : list (string * AspectConcept) :=
  [ ("16:9", landscape); ("9:16", vertical); ("1:1", square) ].

Definition DEFAULT_ASPECT_GUIDANCE : lookup AspectConcept := Own landscape.

Definition STOP_WORDS : list string :=
  [ "a"; "an"; "and"; "are"; "as"; "at"; "be"; "by"; "for"; "from"; "how";
    "in"; "into"; "is"; "it"; "of"; "on"; "or"; "that"; "the"; "to"; "with";
    "what"; "why"; "when"; "does"; "do"; "can"; "like"; "just" ].

(** ** Story segmentation *)

Definition is_newline (c : code_unit) : bool := (c =? 10)%N.
Definition is_carriage_return (c : code_unit) : bool := (c =? 13)%N.

(** [.!?] *)
Definition is_sentence_end (c : code_unit) : bool :=
  (c =? 46)%N || (c =? 33)%N || (c =? 63)%N.

(** [,;\n] *)
Definition is_keyword_separator (c : code_unit) : bool :=
  (c =? 44)%N || (c =? 59)%N || (c =? 10)%N.

(** The lookahead of the sentence boundary, seen from inside a run of
    whitespace: the run ends on a letter from A to Z. *)
Definition upper_after_spaces (s : string) : bool :=
  head_is is_upper (drop_while is_space s).

(** [paragraph.split(/(?<=[.!?])\s+(?=[A-Z])/)].  A boundary is a maximal run
    of whitespace that starts right after one of [.!?] and ends right before
    a letter from A to Z.  [after_end] tells whether the previous character is
    one of [.!?], or whether the whitespace run the scan is in began after
    one. *)
Fixpoint split_sentences (after_end : bool) (s : string) : list string :=
  match s with
  | EmptyString => [EmptyString]
  | String c s' =>
      let r := split_sentences (if is_space c then after_end else is_sentence_end c) s' in
      if is_space c && after_end && upper_after_spaces s'
      then (if head_is is_space s' then r else EmptyString :: r)
      else cons_head c r
  end.

Definition DEFAULT_BEATS : list string :=
  [ "Artificial intelligence studies patterns in data to learn how the world works.";
    "By watching thousands of examples, it recognizes relationships and makes predictions.";
    "With every iteration, the system fine-tunes itself, improving just like human learning." ].

Definition parseStoryBeats (story : string) : list string :=
  let lines := filter truthy (map trim (split_runs is_newline story)) in
  match lines with
  | [] => DEFAULT_BEATS
  | _ =>
      flat_map
        (fun paragraph => filter truthy (map trim (split_sentences false paragraph)))
        lines
  end.

(** ** Keyword derivation *)

(** [counts.set(word, (counts.get(word) ?? 0) + 1)] on a [Map], whose entries
    keep their insertion order. *)
Fixpoint bump (word : string) (counts : list (string * nat)) : list (string * nat) :=
  match counts with
  | [] => [(word, 1)]
  | (k, n) :: rest =>
      if eqb k word then (k, S n) :: rest else (k, n) :: bump word rest
  end.

(** The stable sort of the entries by [(a, b) => b[1] - a[1]]: descending
    counts, entries of equal count in their original order. *)
Fixpoint insert_by_count (e : string * nat) (sorted : list (string * nat))
  : list (string * nat) :=
  match sorted with
  | [] => [e]
  | e' :: rest =>
      if snd e <? snd e' then e' :: insert_by_count e rest else e :: sorted
  end.

Definition sort_by_count (entries : list (string * nat)) : list (string * nat) :=
  fold_right insert_by_count [] entries.

Definition is_token_char (c : code_unit) : bool := is_lower c || is_digit c || is_space c.

Definition story_words (story : string) : list string :=
  filter
    (fun word => (2 <? JsString.length word) && negb (mem word STOP_WORDS))
    (split_runs is_space
       (map_chars (fun c => if is_token_char c then c else " "%char)
          (toLowerCase story))).

Definition count_words (words : list string) : list (string * nat) :=
  fold_left (fun counts word => bump word counts) words [].

Definition extractKeywordsFromStory (story : string) : list string :=
  map fst (firstn 8 (sort_by_count (count_words (story_words story)))).

(** [Array.from(new Set(items))]: the distinct items in the order of their
    first occurrence. *)
Definition set_add (s : list string) (x : string) : list string :=
  if mem x s then s else (s ++ [x])%list.

Definition distinct (items : list string) : list string :=
  fold_left set_add items [].

Definition providedKeywords (rawKeywords : string) : list string :=
  map toLowerCase
    (filter truthy (map trim (split_runs is_keyword_separator rawKeywords))).

Definition deriveKeywords (topic story rawKeywords : string) : list string :=
  let fallbackKeywords := extractKeywordsFromStory (topic ++ ". " ++ story) in
  map (replace_ai_word false)
    (distinct (providedKeywords rawKeywords ++ fallbackKeywords)%list).

(** ** Scene planning *)

Definition selectKeywordForScene (voiceover : string) (keywords : list string)
  (index : nat) : string :=
  let lowerVoiceover := toLowerCase voiceover in
  let directMatch :=
    find (fun keyword => includes lowerVoiceover (toLowerCase keyword)) keywords in
  (* [index % 0] is [NaN], and reading an empty array at any index is
     [undefined], as [nth_error [] _] is [None] *)
  let fallback :=
    nullish (nth_error keywords (index mod List.length keywords))
      (nullish (nth_error keywords 0) "insight") in
  match directMatch with
  | Some keyword => if truthy keyword then keyword else fallback
  | None => fallback
  end.

(** The steps of [createOverlay] that follow the first [replace]: the
    characters other than letters, digits and whitespace are removed, and the
    first six words longer than two characters are joined by a space. *)
Definition condense (normalized : string) : string :=
  JsString.concat " "
    (firstn 6
       (filter (fun word => 2 <? JsString.length word)
          (split_runs is_space
             (filter_chars (fun c => is_alnum c || is_space c) normalized)))).

Definition createOverlay (voiceover keyword : string) : string :=
  let condensed := condense (replace_ai_anywhere voiceover) in
  if truthy condensed then capitalize condensed
  else "Key idea: " ++ capitalize keyword.

Definition createVisualDirection (voiceover keyword : string)
  (moodProfile : lookup MoodProfile) (aspectProfile : lookup AspectConcept)
  : result string :=
  let lower := toLowerCase voiceover in
  if includes lower "data" || includes lower "patterns" then
    Ok ("Visualize flowing data points morphing into a neural network mesh; "
        ++ show (field motion moodProfile) ++ " with "
        ++ show (field lighting moodProfile) ++ ".")
  else if includes lower "predict" || includes lower "outcomes" then
    Ok ("Show predictive dashboards coming to life with confident highlights; "
        ++ show (field framing aspectProfile))
  else if includes lower "learn" || includes lower "training" then
    Ok ("Illustrate an AI training loop with layered animations that progressively refine, paired with "
        ++ show (field motion moodProfile) ++ ".")
  else if includes lower "experience" || includes lower "humans" then
    Ok ("Contrast human learning and machine learning through mirrored compositions, gently lit to stay "
        ++ show (field lighting moodProfile) ++ ".")
  else
    match moodProfile with
    | Own m =>
        Ok ("Create calm, abstract imagery around " ++ keyword ++ ", using "
            ++ show (nth_error (colorPalette m) 0) ++ " and "
            ++ show (nth_error (colorPalette m) 1) ++ " accents.")
    | Inherited _ => Throw
    end.

Definition createSupportingAssets (voiceover keyword : string) : list string :=
  let lower := toLowerCase voiceover in
  let graph :=
    if includes lower "data"
    then ["Overlay graph that pulses in sync with narration."] else [] in
  let bars :=
    if includes lower "predict"
    then ["HUD-style animation showing probability bars filling up."] else [] in
  let progress :=
    if includes lower "adjust" || includes lower "improves"
    then ["Progress bar that subtly advances with each beat."] else [] in
  let broll := "B-roll: contextual visuals highlighting " ++ keyword ++ "." in
  (graph ++ bars ++ progress ++ [broll])%list.

(** [text.split(/\s+/).filter(Boolean).length] *)
Definition wordCount (text : string) : nat :=
  List.length (filter truthy (split_runs is_space text)).

Definition clamp (value min max : nat) : nat := Nat.min (Nat.max value min) max.

(** [Math.round(wordCount / 2.7)] is the floor of [wordCount / 2.7 + 1/2]. *)
Definition estimateDurationSeconds (text : string) : nat :=
  let estimated := (20 * wordCount text + 27) / 54 in
  clamp estimated 4 9.

(** [Math.round(averageWordsPerBeat(beats))] *)
Definition roundedAverageWordsPerBeat (beats : list string) : nat :=
  let totalWords := fold_left (fun sum beat => sum + wordCount beat) beats 0 in
  match List.length beats with
  | 0 => 0
  | n => (2 * totalWords + n) / (2 * n)
  end.

Definition formatDuration (seconds : nat) : string := of_nat seconds ++ "s".

(** [index === total - 1] is tested as [index + 1 = total], which also covers
    [total = 0], where [total - 1] is negative. *)
Definition buildSceneLabel (index total : nat) (voiceover : string) : string :=
  if index =? 0 then "Opening Hook"
  else if index + 1 =? total then "Closing Insight"
  else if includes (toLowerCase voiceover) "learns"
          || includes (toLowerCase voiceover) "learning" then "Learning Beat"
  else if includes (toLowerCase voiceover) "predict"
          || includes (toLowerCase voiceover) "recognize" then "Application Beat"
  else "Beat " ++ of_nat (index + 1).

(** ** Document assembly *)

Fixpoint map_indexed {A B : Type} (f : A -> nat -> result B) (index : nat)
  (items : list A) : result (list B) :=
  match items with
  | [] => Ok []
  | a :: rest =>
      b <- f a index ;;
      bs <- map_indexed f (S index) rest ;;
      Ok (b :: bs)
  end.

(** The callback of [storyBeats.map] in [generateVideoScript]. *)
Definition planScene (storyBeats keywords : list string)
  (moodProfile : lookup MoodProfile) (aspectProfile : lookup AspectConcept)
  (voiceover : string) (index : nat) : result ScenePlan :=
  let primaryKeyword := selectKeywordForScene voiceover keywords index in
  let overlay := createOverlay voiceover primaryKeyword in
  visuals <- createVisualDirection voiceover primaryKeyword moodProfile aspectProfile ;;
  let assets := createSupportingAssets voiceover primaryKeyword in
  let duration := formatDuration (estimateDurationSeconds voiceover) in
  Ok {| id := index + 1;
        label := buildSceneLabel index (List.length storyBeats) voiceover;
        voiceover := voiceover;
        duration := duration;
        visuals := visuals;
        overlay := overlay;
        assets := assets |}.

(** The receiver of [languageLabel.toLowerCase()]: an inherited member has no
    such method, and the call is a [TypeError]. *)
Definition string_receiver (l : lookup string) : result string :=
  match l with
  | Own s => Ok s
  | Inherited _ => Throw
  end.

(** The profile read by [moodProfile.audio.toLowerCase()]: on an inherited
    member [audio] is [undefined], and the call is a [TypeError]. *)
Definition audio_receiver (p : lookup MoodProfile) : result MoodProfile :=
  match p with
  | Own m => Ok m
  | Inherited _ => Throw
  end.

Definition quote : string := String 34%N EmptyString.

(** The text between the topic and the voice tone in the title template, as
    the source file holds it, and its bytes in that file. *)
Definition TITLE_SEPARATOR : string := " â€” ".

Definition TITLE_SEPARATOR_BYTES : list N :=
  [32; 195; 162; 226; 130; 172; 226; 128; 157; 32]%N.

(** The record is built after the four reads that can raise, taken in the
    order of the fields they belong to: [languageLabel.toLowerCase()]
    (subtitle), [openingScene.voiceover] (hook), [closingScene.voiceover]
    (callToAction) and [moodProfile.audio.toLowerCase()] (productionNotes).
    No effect separates them, so which one raises first cannot be seen. *)
Definition generateVideoScript (form : ScriptForm) : result Script.VideoScript :=
  let trimmedStory :=
    trim (filter_chars (fun c => negb (is_carriage_return c)) (story form)) in
  let storyBeats := parseStoryBeats trimmedStory in
  let keywords := deriveKeywords (topic form) trimmedStory (Form.keywords form) in
  let moodProfile := nullish (read MOOD_PROFILES (mood form)) DEFAULT_MOOD_PROFILE in
  let aspectProfile :=
    nullish (read ASPECT_GUIDANCE (aspectRatio form)) DEFAULT_ASPECT_GUIDANCE in
  let languageLabel := nullish (read LANGUAGE_LABELS (language form)) (Own "English") in
  scenes <- map_indexed (planScene storyBeats keywords moodProfile aspectProfile)
              0 storyBeats ;;
  languageText <- string_receiver languageLabel ;;
  openingScene <- element scenes 0 ;;
  closingScene <- element scenes (List.length scenes - 1) ;;
  profile <- audio_receiver moodProfile ;;
  Ok {| Script.title :=
          topic form ++ TITLE_SEPARATOR
          ++ show (capitalize_value (field voiceTone moodProfile));
        Script.subtitle :=
          "A " ++ toLowerCase languageText ++ " explainer crafted for a "
          ++ aspectRatio form ++ " frame.";
        Script.hook :=
          hookVerb profile ++ " viewers with: " ++ quote
          ++ voiceover openingScene ++ quote;
        Script.callToAction :=
          "Close by reinforcing " ++ quote ++ voiceover closingScene ++ quote
          ++ " and invite viewers to explore how they can apply AI in everyday workflows.";
        Script.aspectRatio := aspectRatio form;
        Script.mood := mood form;
        Script.language := languageText;
        Script.pacing := pacing profile;
        Script.audioRecommendation := audio profile;
        Script.colorPalette := colorPalette profile;
        Script.keywords := keywords;
        Script.narrationStyle :=
          show (capitalize_value (field voiceTone moodProfile)) ++ " delivered in "
          ++ languageText ++ ", with natural pauses that land every "
          ++ of_nat (roundedAverageWordsPerBeat storyBeats) ++ " words.";
        Script.scenes := scenes;
        Script.productionNotes :=
          [ field safeZone aspectProfile;
            Some ("Underscore narration with " ++ toLowerCase (audio profile)
                  ++ " mixed at -18 LUFS for clarity.");
            Some ("Animate key phrases like "
                  ++ JsString.concat ", " (map capitalize (firstn 3 keywords))
                  ++ " using " ++ motion profile ++ ".") ] |}.

(** ** The query parameters of the page *)

Module URLSearchParams.

(** The list of name and value pairs of the object. *)
Definition t : Type := list (string * string).

Fixpoint first_value (params : t) (name : string) : option string :=
  match params with
  | [] => None
  | (n, v) :: rest => if eqb n name then Some v else first_value rest name
  end.

Fixpoint without (params : t) (name : string) : t :=
  match params with
  | [] => []
  | (n, v) :: rest =>
      if eqb n name then without rest name else (n, v) :: without rest name
  end.

Fixpoint with_value (params : t) (name value : string) : t :=
  match params with
  | [] => [(name, value)]
  | (n, v) :: rest =>
      if eqb n name then (n, value) :: without rest name
      else (n, v) :: with_value rest name value
  end.

(** [params.get(name)]; the argument is a [USVString]. *)
Definition get (params : t) (name : string) : option string :=
  first_value params (to_well_formed name).

(** [params.set(name, value)]: the first pair of that name takes the value
    and the others are removed; without such a pair, one is appended.  Both
    arguments are [USVString]s. *)
Definition set (params : t) (name value : string) : t :=
  with_value params (to_well_formed name) (to_well_formed value).

End URLSearchParams.

Definition LF : string := String 10%N EmptyString.

Definition DEFAULT_FORM : ScriptForm := {|
  topic := "How AI Works";
  story :=
    "Artificial intelligence is a system that learns patterns from data." ++ LF
    ++ "It studies thousands of examples to understand how things relate." ++ LF
    ++ "Once trained, it can recognize images, predict outcomes, or generate text." ++ LF
    ++ "AI improves through repeated learning, adjusting itself each time." ++ LF
    ++ "In simple terms, AI learns from experience, just like humans do.";
  aspectRatio := "16:9";
  mood := "calm";
  Form.keywords :=
    "AI basics, machine learning, neural networks, technology explained, how AI works";
  language := "en"
|}.

Definition loadFormFromParams (params : option URLSearchParams.t) : ScriptForm :=
  let base := DEFAULT_FORM in
  match params with
  | None => base
  | Some params =>
      {| topic := nullish (URLSearchParams.get params "topic") (topic base);
         story := nullish (URLSearchParams.get params "story") (story base);
         aspectRatio :=
           nullish (URLSearchParams.get params "aspect_ratio")
             (nullish (URLSearchParams.get params "aspectRatio") (aspectRatio base));
         mood := nullish (URLSearchParams.get params "mood") (mood base);
         Form.keywords :=
           nullish (URLSearchParams.get params "keywords")
             (nullish (URLSearchParams.get params "related_keywords")
                (Form.keywords base));
         language := nullish (URLSearchParams.get params "language") (language base) |}
  end.

Definition buildSearchParams (form : ScriptForm) : URLSearchParams.t :=
  let params := [] in
  let params := URLSearchParams.set params "topic" (topic form) in
  let params := URLSearchParams.set params "story" (story form) in
  let params := URLSearchParams.set params "aspect_ratio" (aspectRatio form) in
  let params := URLSearchParams.set params "mood" (mood form) in
  let params := URLSearchParams.set params "keywords" (Form.keywords form) in
  let params := URLSearchParams.set params "language" (language form) in
  params.

(** ** Notions used to state the properties *)

(** [w] occurs in [text]. *)
Definition occurs_in (w text : string) : Prop :=
  exists before after, text = before ++ w ++ after.

(** [w] occurs in [text], whatever the case of the letters of [text]. *)
Definition mentions (text w : string) : Prop := occurs_in w (toLowerCase text).

(** The words of a text are its maximal runs of characters other than
    whitespace; [word_starts] counts the places where one begins. *)
Fixpoint word_starts (after_space : bool) (text : string) : nat :=
  match text with
  | EmptyString => 0
  | String c rest =>
      if is_space c then word_starts true rest
      else (if after_space then 1 else 0) + word_starts false rest
  end.

Definition words_in (text : string) : nat := word_starts true text.

(** [r] is the integer nearest to [num / den]. *)
Definition nearest_integer (num den r : nat) : Prop :=
  2 * den * r <= 2 * num + den < 2 * den * (r + 1).

(** [r] is [v] brought into the range from [lo] to [hi]. *)
Definition clamped (lo hi v r : nat) : Prop :=
  (v < lo -> r = lo) /\ (hi < v -> r = hi) /\ (lo <= v <= hi -> r = v).

(** The decimal digit of a number below ten. *)
Definition digit (n : nat) : code_unit := N.of_nat (48 + n).

(** The label rules of a scene, each one applying only when those before it
    do not. *)
Inductive label_rule (i total : nat) (beat : string) : string -> Prop :=
| rule_opening :
    i = 0 -> label_rule i total beat "Opening Hook"
| rule_closing :
    i <> 0 -> i = total - 1 -> label_rule i total beat "Closing Insight"
| rule_learning :
    i <> 0 -> i <> total - 1 ->
    mentions beat "learns" \/ mentions beat "learning" ->
    label_rule i total beat "Learning Beat"
| rule_application :
    i <> 0 -> i <> total - 1 ->
    ~ mentions beat "learns" -> ~ mentions beat "learning" ->
    mentions beat "predict" \/ mentions beat "recognize" ->
    label_rule i total beat "Application Beat"
| rule_numbered :
    i <> 0 -> i <> total - 1 ->
    ~ mentions beat "learns" -> ~ mentions beat "learning" ->
    ~ mentions beat "predict" -> ~ mentions beat "recognize" ->
    label_rule i total beat ("Beat " ++ of_nat (i + 1)).

(** The distinct items of a list, each at the place of its first
    occurrence. *)
Fixpoint keep_first (items : list string) : list string :=
  match items with
  | [] => []
  | x :: rest => x :: filter (fun y => negb (eqb y x)) (keep_first rest)
  end.

(** How often a word occurs in a list of words. *)
Definition frequency (words : list string) (w : string) : nat :=
  count_occ JsString.string_dec words w.

(** The character before a position is not a word character, or there is
    none; likewise after. *)
Definition ends_on_boundary (before : string) : Prop :=
  forall rest c, before = rest ++ String c EmptyString -> is_word c = false.

Definition starts_on_boundary (after : string) : Prop :=
  head_is is_word after = false.

(** Every occurrence of the letters "ai" in [entry], whatever their case and
    wherever they stand, is written "AI". *)
Definition every_ai_uppercase (entry : string) : Prop :=
  forall before c d after,
    entry = before ++ String c (String d after) ->
    is_a c = true -> is_i d = true ->
    c = "A"%char /\ d = "I"%char.

(** Every occurrence of the letters "ai" that stands in [entry] as a word of
    its own, whatever their case, is written "AI". *)
Definition every_ai_word_uppercase (entry : string) : Prop :=
  forall before c d after,
    entry = before ++ String c (String d after) ->
    is_a c = true -> is_i d = true ->
    ends_on_boundary before -> starts_on_boundary after ->
    c = "A"%char /\ d = "I"%char.

(** Every occurrence of the letters "ai" that touches a word character of
    [entry], before or after, is in lower case. *)
Definition every_inner_ai_lowercase (entry : string) : Prop :=
  forall before c d after,
    entry = before ++ String c (String d after) ->
    is_a c = true -> is_i d = true ->
    (exists rest x, before = rest ++ String x EmptyString /\ is_word x = true)
    \/ head_is is_word after = true ->
    c = "a"%char /\ d = "i"%char.

(** A text without any of the letters from A to Z. *)
Definition lowered (s : string) : Prop :=
  all_chars (fun c => negb (is_upper c)) s = true.

(** The distinct words with their frequencies, in the order of their first
    occurrence. *)
Definition count_table (words : list string) : list (string * nat) :=
  map (fun w => (w, frequency words w)) (keep_first words).

(** Descending order of the counts. *)
Definition by_count (a b : string * nat) : Prop := snd b <= snd a.

(** [ranked] holds at most [limit] of the distinct [words], in descending
    order of frequency, and a word is left out only when the list is full of
    words that are at least as frequent. *)
Definition most_frequent (limit : nat) (words ranked : list string) : Prop :=
  List.length ranked <= limit
  /\ NoDup ranked
  /\ (forall w, In w ranked -> In w words)
  /\ StronglySorted (fun u v => frequency words v <= frequency words u) ranked
  /\ (forall w, In w words -> ~ In w ranked ->
        List.length ranked = limit
        /\ forall u, In u ranked -> frequency words w <= frequency words u).

(** [trimmedStory] in [generateVideoScript]. *)
Definition the_trimmed_story (form : ScriptForm) : string :=
  trim (filter_chars (fun c => negb (is_carriage_return c)) (story form)).

Definition the_beats (form : ScriptForm) : list string :=
  parseStoryBeats (the_trimmed_story form).

Definition the_keywords (form : ScriptForm) : list string :=
  deriveKeywords (topic form) (the_trimmed_story form) (Form.keywords form).

Definition the_mood (form : ScriptForm) : lookup MoodProfile :=
  nullish (read MOOD_PROFILES (mood form)) DEFAULT_MOOD_PROFILE.

Definition the_aspect (form : ScriptForm) : lookup AspectConcept :=
  nullish (read ASPECT_GUIDANCE (aspectRatio form)) DEFAULT_ASPECT_GUIDANCE.

Definition the_language (form : ScriptForm) : lookup string :=
  nullish (read LANGUAGE_LABELS (language form)) (Own "English").


(** ** Sample requests *)

Definition UPKEEP_FORM : ScriptForm := {|
  topic := "Upkeep";
  story := "Teams maintain models.";
  aspectRatio := "16:9";
  mood := "calm";
  Form.keywords := "maintain, ai tools";
  language := "en"
|}.

(** The plan of [UPKEEP_FORM], and its only scene. *)
Definition UPKEEP_PLAN : Script.VideoScript :=
  Eval vm_compute in
  match generateVideoScript UPKEEP_FORM as r
        return match r with Ok _ => Script.VideoScript | Throw => unit end with
  | Ok plan => plan
  | Throw => tt
  end.

Definition UPKEEP_SCENE : ScenePlan :=
  Eval vm_compute in
  match Script.scenes UPKEEP_PLAN as l
        return match l with [] => unit | _ :: _ => ScenePlan end with
  | [] => tt
  | scene :: _ => scene
  end.

Definition BLANK_FORM : ScriptForm := {|
  topic := "How AI Works";
  story := "  ";
  aspectRatio := "1:1";
  mood := "energetic";
  Form.keywords := "";
  language := "fr"
|}.

(** The plan of [BLANK_FORM]. *)
Definition BLANK_PLAN : Script.VideoScript :=
  Eval vm_compute in
  match generateVideoScript BLANK_FORM as r
        return match r with Ok _ => Script.VideoScript | Throw => unit end with
  | Ok plan => plan
  | Throw => tt
  end.

(** A request whose mood names a member of [Object.prototype]. *)
Definition CONSTRUCTOR_MOOD_FORM : ScriptForm := {|
  topic := "How AI Works";
  story := "";
  aspectRatio := "16:9";
  mood := "constructor";
  Form.keywords := "";
  language := "en"
|}.

(** The em dash, U+2014. *)
Definition EM_DASH : string := String 0x2014%N "".

(** ** Further notions *)

(** The characters of a text that are not whitespace, in their order. *)
Definition letters (s : string) : string :=
  filter_chars (fun c => negb (is_space c)) s.

(** The pieces of a list of texts, one after the other. *)
Definition joined (pieces : list string) : string := JsString.concat "" pieces.

(** The last character of a text satisfies [p]. *)
Fixpoint last_is (p : code_unit -> bool) (s : string) : bool :=
  match s with
  | EmptyString => false
  | String c EmptyString => p c
  | String _ rest => last_is p rest
  end.

(** A request with another story. *)
Definition with_story (form : ScriptForm) (text : string) : ScriptForm := {|
  topic := topic form;
  story := text;
  aspectRatio := aspectRatio form;
  mood := mood form;
  Form.keywords := Form.keywords form;
  language := language form
|}.

(** ** The state of the page *)

(** [keyof ScriptForm] *)
Inductive FieldKey : Type :=
| topic_key | story_key | aspectRatio_key | mood_key | keywords_key | language_key.

(** [form[key]] *)
Definition readField (form : ScriptForm) (key : FieldKey) : string :=
  match key with
  | topic_key => topic form
  | story_key => story form
  | aspectRatio_key => aspectRatio form
  | mood_key => mood form
  | keywords_key => Form.keywords form
  | language_key => language form
  end.

(** The updater of [handleChange]: [{ ...prev, [key]: value }]. *)
Definition writeField (prev : ScriptForm) (key : FieldKey) (value : string)
  : ScriptForm :=
  let pick k := match key, k with
                | topic_key, topic_key | story_key, story_key
                | aspectRatio_key, aspectRatio_key | mood_key, mood_key
                | keywords_key, keywords_key | language_key, language_key => value
                | _, _ => readField prev k
                end in
  {| topic := pick topic_key;
     story := pick story_key;
     aspectRatio := pick aspectRatio_key;
     mood := pick mood_key;
     Form.keywords := pick keywords_key;
     language := pick language_key |}.

Inductive CopyState : Type := idle | copied.

Module Page.
(** The three [useState] cells of [HomeContent]. *)
Record State : Type := {
  form : ScriptForm;
  script : Script.VideoScript;
  copyState : CopyState
}.
End Page.


Definition handleChange (st : Page.State) (key : FieldKey) (value : string)
  : Page.State :=
  {| Page.form := writeField (Page.form st) key value;
     Page.script := Page.script st;
     Page.copyState := idle |}.

(** [setScript(generateVideoScript(form))]: when the generator raises, the
    handler raises before the cell is set. *)
Definition handleSubmit (st : Page.State) : result Page.State :=
  script <- generateVideoScript (Page.form st) ;;
  Ok {| Page.form := Page.form st;
        Page.script := script;
        Page.copyState := Page.copyState st |}.

Definition setCopyState (st : Page.State) (value : CopyState) : Page.State :=
  {| Page.form := Page.form st;
     Page.script := Page.script st;
     Page.copyState := value |}.

(** What an event does to the cells: an edit of a field, a submit that does
    not raise, a copy of the link that succeeds, and the timer that follows
    it. *)
Inductive step : Page.State -> Page.State -> Prop :=
| step_change st key value :
    step st (handleChange st key value)
| step_submit st st' :
    handleSubmit st = Ok st' -> step st st'
| step_copied st :
    step st (setCopyState st copied)
| step_timer st :
    step st (setCopyState st idle).




(** The lines of a story that hold more than whitespace, trimmed. *)
Definition story_lines (story : string) : list string :=
  filter truthy (map trim (split_runs is_newline story)).

(** A request with another language. *)
Definition with_language (form : ScriptForm) (code : string) : ScriptForm := {|
  topic := topic form;
  story := story form;
  aspectRatio := aspectRatio form;
  mood := mood form;
  Form.keywords := Form.keywords form;
  language := code
|}.

(** The plan of [UPKEEP_FORM] in Japanese. *)
Definition UPKEEP_PLAN_JA : Script.VideoScript :=
  Eval vm_compute in
  match generateVideoScript (with_language UPKEEP_FORM "ja") as r
        return match r with Ok _ => Script.VideoScript | Throw => unit end with
  | Ok plan => plan
  | Throw => tt
  end.

(** The sentences of a line that hold more than whitespace, trimmed. *)
Definition line_sentences (paragraph : string) : list string :=
  filter truthy (map trim (split_sentences false paragraph)).


(** ** Letter case *)

(** [p] holds of every code unit that [toLowerCase] can write in place of a
    character: the letters from a to z, the two small sigmas, the combining
    dot above, and the code units of the targets of the table. *)
Definition written_by_lowering (p : code_unit -> bool) : bool :=
  forallb p (map N.of_nat (seq 97 26))
  && p SMALL_SIGMA && p FINAL_SIGMA && p 0x307%N
  && forallb (fun entry => all_chars p (units_of_point (snd entry))) LOWER_TABLE.

(** A code point that [toLowerCase] leaves as it is. *)
Definition is_lowered_point (p : N) : bool :=
  negb (p =? CAPITAL_SIGMA)%N && negb (p =? CAPITAL_I_WITH_DOT)%N
  && match lower_simple p with Some _ => false | None => true end.

(** The lower case [t] of the code point [p] is left as it is by
    [toLowerCase], is of the same class as [p] in the test of the final
    sigma, and is held in a string as one code unit that is no surrogate, or
    as a pair of surrogates. *)
Definition settles (p t : N) : bool :=
  is_lowered_point t
  && Bool.eqb (is_case_ignorable t) (is_case_ignorable p)
  && Bool.eqb (is_cased t) (is_cased p)
  && match units_of_point t with
     | String u EmptyString =>
         negb (is_high_surrogate u) && negb (is_low_surrogate u) && (u =? t)%N
     | String h (String l EmptyString) =>
         is_high_surrogate h && is_low_surrogate l && (astral h l =? t)%N
     | _ => false
     end.

(** Two code units that are equal, or the same letter a or i of ASCII in
    either case; two strings that are so unit by unit. *)
Definition same_letter (x y : code_unit) : bool :=
  (x =? y)%N || (is_a x && is_a y) || (is_i x && is_i y).

Fixpoint alike (s t : string) : bool :=
  match s, t with
  | EmptyString, EmptyString => true
  | String x s', String y t' => same_letter x y && alike s' t'
  | _, _ => false
  end.

(** ** Words and well-formed strings *)

(** [words] are the maximal runs of characters of [text] that are not
    separators, in their order. *)
Inductive runs (sep : code_unit -> bool) : string -> list string -> Prop :=
| runs_nil : runs sep "" []
| runs_separator c text words :
    sep c = true -> runs sep text words -> runs sep (String c text) words
| runs_word word rest words :
    word <> "" ->
    all_chars (fun c => negb (sep c)) word = true ->
    head_is (fun c => negb (sep c)) rest = false ->
    runs sep rest words ->
    runs sep (word ++ rest) (word :: words).

(** A character other than those of [a-z0-9]. *)
Definition is_no_token (c : code_unit) : bool := negb (is_lower c || is_digit c).

(** A word that is kept as a keyword: longer than two characters and not a
    stop word. *)
Definition is_keyword (word : string) : bool :=
  (2 <? JsString.length word) && negb (mem word STOP_WORDS).

(** A string without a surrogate that is not half of a pair. *)
Definition well_formed (s : string) : Prop := to_well_formed s = s.

Definition well_formed_request (form : ScriptForm) : Prop :=
  well_formed (topic form) /\ well_formed (story form)
  /\ well_formed (aspectRatio form) /\ well_formed (mood form)
  /\ well_formed (Form.keywords form) /\ well_formed (language form).

(** A request whose topic is a high surrogate by itself. *)
Definition LONE_SURROGATE_FORM : ScriptForm := {|
  topic := String 0xD800%N "";
  story := "";
  aspectRatio := "16:9";
  mood := "calm";
  Form.keywords := "";
  language := "en"
|}.

(** What [toUpperCase] can write for a character: one to three code units,
    the first of which is no lower-case letter of ASCII and is its own upper
    case. *)
Definition is_capital_form (u : string) : bool :=
  match u with
  | EmptyString => false
  | String h _ =>
      negb (is_lower h) && eqb (upper_unit h) (String h "")
      && (JsString.length u <=? 3)
  end.

(** The text of which [createOverlay] takes the words: the beat with "ai"
    written "AI", without the characters other than letters, digits and
    whitespace. *)
Definition overlay_text (voiceover : string) : string :=
  filter_chars (fun c => is_alnum c || is_space c) (replace_ai_anywhere voiceover).

(** * Properties *)

(** ** Equality of strings *)

Lemma eqb_refl (s : string) : eqb s s = true.
Proof. induction s as [|c s IH]; simpl; [reflexivity |]. now rewrite N.eqb_refl. Qed.

Lemma eqb_eq (a b : string) : eqb a b = true <-> a = b.
Proof.
  split; [| intros ->; apply eqb_refl].
  revert b. induction a as [|c a IH]; intros [|d b]; simpl; try discriminate;
    [reflexivity |].
  rewrite andb_true_iff, N.eqb_eq. intros [-> H]. now rewrite (IH b H).
Qed.

Lemma eqb_neq (a b : string) : eqb a b = false <-> a <> b.
Proof.
  rewrite <- eqb_eq. destruct (eqb a b); split; intros; congruence.
Qed.

Lemma eqb_spec (a b : string) : reflect (a = b) (eqb a b).
Proof.
  destruct (eqb a b) eqn:E; constructor; [now apply eqb_eq | now apply eqb_neq].
Qed.

Lemma eqb_sym (a b : string) : eqb a b = eqb b a.
Proof.
  destruct (eqb_spec a b) as [-> | Hne]; [now rewrite eqb_refl |].
  symmetry. apply eqb_neq. congruence.
Qed.

(** A fact about the class of a code unit: the comparisons are decided one
    by one, and arithmetic closes each case. *)
Ltac char_cases :=
  repeat match goal with
  | |- context [(?a =? ?b)%N] => destruct (N.eqb_spec a b); try lia
  | |- context [(?a <=? ?b)%N] => destruct (N.leb_spec a b); try lia
  | |- context [(?a <? ?b)%N] => destruct (N.ltb_spec a b); try lia
  | H : context [(?a =? ?b)%N] |- _ => destruct (N.eqb_spec a b); try lia
  | H : context [(?a <=? ?b)%N] |- _ => destruct (N.leb_spec a b); try lia
  | H : context [(?a <? ?b)%N] |- _ => destruct (N.ltb_spec a b); try lia
  end;
  cbn [andb orb negb] in *; try reflexivity; try discriminate; try lia.

Ltac char_classes :=
  unfold is_no_token, is_token_char, is_word, is_alnum, is_space, is_upper,
    is_lower, is_digit, is_a, is_i, is_newline, is_carriage_return,
    is_sentence_end, is_keyword_separator, is_high_surrogate, is_low_surrogate,
    in_range in *.

(** ** Strings *)

Lemma starts_with_spec (t s : string) :
  starts_with t s = true <-> exists rest, s = t ++ rest.
Proof.
  revert s; induction t as [|a t IH]; intros s; simpl.
  - split; [intros _; now exists s | reflexivity].
  - destruct s as [|b s].
    + split; [discriminate | intros [rest H]; discriminate].
    + rewrite andb_true_iff, N.eqb_eq, IH. split.
      * intros [-> [rest ->]]. now exists rest.
      * intros [rest H]. injection H as -> ->. split; [reflexivity | now exists rest].
Qed.

Lemma includes_nil (t : string) : includes "" t = starts_with t "" || false.
Proof. reflexivity. Qed.

Lemma includes_cons (c : code_unit) (s t : string) :
  includes (String c s) t = starts_with t (String c s) || includes s t.
Proof. reflexivity. Qed.

Lemma includes_spec (s t : string) : includes s t = true <-> occurs_in t s.
Proof.
  unfold occurs_in. split.
  - induction s as [|c s IH];
      [rewrite includes_nil | rewrite includes_cons]; rewrite orb_true_iff.
    + intros [H | H]; [| discriminate].
      apply starts_with_spec in H as [rest ->]. now exists "", rest.
    + intros [H | H].
      * apply starts_with_spec in H as [rest ->]. now exists "", rest.
      * destruct (IH H) as (a & b & ->). now exists (String c a), b.
  - intros (a & b & ->). induction a as [|c a IH].
    + change ("" ++ t ++ b) with (t ++ b).
      assert (H : starts_with t (t ++ b) = true)
        by (apply starts_with_spec; now exists b).
      destruct (t ++ b); [rewrite includes_nil | rewrite includes_cons];
        now rewrite H.
    + change (String c a ++ t ++ b) with (String c (a ++ t ++ b)).
      rewrite includes_cons, IH. apply orb_true_r.
Qed.

Lemma includes_false (s t : string) : includes s t = false <-> ~ occurs_in t s.
Proof.
  rewrite <- includes_spec. destruct (includes s t); split; intros; congruence.
Qed.

(** ** Splitting into words *)

Section Words.

Variable sep : code_unit -> bool.

Lemma split_runs_head_sep (s : string) :
  head_is sep s = true -> exists ps, split_runs sep s = "" :: ps.
Proof.
  induction s as [|c s IH]; simpl; [discriminate |].
  intros Hc. rewrite Hc. destruct (head_is sep s).
  - exact (IH eq_refl).
  - now exists (split_runs sep s).
Qed.

Lemma split_runs_not_nil (s : string) : split_runs sep s <> [].
Proof.
  induction s as [|c s IH]; simpl; [discriminate |].
  destruct (sep c).
  - destruct (head_is sep s); [exact IH | discriminate].
  - destruct (split_runs sep s); discriminate.
Qed.

End Words.

Lemma word_starts_split (s : string) (after : bool) :
  word_starts after s =
  List.length (filter truthy (tl (split_runs is_space s)))
  + (if truthy (hd "" (split_runs is_space s)) && after then 1 else 0).
Proof.
  revert after. induction s as [|c s IH]; intros after; [reflexivity |].
  simpl. destruct (is_space c) eqn:Hc.
  - rewrite (IH true). destruct (head_is is_space s) eqn:Hs.
    + destruct (split_runs_head_sep is_space s Hs) as [ps ->]. simpl. lia.
    + simpl. destruct (split_runs is_space s) as [|p ps]; simpl; [reflexivity |].
      destruct (truthy p); simpl; lia.
  - rewrite (IH false), andb_false_r.
    pose proof (split_runs_not_nil is_space s) as Hne.
    destruct (split_runs is_space s) as [|p ps]; [congruence |].
    simpl. destruct after; lia.
Qed.

(** The program's word count is the number of words of the text. *)
Lemma wordCount_words_in (text : string) : wordCount text = words_in text.
Proof.
  unfold wordCount, words_in. rewrite word_starts_split, andb_true_r.
  pose proof (split_runs_not_nil is_space text) as Hne.
  destruct (split_runs is_space text) as [|p ps]; [congruence |].
  simpl. destruct (truthy p); simpl; lia.
Qed.

(** ** Durations *)

Lemma estimate_nearest (w : nat) :
  nearest_integer (10 * w) 27 ((20 * w + 27) / 54).
Proof.
  unfold nearest_integer.
  pose proof (Nat.div_mod_eq (20 * w + 27) 54) as E.
  pose proof (Nat.mod_upper_bound (20 * w + 27) 54) as B.
  lia.
Qed.

Lemma clamp_clamped (lo hi v : nat) : lo <= hi -> clamped lo hi v (clamp v lo hi).
Proof. unfold clamped, clamp. lia. Qed.

Lemma clamp_bounds (lo hi v : nat) : lo <= hi -> lo <= clamp v lo hi <= hi.
Proof. unfold clamp. lia. Qed.

Lemma formatDuration_digit (n : nat) :
  n <= 9 -> formatDuration n = String (digit n) "s".
Proof.
  intros H. do 10 (destruct n as [|n]; [reflexivity |]). lia.
Qed.

Lemma estimateDurationSeconds_spec (text : string) :
  exists estimate,
    nearest_integer (10 * words_in text) 27 estimate
    /\ clamped 4 9 estimate (estimateDurationSeconds text)
    /\ 4 <= estimateDurationSeconds text <= 9.
Proof.
  unfold estimateDurationSeconds. rewrite wordCount_words_in.
  exists ((20 * words_in text + 27) / 54). split; [apply estimate_nearest |].
  split; [apply clamp_clamped | apply clamp_bounds]; lia.
Qed.

(** ** Labels *)

Lemma buildSceneLabel_rule (i total : nat) (beat : string) :
  label_rule i total beat (buildSceneLabel i total beat).
Proof.
  unfold buildSceneLabel.
  destruct (Nat.eqb_spec i 0) as [Hi | Hi]; [now constructor |].
  destruct (Nat.eqb_spec (i + 1) total) as [Ht | Ht];
    [apply rule_closing; lia |].
  assert (Hlast : i <> total - 1) by lia.
  destruct (includes (toLowerCase beat) "learns") eqn:L1.
  { apply rule_learning; auto. left. now apply includes_spec. }
  destruct (includes (toLowerCase beat) "learning") eqn:L2.
  { apply rule_learning; auto. right. now apply includes_spec. }
  apply includes_false in L1, L2. simpl orb.
  destruct (includes (toLowerCase beat) "predict") eqn:P1.
  { apply rule_application; auto. left. now apply includes_spec. }
  destruct (includes (toLowerCase beat) "recognize") eqn:P2.
  { apply rule_application; auto. right. now apply includes_spec. }
  apply includes_false in P1, P2. now apply rule_numbered.
Qed.

(** ** The scenes of a plan *)

Lemma map_indexed_nth {A B : Type} (f : A -> nat -> result B) (items : list A) :
  forall start out,
    map_indexed f start items = Ok out ->
    List.length out = List.length items
    /\ forall k b, nth_error out k = Some b ->
         exists a, nth_error items k = Some a /\ f a (start + k) = Ok b.
Proof.
  induction items as [|a items IH]; intros start out; simpl.
  - intros [= <-]. split; [reflexivity |]. intros [|k] b; discriminate.
  - destruct (f a start) as [b0 |] eqn:Hf; simpl; [| discriminate].
    destruct (map_indexed f (S start) items) as [bs |] eqn:Hbs; simpl; [| discriminate].
    intros [= <-]. destruct (IH _ _ Hbs) as [Hlen Hnth]. split.
    + simpl. now rewrite Hlen.
    + intros [|k] b; simpl.
      * intros [= <-]. exists a. now rewrite Nat.add_0_r.
      * intros Hk. destruct (Hnth _ _ Hk) as (a' & Ha' & Hfa').
        exists a'. split; [assumption |].
        now replace (start + S k) with (S start + k) by lia.
Qed.

Lemma map_indexed_total {A B : Type} (f : A -> nat -> result B) (items : list A) :
  (forall a i, In a items -> exists b, f a i = Ok b) ->
  forall start, exists out, map_indexed f start items = Ok out.
Proof.
  induction items as [|a items IH]; intros Hf start; simpl.
  - now exists [].
  - destruct (Hf a start (or_introl eq_refl)) as [b ->]. simpl.
    destruct (IH (fun a' i H => Hf a' i (or_intror H)) (S start)) as [bs ->].
    simpl. now exists (b :: bs).
Qed.

Lemma planScene_inv beats kws mp ap (v : string) (i : nat) (scene : ScenePlan) :
  planScene beats kws mp ap v i = Ok scene ->
  id scene = i + 1
  /\ label scene = buildSceneLabel i (List.length beats) v
  /\ voiceover scene = v
  /\ duration scene = formatDuration (estimateDurationSeconds v)
  /\ overlay scene = createOverlay v (selectKeywordForScene v kws i)
  /\ assets scene = createSupportingAssets v (selectKeywordForScene v kws i).
Proof.
  unfold planScene.
  destruct (createVisualDirection v (selectKeywordForScene v kws i) mp ap);
    simpl; [| discriminate].
  intros [= <-]. simpl. repeat split.
Qed.

(** ** What a returned plan is made of *)

Lemma generateVideoScript_inv (form : ScriptForm) (plan : Script.VideoScript) :
  generateVideoScript form = Ok plan ->
  exists profile languageText,
    the_mood form = Own profile
    /\ the_language form = Own languageText
    /\ map_indexed
         (planScene (the_beats form) (the_keywords form) (the_mood form) (the_aspect form))
         0 (the_beats form) = Ok (Script.scenes plan)
    /\ Script.keywords plan = the_keywords form
    /\ Script.title plan
       = topic form ++ TITLE_SEPARATOR ++ capitalize (voiceTone profile)
    /\ Script.language plan = languageText
    /\ Script.pacing plan = pacing profile
    /\ Script.audioRecommendation plan = audio profile
    /\ Script.colorPalette plan = colorPalette profile.
Proof.
  unfold generateVideoScript.
  change (trim (filter_chars (fun c => negb (is_carriage_return c)) (story form)))
    with (the_trimmed_story form).
  change (parseStoryBeats (the_trimmed_story form)) with (the_beats form).
  change (deriveKeywords (topic form) (the_trimmed_story form) (Form.keywords form))
    with (the_keywords form).
  change (nullish (read MOOD_PROFILES (mood form)) DEFAULT_MOOD_PROFILE)
    with (the_mood form).
  change (nullish (read ASPECT_GUIDANCE (aspectRatio form)) DEFAULT_ASPECT_GUIDANCE)
    with (the_aspect form).
  change (nullish (read LANGUAGE_LABELS (language form)) (Own "English"))
    with (the_language form).
  cbv zeta.
  destruct (map_indexed _ 0 (the_beats form)) as [scenes |]; simpl; [| discriminate].
  destruct (the_language form) as [languageText | inherited]; simpl; [| discriminate].
  destruct (element scenes 0) as [opening |]; simpl; [| discriminate].
  destruct (element scenes (List.length scenes - 1)) as [closing |]; simpl;
    [| discriminate].
  destruct (the_mood form) as [profile | inherited]; simpl; [| discriminate].
  intros [= <-]. exists profile, languageText. simpl. repeat split; reflexivity.
Qed.

Lemma plan_scene_at (form : ScriptForm) (plan : Script.VideoScript) :
  generateVideoScript form = Ok plan ->
  List.length (Script.scenes plan) = List.length (the_beats form)
  /\ forall k scene, nth_error (Script.scenes plan) k = Some scene ->
       exists beat,
         nth_error (the_beats form) k = Some beat
         /\ planScene (the_beats form) (the_keywords form) (the_mood form)
              (the_aspect form) beat k = Ok scene.
Proof.
  intros H. destruct (generateVideoScript_inv _ _ H) as (p & l & _ & _ & Hs & _).
  destruct (map_indexed_nth _ _ _ _ Hs) as [Hlen Hnth]. split; [exact Hlen |].
  intros k scene Hk. destruct (Hnth _ _ Hk) as (beat & Hb & Hp). now exists beat.
Qed.

(** The voiceovers of the scenes are the beats, in order. *)
Lemma plan_voiceovers (form : ScriptForm) (plan : Script.VideoScript) :
  generateVideoScript form = Ok plan ->
  map voiceover (Script.scenes plan) = the_beats form.
Proof.
  intros H. destruct (plan_scene_at _ _ H) as [Hlen Hnth].
  apply nth_error_ext. intros k. rewrite nth_error_map.
  destruct (nth_error (Script.scenes plan) k) as [scene |] eqn:Hk; simpl.
  - destruct (Hnth _ _ Hk) as (beat & Hb & Hp).
    apply planScene_inv in Hp as (_ & _ & -> & _). now rewrite Hb.
  - symmetry. apply nth_error_None. rewrite <- Hlen. now apply nth_error_None.
Qed.

(** C2. For every request and every scene of its plan, the duration is the
    word count of the scene's voiceover divided by 2.7, rounded to the
    nearest integer, brought into the range from 4 to 9, and written as that
    integer followed by "s". *)
Theorem scene_duration_is_clamped_estimate (form : ScriptForm)
  (plan : Script.VideoScript) (scene : ScenePlan) :
  generateVideoScript form = Ok plan ->
  In scene (Script.scenes plan) ->
  exists estimate seconds,
    nearest_integer (10 * words_in (voiceover scene)) 27 estimate
    /\ clamped 4 9 estimate seconds
    /\ 4 <= seconds <= 9
    /\ duration scene = String (digit seconds) "s".
Proof.
  intros Hplan Hin. apply In_nth_error in Hin as [k Hk].
  destruct (plan_scene_at _ _ Hplan) as [_ Hnth].
  destruct (Hnth _ _ Hk) as (beat & _ & Hscene).
  apply planScene_inv in Hscene as (_ & _ & Hv & Hd & _).
  destruct (estimateDurationSeconds_spec beat) as (estimate & Hnear & Hclamp & Hb).
  exists estimate, (estimateDurationSeconds beat). rewrite Hv, Hd.
  split; [exact Hnear |]. split; [exact Hclamp |]. split; [exact Hb |].
  apply formatDuration_digit. lia.
Qed.

(** C3. For every request, the label of the scene at index [i] of the [N]
    scenes follows the first rule that applies: the first scene, the last
    scene, a beat mentioning "learns" or "learning", a beat mentioning
    "predict" or "recognize", and the numbered label otherwise; a plan with a
    single scene labels it "Opening Hook". *)
Theorem scene_label_follows_first_rule (form : ScriptForm)
  (plan : Script.VideoScript) (i : nat) (scene : ScenePlan) :
  generateVideoScript form = Ok plan ->
  nth_error (Script.scenes plan) i = Some scene ->
  label_rule i (List.length (Script.scenes plan)) (voiceover scene) (label scene)
  /\ (List.length (Script.scenes plan) = 1 -> label scene = "Opening Hook").
Proof.
  intros Hplan Hi. destruct (plan_scene_at _ _ Hplan) as [Hlen Hnth].
  destruct (Hnth _ _ Hi) as (beat & _ & Hscene).
  apply planScene_inv in Hscene as (_ & Hl & Hv & _).
  rewrite Hl, Hv, Hlen. split; [apply buildSceneLabel_rule |].
  intros Hone. assert (i = 0) as ->.
  { assert (i < List.length (Script.scenes plan))
      by (apply nth_error_Some; congruence).
    lia. }
  reflexivity.
Qed.

(** ** Trimming and the beats of a story *)

Lemma drop_while_head (p : code_unit -> bool) (s : string) :
  head_is p (drop_while p s) = false.
Proof.
  induction s as [|c s IH]; simpl; [reflexivity |].
  destruct (p c) eqn:Hc; [exact IH | simpl; exact Hc].
Qed.

Lemma drop_while_all (p : code_unit -> bool) (s : string) :
  all_chars p s = true -> drop_while p s = "".
Proof.
  induction s as [|c s IH]; simpl; [reflexivity |].
  destruct (p c); simpl; [exact IH | discriminate].
Qed.

Lemma all_chars_filter (p q : code_unit -> bool) (s : string) :
  all_chars p s = true -> all_chars p (filter_chars q s) = true.
Proof.
  induction s as [|c s IH]; simpl; [reflexivity |].
  rewrite andb_true_iff. intros [Hc Hs]. destruct (q c); simpl; auto.
  now rewrite Hc, IH.
Qed.

Lemma trimEnd_keeps_head (c : code_unit) (s : string) :
  is_space c = false -> exists t, trimEnd (String c s) = String c t.
Proof.
  intros Hc. simpl. rewrite Hc. destruct (trimEnd s) as [|d t].
  - now exists "".
  - now exists (String d t).
Qed.

Lemma trim_blank (s : string) : all_chars is_space s = true -> trim s = "".
Proof. intros H. unfold trim, trimStart. now rewrite drop_while_all. Qed.

Lemma trim_head (s : string) (c : code_unit) (t : string) :
  trim s = String c t -> is_space c = false.
Proof.
  unfold trim, trimStart. pose proof (drop_while_head is_space s) as Hh.
  destruct (drop_while is_space s) as [|d u]; simpl in *; [discriminate |].
  rewrite Hh. destruct (trimEnd u); intros [= <- _]; exact Hh.
Qed.

Lemma trim_keeps_head (c : code_unit) (s : string) :
  is_space c = false -> exists t, trim (String c s) = String c t.
Proof.
  intros Hc. unfold trim, trimStart. simpl drop_while. rewrite Hc.
  now apply trimEnd_keeps_head.
Qed.

Lemma split_sentences_head (c : code_unit) (s : string) (after_end : bool) :
  is_space c = false ->
  exists p ps, split_sentences after_end (String c s) = String c p :: ps.
Proof.
  intros Hc. simpl. rewrite Hc. simpl.
  destruct (split_sentences (is_sentence_end c) s) as [|p ps].
  - now exists "", [].
  - now exists p, ps.
Qed.

Lemma sentences_of_paragraph_not_nil (paragraph : string) :
  truthy paragraph = true ->
  head_is is_space paragraph = false ->
  filter truthy (map trim (split_sentences false paragraph)) <> [].
Proof.
  destruct paragraph as [|c s]; simpl; [discriminate |]. intros _ Hc.
  destruct (split_sentences_head c s false Hc) as (p & ps & E).
  simpl in E. rewrite E. simpl map.
  destruct (trim_keeps_head c p Hc) as [t ->]. simpl. discriminate.
Qed.

Lemma parseStoryBeats_not_nil (story : string) : parseStoryBeats story <> [].
Proof.
  unfold parseStoryBeats.
  destruct (filter truthy (map trim (split_runs is_newline story)))
    as [|line lines] eqn:E; [discriminate |].
  assert (Hin : In line (filter truthy (map trim (split_runs is_newline story))))
    by (rewrite E; now left).
  apply filter_In in Hin as [Hin Htruthy].
  apply in_map_iff in Hin as (raw & Hraw & _).
  simpl flat_map. intros Hnil. apply app_eq_nil in Hnil as [Hnil _].
  revert Hnil. apply sentences_of_paragraph_not_nil; [exact Htruthy |].
  destruct line as [|c t]; [reflexivity |]. simpl.
  now apply (trim_head raw c t).
Qed.

Lemma blank_story_beats (form : ScriptForm) :
  all_chars is_space (story form) = true -> the_beats form = DEFAULT_BEATS.
Proof.
  intros H. unfold the_beats, the_trimmed_story.
  rewrite trim_blank; [reflexivity | now apply all_chars_filter].
Qed.

(** C4. A request whose story is empty or holds only whitespace gets exactly
    three scenes, whose voiceovers are the sentences of the default
    narrative; and the beats of a request are never an empty list. *)
Theorem blank_story_yields_default_narrative (form : ScriptForm)
  (plan : Script.VideoScript) :
  all_chars is_space (story form) = true ->
  generateVideoScript form = Ok plan ->
  List.length (Script.scenes plan) = 3
  /\ map voiceover (Script.scenes plan) = DEFAULT_BEATS
  /\ (forall request : ScriptForm,
        parseStoryBeats (the_trimmed_story request) <> []).
Proof.
  intros Hblank Hplan.
  pose proof (plan_voiceovers _ _ Hplan) as Hv.
  rewrite (blank_story_beats _ Hblank) in Hv.
  split; [| split].
  - rewrite <- (length_map voiceover), Hv. reflexivity.
  - exact Hv.
  - intros request. apply parseStoryBeats_not_nil.
Qed.

(** ** Distinct items *)

Lemma mem_In (x : string) (l : list string) : mem x l = true <-> In x l.
Proof.
  unfold mem. rewrite existsb_exists. split.
  - intros (y & Hy & E). apply eqb_eq in E. now subst.
  - intros H. exists x. split; [assumption | apply eqb_refl].
Qed.

Lemma mem_app (x : string) (a b : list string) :
  mem x (a ++ b)%list = mem x a || mem x b.
Proof. apply existsb_app. Qed.

Lemma filter_filter {A : Type} (p q : A -> bool) (l : list A) :
  filter p (filter q l) = filter (fun y => q y && p y) l.
Proof.
  induction l as [|x l IH]; simpl; [reflexivity |].
  destruct (q x); simpl; [destruct (p x) |]; now rewrite IH.
Qed.

Lemma keep_first_In (x : string) (l : list string) :
  In x (keep_first l) <-> In x l.
Proof.
  induction l as [|y l IH]; simpl; [tauto |].
  rewrite filter_In, IH, negb_true_iff, eqb_neq.
  destruct (string_dec y x) as [-> | Hne]; [tauto |].
  split; [tauto |]. intros [H | H]; [tauto |]. right. split; congruence.
Qed.

Lemma keep_first_NoDup (l : list string) : NoDup (keep_first l).
Proof.
  induction l as [|y l IH]; simpl; constructor.
  - rewrite filter_In, eqb_refl. intros [_ H]. discriminate.
  - now apply NoDup_filter.
Qed.

Lemma fold_set_add (items acc : list string) :
  fold_left set_add items acc
  = (acc ++ filter (fun y => negb (mem y acc)) (keep_first items))%list.
Proof.
  revert acc. induction items as [|x items IH]; intros acc; simpl.
  - now rewrite app_nil_r.
  - rewrite IH. unfold set_add. destruct (mem x acc) eqn:Hx.
    + f_equal. rewrite filter_filter. apply filter_ext. intros y.
      destruct (eqb_spec y x) as [-> | Hne]; simpl; [now rewrite Hx | reflexivity].
    + rewrite <- app_assoc. simpl. f_equal. f_equal.
      rewrite filter_filter. apply filter_ext. intros y.
      rewrite mem_app. simpl. rewrite orb_false_r, negb_orb. apply andb_comm.
Qed.

(** The items of a [Set] built from an array are the distinct items of the
    array, each at the place of its first occurrence. *)
Lemma distinct_keep_first (items : list string) : distinct items = keep_first items.
Proof.
  unfold distinct. rewrite fold_set_add. simpl.
  induction (keep_first items) as [|x l IH]; simpl; congruence.
Qed.

Lemma keep_first_length (l : list string) : List.length (keep_first l) <= List.length l.
Proof.
  induction l as [|x l IH]; simpl; [lia |].
  pose proof (filter_length_le (fun y => negb (eqb y x)) (keep_first l)). lia.
Qed.

Lemma keep_first_snoc (l : list string) (w : string) :
  keep_first (l ++ [w])%list
  = (keep_first l ++ (if mem w l then [] else [w]))%list.
Proof.
  induction l as [|x l IH]; simpl; [reflexivity |].
  rewrite IH, filter_app. f_equal. f_equal.
  destruct (mem w l); simpl; [now rewrite orb_true_r |].
  rewrite orb_false_r. now destruct (eqb w x).
Qed.

(** ** Counting and ranking words *)

Lemma frequency_snoc (l : list string) (w u : string) :
  frequency (l ++ [w])%list u = frequency l u + (if string_dec w u then 1 else 0).
Proof.
  unfold frequency. rewrite count_occ_app. simpl. now destruct (string_dec w u).
Qed.

Lemma bump_map (f g : string -> nat) (keys : list string) (w : string) :
  NoDup keys ->
  (forall u, u <> w -> g u = f u) ->
  g w = S (f w) ->
  (~ In w keys -> f w = 0) ->
  bump w (map (fun u => (u, f u)) keys)
  = map (fun u => (u, g u)) (keys ++ (if mem w keys then [] else [w]))%list.
Proof.
  intros Hnd Hother Hw Hzero. induction keys as [|k keys IH]; simpl.
  - rewrite Hw, Hzero; [reflexivity | tauto].
  - inversion Hnd as [|? ? Hk Hnd']; subst.
    rewrite (eqb_sym w k). destruct (eqb_spec k w) as [-> | Hne]; simpl.
    + rewrite Hw, app_nil_r. f_equal. apply map_ext_in. intros u Hu.
      rewrite Hother; [reflexivity |]. intros ->. contradiction.
    + rewrite Hother by assumption. f_equal. apply IH; [assumption |].
      intros Hnot. apply Hzero. simpl. tauto.
Qed.

Lemma bump_count_table (l : list string) (w : string) :
  bump w (count_table l) = count_table (l ++ [w])%list.
Proof.
  unfold count_table. rewrite keep_first_snoc.
  replace (mem w l) with (mem w (keep_first l)).
  - apply bump_map.
    + apply keep_first_NoDup.
    + intros u Hu. rewrite frequency_snoc.
      destruct (string_dec w u); [congruence | lia].
    + rewrite frequency_snoc. destruct (string_dec w w); [lia | congruence].
    + intros Hnot. apply count_occ_not_In. now rewrite <- keep_first_In.
  - destruct (mem w l) eqn:E.
    + apply (proj2 (mem_In _ _)), (proj2 (keep_first_In _ _)),
        (proj1 (mem_In _ _)), E.
    + destruct (mem w (keep_first l)) eqn:E'; [| reflexivity].
      apply (proj1 (mem_In _ _)), (proj1 (keep_first_In _ _)),
        (proj2 (mem_In _ _)) in E'.
      congruence.
Qed.

Lemma fold_bump (words seen : list string) :
  fold_left (fun counts word => bump word counts) words (count_table seen)
  = count_table (seen ++ words)%list.
Proof.
  revert seen. induction words as [|w words IH]; intros seen; simpl.
  - now rewrite app_nil_r.
  - rewrite bump_count_table, IH, <- app_assoc. reflexivity.
Qed.

(** The [Map] filled by [forEach] holds every distinct word once, with the
    number of its occurrences, in the order of first occurrence. *)
Lemma count_words_table (words : list string) : count_words words = count_table words.
Proof. exact (fold_bump words []). Qed.

Lemma insert_by_count_perm (e : string * nat) (l : list (string * nat)) :
  Permutation (insert_by_count e l) (e :: l).
Proof.
  induction l as [|e' l IH]; simpl; [reflexivity |].
  destruct (snd e <? snd e'); [| reflexivity].
  rewrite IH. apply perm_swap.
Qed.

Lemma sort_by_count_perm (l : list (string * nat)) : Permutation (sort_by_count l) l.
Proof.
  induction l as [|e l IH]; simpl; [reflexivity |].
  rewrite insert_by_count_perm. now constructor.
Qed.

Lemma insert_by_count_sorted (e : string * nat) (l : list (string * nat)) :
  StronglySorted by_count l -> StronglySorted by_count (insert_by_count e l).
Proof.
  induction 1 as [|e' l Hs IH Hall]; simpl.
  - repeat constructor.
  - destruct (Nat.ltb_spec (snd e) (snd e')) as [Hlt | Hge].
    + constructor; [exact IH |].
      apply (Permutation_Forall (Permutation_sym (insert_by_count_perm e l))).
      constructor; [unfold by_count; lia | exact Hall].
    + constructor; [now constructor |]. constructor; [exact Hge |].
      revert Hall. apply Forall_impl. unfold by_count. lia.
Qed.

Lemma sort_by_count_sorted (l : list (string * nat)) :
  StronglySorted by_count (sort_by_count l).
Proof.
  induction l as [|e l IH]; simpl; [constructor | now apply insert_by_count_sorted].
Qed.

Lemma StronglySorted_app {A : Type} (R : A -> A -> Prop) (a b : list A) :
  StronglySorted R (a ++ b)%list ->
  StronglySorted R a /\ forall x y, In x a -> In y b -> R x y.
Proof.
  induction a as [|h a IH]; simpl; intros H.
  - split; [constructor | intros ? ? []].
  - apply StronglySorted_inv in H as [Hs Hall]. destruct (IH Hs) as [Ha Hab].
    rewrite Forall_app in Hall. destruct Hall as [Hha Hhb]. split.
    + now constructor.
    + intros x y [<- | Hx] Hy; [| now apply Hab].
      rewrite Forall_forall in Hhb. now apply Hhb.
Qed.

Lemma StronglySorted_map {A B : Type} (R : B -> B -> Prop) (f : A -> B) (l : list A) :
  StronglySorted (fun x y => R (f x) (f y)) l -> StronglySorted R (map f l).
Proof.
  induction 1 as [|x l Hs IH Hall]; simpl; constructor; [exact IH |].
  rewrite Forall_map. exact Hall.
Qed.

Lemma StronglySorted_impl_in {A : Type} (R R' : A -> A -> Prop) (l : list A) :
  (forall x y, In x l -> In y l -> R x y -> R' x y) ->
  StronglySorted R l -> StronglySorted R' l.
Proof.
  intros Himp Hs. induction Hs as [|x l Hs IH Hall]; constructor.
  - apply IH. intros a b Ha Hb. apply Himp; now right.
  - rewrite Forall_forall in *. intros y Hy.
    apply Himp; [now left | now right | now apply Hall].
Qed.

Lemma count_table_keys (words : list string) :
  map fst (count_table words) = keep_first words.
Proof.
  unfold count_table. rewrite map_map. simpl. apply map_id.
Qed.

Lemma count_table_entry (words : list string) (e : string * nat) :
  In e (count_table words) -> In (fst e) words /\ snd e = frequency words (fst e).
Proof.
  unfold count_table. rewrite in_map_iff. intros (w & <- & Hw). simpl.
  split; [now apply keep_first_In | reflexivity].
Qed.

Lemma ranked_most_frequent (limit : nat) (words : list string) :
  most_frequent limit words
    (map fst (firstn limit (sort_by_count (count_table words)))).
Proof.
  set (T := sort_by_count (count_table words)).
  assert (HP : Permutation T (count_table words)) by apply sort_by_count_perm.
  assert (HS : StronglySorted by_count T) by apply sort_by_count_sorted.
  assert (HE : forall e, In e T ->
             In (fst e) words /\ snd e = frequency words (fst e)).
  { intros e He. apply count_table_entry. now apply (Permutation_in _ HP). }
  assert (Hsplit : (firstn limit T ++ skipn limit T)%list = T)
    by apply firstn_skipn.
  assert (Hfirst : forall e, In e (firstn limit T) -> In e T).
  { intros e He. rewrite <- Hsplit. apply in_or_app. now left. }
  rewrite <- Hsplit in HS. apply StronglySorted_app in HS as [HSf HSfs].
  assert (Hleft_out : forall w, In w words ->
            ~ In w (map fst (firstn limit T)) ->
            In (w, frequency words w) (skipn limit T)).
  { intros w Hw Hnot.
    assert (Hin : In (w, frequency words w) T).
    { apply (Permutation_in _ (Permutation_sym HP)). unfold count_table.
      apply in_map_iff. exists w. split; [reflexivity | now apply keep_first_In]. }
    rewrite <- Hsplit in Hin. apply in_app_or in Hin as [Hin | Hin]; [| exact Hin].
    exfalso. apply Hnot. apply in_map_iff. now exists (w, frequency words w). }
  unfold most_frequent. split; [| split; [| split; [| split]]].
  - rewrite length_map. apply firstn_le_length.
  - assert (Hnd : NoDup (map fst T)).
    { apply (Permutation_NoDup (l := keep_first words)).
      - rewrite <- count_table_keys. apply Permutation_map. now symmetry.
      - apply keep_first_NoDup. }
    rewrite <- Hsplit, map_app in Hnd. now apply NoDup_app_remove_r in Hnd.
  - intros w Hw. apply in_map_iff in Hw as (e & <- & He).
    now apply HE, Hfirst.
  - apply StronglySorted_map. revert HSf. apply StronglySorted_impl_in.
    intros x y Hx Hy. unfold by_count.
    destruct (HE x (Hfirst x Hx)) as [_ <-]. destruct (HE y (Hfirst y Hy)) as [_ <-].
    trivial.
  - intros w Hw Hnot. specialize (Hleft_out w Hw Hnot). split.
    + rewrite length_map, length_firstn.
      destruct (Nat.le_gt_cases (List.length T) limit) as [Hle | Hgt]; [| lia].
      rewrite skipn_all2 in Hleft_out by assumption. destruct Hleft_out.
    + intros u Hu. apply in_map_iff in Hu as (e & <- & He).
      specialize (HSfs _ _ He Hleft_out). unfold by_count in HSfs. simpl in HSfs.
      destruct (HE e (Hfirst e He)) as [_ <-]. exact HSfs.
Qed.

(** The keywords taken from the story are its eight most frequent words. *)
Lemma extractKeywords_most_frequent (text : string) :
  most_frequent 8 (story_words text) (extractKeywordsFromStory text).
Proof.
  unfold extractKeywordsFromStory. rewrite count_words_table.
  apply ranked_most_frequent.
Qed.

(** ** Letter case *)

Lemma string_pair_ind (P : string -> Prop) :
  P "" ->
  (forall c, P (String c "")) ->
  (forall c d s, P s -> P (String d s) -> P (String c (String d s))) ->
  forall s, P s.
Proof.
  intros H0 H1 H2 s.
  assert (H : P s /\ forall c, P (String c s)); [| exact (proj1 H)].
  induction s as [|d s [IHs IHc]]; split; auto.
Qed.

Lemma append_empty (s : string) : s ++ "" = s.
Proof. induction s as [|c s IH]; simpl; [reflexivity | now rewrite IH]. Qed.

Lemma append_assoc (a b c : string) : (a ++ b) ++ c = a ++ b ++ c.
Proof. induction a as [|x a IH]; simpl; [reflexivity | now rewrite IH]. Qed.

Lemma all_chars_app (p : code_unit -> bool) (a b : string) :
  all_chars p (a ++ b) = all_chars p a && all_chars p b.
Proof.
  induction a as [|x a IH]; simpl; [reflexivity |]. now rewrite IH, andb_assoc.
Qed.

Lemma head_is_app (p : code_unit -> bool) (a b : string) :
  a <> "" -> head_is p (a ++ b) = head_is p a.
Proof. destruct a; [congruence | reflexivity]. Qed.

Lemma last_is_app (p : code_unit -> bool) (a b : string) :
  b <> "" -> last_is p (a ++ b) = last_is p b.
Proof.
  intros Hb. induction a as [|x a IH]; [reflexivity |].
  cbn [append]. destruct (a ++ b) eqn:E; [| exact IH].
  destruct a; [simpl in E; congruence | discriminate E].
Qed.

Lemma all_chars_head (p : code_unit -> bool) (s : string) :
  all_chars (fun c => negb (p c)) s = true -> head_is p s = false.
Proof.
  destruct s as [|c s]; [reflexivity |]. simpl.
  rewrite andb_true_iff, negb_true_iff. tauto.
Qed.

Lemma all_chars_last (p : code_unit -> bool) (s : string) :
  all_chars (fun c => negb (p c)) s = true -> last_is p s = false.
Proof.
  induction s as [|c s IH]; [reflexivity |]. simpl all_chars.
  rewrite andb_true_iff, negb_true_iff. intros [Hc Hs].
  destruct s; [exact Hc | now apply IH].
Qed.

(** *** The tables *)

Lemma assoc_In {A : Type} (p : N) (table : list (N * A)) (v : A) :
  assoc p table = Some v -> In (p, v) table.
Proof.
  induction table as [|[k w] table IH]; simpl; [discriminate |].
  destruct (N.eqb_spec p k) as [-> | _]; [intros [= ->]; now left | auto].
Qed.

Lemma small_letter_listed (c : code_unit) :
  is_lower c = true -> In c (map N.of_nat (seq 97 26)).
Proof.
  intros H. apply in_map_iff. exists (N.to_nat c).
  split; [apply N2Nat.id |]. apply in_seq. char_classes. char_cases.
Qed.

Lemma units_of_point_not_nil (p : N) : units_of_point p <> "".
Proof. unfold units_of_point. destruct (p <? 65536)%N; discriminate. Qed.

Lemma lower_simple_cases (p target : N) :
  lower_simple p = Some target ->
  (is_lower target = true /\ units_of_point target = String target "")
  \/ In (p, target) LOWER_TABLE.
Proof.
  unfold lower_simple. destruct (p <? 128)%N eqn:Hp.
  - destruct (is_upper p) eqn:Hu; [| discriminate]. intros [= <-]. left.
    unfold units_of_point. char_classes. split; char_cases.
  - intros H. right. now apply assoc_In.
Qed.

Lemma lower_simple_none (c : code_unit) :
  lower_simple c = None -> is_upper c = false.
Proof.
  unfold lower_simple. destruct (c <? 128)%N eqn:Hc.
  - destruct (is_upper c); [discriminate | reflexivity].
  - intros _. char_classes. char_cases.
Qed.

(** What [toLowerCase] writes for a code point is what the string holds
    there, when the code point has no other lower case, or one to three
    code units of those it can write. *)
Lemma lower_point_cases (before : bool) (p : N) (original rest : string) :
  (lower_point before p original rest = original /\ lower_simple p = None)
  \/ (lower_point before p original rest <> ""
      /\ forall q, written_by_lowering q = true ->
           all_chars q (lower_point before p original rest) = true).
Proof.
  unfold lower_point.
  destruct (p =? CAPITAL_SIGMA)%N.
  { right. split; [discriminate |]. intros q Hq. unfold written_by_lowering in Hq.
    rewrite !andb_true_iff in Hq. destruct Hq as [[[[_ Hs] Hf] _] _].
    destruct (before && negb (cased_follows rest)); simpl; now rewrite ?Hs, ?Hf. }
  destruct (p =? CAPITAL_I_WITH_DOT)%N.
  { right. split; [discriminate |]. intros q Hq. unfold written_by_lowering in Hq.
    rewrite !andb_true_iff in Hq. destruct Hq as [[[[Ha _] _] Hd] _].
    rewrite forallb_forall in Ha.
    assert (Hi : q 105%N = true) by (apply Ha, small_letter_listed; reflexivity).
    change (concat_units [105; 775]%N) with (String 105%N (String 775%N "")).
    simpl. now rewrite Hi, Hd. }
  destruct (lower_simple p) as [target |] eqn:E; [right | now left].
  split; [apply units_of_point_not_nil |]. intros q Hq.
  unfold written_by_lowering in Hq. rewrite !andb_true_iff in Hq.
  destruct Hq as [[[[Ha _] _] _] Ht]. rewrite forallb_forall in Ha, Ht.
  destruct (lower_simple_cases p target E) as [[Hl ->] | Hin].
  - simpl. rewrite (Ha target (small_letter_listed target Hl)). reflexivity.
  - exact (Ht (p, target) Hin).
Qed.

Lemma surrogates_are_no_letters (c d : code_unit) :
  is_high_surrogate c && is_low_surrogate d = true ->
  is_upper c = false /\ is_upper d = false.
Proof. char_classes. intros H. split; char_cases. Qed.

Lemma cased_follows_pair (c d : code_unit) (s : string) :
  cased_follows (String c (String d s))
  = if is_high_surrogate c && is_low_surrogate d
    then (if is_case_ignorable (astral c d) then cased_follows s
          else is_cased (astral c d))
    else (if is_case_ignorable c then cased_follows (String d s) else is_cased c).
Proof. reflexivity. Qed.

Lemma lower_from_pair (before : bool) (c d : code_unit) (s : string) :
  lower_from before (String c (String d s))
  = if is_high_surrogate c && is_low_surrogate d
    then lower_point before (astral c d) (String c (String d "")) s
         ++ lower_from (after_cased before (astral c d)) s
    else lower_point before c (String c "") (String d s)
         ++ lower_from (after_cased before c) (String d s).
Proof. reflexivity. Qed.

Section Lowering.

Variable q : code_unit -> bool.

Lemma lower_point_keeps (before : bool) (p : N) (original rest : string) :
  written_by_lowering q = true ->
  all_chars q original = true ->
  all_chars q (lower_point before p original rest) = true.
Proof.
  intros Hq Ho.
  destruct (lower_point_cases before p original rest) as [[-> _] | [_ H]]; auto.
Qed.

(** A class that [toLowerCase] never writes keeps holding of every code unit
    of the text. *)
Lemma lower_from_keeps (s : string) :
  written_by_lowering q = true ->
  forall before, all_chars q s = true -> all_chars q (lower_from before s) = true.
Proof.
  intros Hq.
  induction s as [| c | c d s IHs IHd] using string_pair_ind; intros before Hs.
  - reflexivity.
  - now apply lower_point_keeps.
  - rewrite lower_from_pair. cbn [all_chars] in Hs.
    apply andb_true_iff in Hs as [Hc Hds].
    assert (Hd := Hds). cbn [all_chars] in Hd. apply andb_true_iff in Hd as [Hd Hs].
    destruct (is_high_surrogate c && is_low_surrogate d);
      rewrite all_chars_app; apply andb_true_iff; split.
    + apply lower_point_keeps; [exact Hq | cbn [all_chars]; now rewrite Hc, Hd].
    + now apply IHs.
    + apply lower_point_keeps; [exact Hq | cbn [all_chars]; now rewrite Hc].
    + apply IHd. cbn [all_chars]. now rewrite Hd, Hs.
Qed.

End Lowering.

Lemma lower_point_not_nil (before : bool) (p : N) (c : code_unit)
  (tail rest : string) :
  lower_point before p (String c tail) rest <> "".
Proof.
  destruct (lower_point_cases before p (String c tail) rest) as [[-> _] | [H _]];
    [discriminate | exact H].
Qed.

Lemma lower_from_not_nil (s : string) (before : bool) :
  s <> "" -> lower_from before s <> "".
Proof.
  destruct s as [|c [|d s]]; [congruence | |]; intros _.
  - apply lower_point_not_nil.
  - rewrite lower_from_pair. destruct (is_high_surrogate c && is_low_surrogate d);
      match goal with
      | |- ?a ++ ?b <> "" =>
          assert (Ha : a <> "") by apply lower_point_not_nil;
          destruct a; [congruence | discriminate]
      end.
Qed.

Section Ends.

Variable q : code_unit -> bool.
Hypothesis never_written : written_by_lowering (fun c => negb (q c)) = true.

Lemma lower_point_head (before : bool) (p : N) (original rest : string) :
  head_is q original = false ->
  head_is q (lower_point before p original rest) = false.
Proof.
  intros Ho.
  destruct (lower_point_cases before p original rest) as [[-> _] | [_ H]]; auto.
  apply all_chars_head. now apply H.
Qed.

Lemma lower_point_last (before : bool) (p : N) (original rest : string) :
  last_is q original = false ->
  last_is q (lower_point before p original rest) = false.
Proof.
  intros Ho.
  destruct (lower_point_cases before p original rest) as [[-> _] | [_ H]]; auto.
  apply all_chars_last. now apply H.
Qed.

Lemma lower_from_head (s : string) (before : bool) :
  head_is q s = false -> head_is q (lower_from before s) = false.
Proof.
  destruct s as [|c [|d s]]; [reflexivity | |]; intros H.
  - now apply lower_point_head.
  - rewrite lower_from_pair. destruct (is_high_surrogate c && is_low_surrogate d);
      rewrite head_is_app by apply lower_point_not_nil; now apply lower_point_head.
Qed.

Lemma lower_from_last (s : string) :
  forall before, last_is q s = false -> last_is q (lower_from before s) = false.
Proof.
  induction s as [| c | c d s IHs IHd] using string_pair_ind; intros before H.
  - reflexivity.
  - now apply lower_point_last.
  - rewrite lower_from_pair.
    destruct (is_high_surrogate c && is_low_surrogate d).
    + destruct s as [|e s].
      * rewrite append_empty. now apply lower_point_last.
      * rewrite last_is_app by (apply lower_from_not_nil; discriminate).
        apply IHs. exact H.
    + rewrite last_is_app by (apply lower_from_not_nil; discriminate).
      apply IHd. exact H.
Qed.

End Ends.

Lemma nothing_upper_is_written :
  written_by_lowering (fun c => negb (is_upper c)) = true.
Proof. vm_compute. reflexivity. Qed.

Lemma lower_point_lowered (before : bool) (p : N) (original rest : string) :
  (lower_simple p = None -> lowered original) ->
  lowered (lower_point before p original rest).
Proof.
  intros Ho. unfold lowered in *.
  destruct (lower_point_cases before p original rest) as [[-> Hn] | [_ H]];
    [now apply Ho | apply H, nothing_upper_is_written].
Qed.

Lemma lower_from_lowered (s : string) : forall before, lowered (lower_from before s).
Proof.
  unfold lowered.
  induction s as [| c | c d s IHs IHd] using string_pair_ind; intros before.
  - reflexivity.
  - apply lower_point_lowered. intros Hn. unfold lowered. simpl.
    now rewrite (lower_simple_none c Hn).
  - rewrite lower_from_pair.
    destruct (is_high_surrogate c && is_low_surrogate d) eqn:Hpair;
      rewrite all_chars_app.
    + rewrite IHs, andb_true_r. apply lower_point_lowered. intros _.
      destruct (surrogates_are_no_letters c d Hpair) as [Hc Hd].
      unfold lowered. simpl. now rewrite Hc, Hd.
    + rewrite IHd, andb_true_r. apply lower_point_lowered. intros Hn.
      unfold lowered. simpl. now rewrite (lower_simple_none c Hn).
Qed.

(** The result of [toLowerCase] has no upper-case letter of ASCII. *)
Lemma toLowerCase_lowered (s : string) : lowered (toLowerCase s).
Proof. apply lower_from_lowered. Qed.

(** *** Texts that differ in the case of the letters a and i *)

Lemma same_letter_refl (c : code_unit) : same_letter c c = true.
Proof. unfold same_letter. now rewrite N.eqb_refl. Qed.

Lemma same_letter_cases (x y : code_unit) :
  same_letter x y = true ->
  x = y
  \/ (x = "a"%char \/ x = "A"%char) /\ (y = "a"%char \/ y = "A"%char)
  \/ (x = "i"%char \/ x = "I"%char) /\ (y = "i"%char \/ y = "I"%char).
Proof.
  unfold same_letter, is_a, is_i.
  rewrite !orb_true_iff, !andb_true_iff, !orb_true_iff, !N.eqb_eq. tauto.
Qed.

Lemma same_letter_class (x y : code_unit) :
  same_letter x y = true ->
  is_case_ignorable x = is_case_ignorable y
  /\ is_cased x = is_cased y
  /\ is_high_surrogate x = is_high_surrogate y
  /\ is_low_surrogate x = is_low_surrogate y
  /\ (is_high_surrogate x || is_low_surrogate x = true -> x = y).
Proof.
  intros H.
  destruct (same_letter_cases x y H)
    as [-> | [[[-> | ->] [-> | ->]] | [[-> | ->] [-> | ->]]]];
    repeat split; try reflexivity; discriminate.
Qed.

Lemma same_letter_lower (x y : code_unit) (before : bool) (r r' : string) :
  same_letter x y = true ->
  cased_follows r = cased_follows r' ->
  lower_point before x (String x "") r = lower_point before y (String y "") r'.
Proof.
  intros H Hr.
  destruct (same_letter_cases x y H)
    as [-> | [[[-> | ->] [-> | ->]] | [[-> | ->] [-> | ->]]]];
    try reflexivity.
  unfold lower_point. now rewrite Hr.
Qed.

Lemma alike_pair (c d : code_unit) (s t : string) :
  alike (String c (String d s)) t = true ->
  exists c' d' t',
    t = String c' (String d' t')
    /\ same_letter c c' = true /\ same_letter d d' = true
    /\ alike s t' = true /\ alike (String d s) (String d' t') = true.
Proof.
  destruct t as [|c' [|d' t']]; simpl; try discriminate.
  - rewrite andb_false_r. discriminate.
  - rewrite !andb_true_iff. intros (Hc & Hd & Hs).
    exists c', d', t'. repeat split; try assumption. now rewrite Hd, Hs.
Qed.

Lemma alike_single (c : code_unit) (t : string) :
  alike (String c "") t = true ->
  exists c', t = String c' "" /\ same_letter c c' = true.
Proof.
  destruct t as [|c' [|d' t']]; simpl; try discriminate.
  - rewrite andb_true_r. intros H. now exists c'.
  - rewrite andb_false_r. discriminate.
Qed.

Lemma surrogate_pair_alike (c d c' d' : code_unit) :
  same_letter c c' = true -> same_letter d d' = true ->
  is_high_surrogate c && is_low_surrogate d
  = is_high_surrogate c' && is_low_surrogate d'
  /\ (is_high_surrogate c && is_low_surrogate d = true -> c = c' /\ d = d').
Proof.
  intros Hc Hd.
  destruct (same_letter_class c c' Hc) as (_ & _ & Hh & _ & Hc').
  destruct (same_letter_class d d' Hd) as (_ & _ & _ & Hl & Hd').
  split; [now rewrite Hh, Hl |]. rewrite andb_true_iff. intros [H1 H2]. split.
  - apply Hc'. now rewrite H1.
  - apply Hd'. rewrite H2. apply orb_true_r.
Qed.

Lemma cased_follows_alike (s : string) :
  forall t, alike s t = true -> cased_follows s = cased_follows t.
Proof.
  induction s as [| c | c d s IHs IHd] using string_pair_ind; intros t H.
  - destruct t; [reflexivity | discriminate].
  - apply alike_single in H as (c' & -> & Hc).
    destruct (same_letter_class c c' Hc) as (Hi & Hcased & _).
    simpl. now rewrite Hi, Hcased.
  - apply alike_pair in H as (c' & d' & t' & -> & Hc & Hd & Hs & Hds).
    rewrite !cased_follows_pair.
    destruct (surrogate_pair_alike c d c' d' Hc Hd) as [Hp Heq].
    rewrite <- Hp. destruct (is_high_surrogate c && is_low_surrogate d).
    + destruct (Heq eq_refl) as [<- <-]. now rewrite (IHs t' Hs).
    + destruct (same_letter_class c c' Hc) as (Hi & Hcased & _).
      now rewrite <- Hi, <- Hcased, (IHd _ Hds).
Qed.

(** Two texts that differ only in the case of letters a and i have the same
    lower case. *)
Lemma lower_from_alike (s : string) :
  forall t, alike s t = true ->
  forall before, lower_from before s = lower_from before t.
Proof.
  induction s as [| c | c d s IHs IHd] using string_pair_ind; intros t H before.
  - destruct t; [reflexivity | discriminate].
  - apply alike_single in H as (c' & -> & Hc). now apply same_letter_lower.
  - apply alike_pair in H as (c' & d' & t' & -> & Hc & Hd & Hs & Hds).
    rewrite !lower_from_pair.
    destruct (surrogate_pair_alike c d c' d' Hc Hd) as [Hp Heq].
    rewrite <- Hp. destruct (is_high_surrogate c && is_low_surrogate d).
    + destruct (Heq eq_refl) as [<- <-].
      unfold lower_point. now rewrite (cased_follows_alike s t' Hs), (IHs t' Hs).
    + rewrite (same_letter_lower c c' before (String d s) (String d' t') Hc)
        by now apply cased_follows_alike.
      destruct (same_letter_class c c' Hc) as (Hi & Hcased & _).
      unfold after_cased. now rewrite <- Hi, <- Hcased, (IHd _ Hds).
Qed.

Lemma replace_ai_word_alike (s : string) :
  forall prev, alike (replace_ai_word prev s) s = true.
Proof.
  induction s as [| c | c d s IHs IHd] using string_pair_ind; intros prev.
  - reflexivity.
  - simpl. now rewrite same_letter_refl.
  - change (replace_ai_word prev (String c (String d s)))
      with (if negb prev && is_a c && is_i d && negb (head_is is_word s)
            then String "A"%char (String "I"%char (replace_ai_word true s))
            else String c (replace_ai_word (is_word c) (String d s))).
    destruct (negb prev && is_a c && is_i d && negb (head_is is_word s)) eqn:E.
    + rewrite !andb_true_iff in E. destruct E as [[[_ Ha] Hi] _].
      cbn [alike]. rewrite IHs. unfold same_letter. rewrite Ha, Hi.
      cbn. now rewrite !orb_true_r.
    + cbn [alike]. now rewrite same_letter_refl, IHd.
Qed.

Lemma replace_ai_anywhere_alike (s : string) :
  alike (replace_ai_anywhere s) s = true.
Proof.
  induction s as [| c | c d s IHs IHd] using string_pair_ind.
  - reflexivity.
  - simpl. now rewrite same_letter_refl.
  - change (replace_ai_anywhere (String c (String d s)))
      with (if is_a c && is_i d
            then String "A"%char (String "I"%char (replace_ai_anywhere s))
            else String c (replace_ai_anywhere (String d s))).
    destruct (is_a c && is_i d) eqn:E.
    + rewrite andb_true_iff in E. destruct E as [Ha Hi].
      cbn [alike]. rewrite IHs. unfold same_letter. rewrite Ha, Hi.
      cbn. now rewrite !orb_true_r.
    + cbn [alike]. now rewrite same_letter_refl, IHd.
Qed.

Lemma toLowerCase_replace_ai_word (s : string) :
  forall prev, toLowerCase (replace_ai_word prev s) = toLowerCase s.
Proof. intros prev. apply lower_from_alike, replace_ai_word_alike. Qed.

Lemma all_chars_cons_head (p : code_unit -> bool) (c : code_unit) (r : list string) :
  p c = true -> Forall (fun w => all_chars p w = true) r ->
  Forall (fun w => all_chars p w = true) (cons_head c r).
Proof.
  intros Hc Hr. destruct Hr as [|w r Hw Hr]; simpl.
  - constructor; [simpl; now rewrite Hc | constructor].
  - constructor; [simpl; now rewrite Hc, Hw | exact Hr].
Qed.

Lemma split_runs_all_chars (p sep : code_unit -> bool) (s : string) :
  all_chars p s = true ->
  Forall (fun w => all_chars p w = true) (split_runs sep s).
Proof.
  induction s as [|c s IH]; simpl.
  - intros _. now constructor.
  - rewrite andb_true_iff. intros [Hc Hs]. specialize (IH Hs).
    destruct (sep c).
    + destruct (head_is sep s); [exact IH | now constructor].
    + now apply all_chars_cons_head.
Qed.

Lemma token_char_not_upper (c : code_unit) :
  is_upper (if is_token_char c then c else " "%char) = false.
Proof.
  unfold is_token_char. destruct (is_lower c || is_digit c || is_space c) eqn:E;
    [| reflexivity].
  char_classes. char_cases.
Qed.

Lemma story_words_lowered (text w : string) : In w (story_words text) -> lowered w.
Proof.
  unfold story_words. rewrite filter_In. intros [Hin _]. revert w Hin.
  apply Forall_forall. apply split_runs_all_chars.
  induction (toLowerCase text) as [|c s IH]; simpl; [reflexivity |].
  now rewrite token_char_not_upper, IH.
Qed.

Lemma providedKeywords_lowered (raw w : string) :
  In w (providedKeywords raw) -> lowered w.
Proof.
  unfold providedKeywords. rewrite in_map_iff. intros (x & <- & _).
  apply toLowerCase_lowered.
Qed.

(** *** The lower case of a text in lower case *)

Lemma capital_letter_listed (c : code_unit) :
  is_upper c = true -> In c (map N.of_nat (seq 65 26)).
Proof.
  intros H. apply in_map_iff. exists (N.to_nat c).
  split; [apply N2Nat.id |]. apply in_seq. char_classes. char_cases.
Qed.

Lemma table_settles :
  forallb (fun entry => settles (fst entry) (snd entry)) LOWER_TABLE = true.
Proof. vm_compute. reflexivity. Qed.

Lemma capitals_settle :
  forallb (fun p => settles p (p + 32)%N) (map N.of_nat (seq 65 26)) = true.
Proof. vm_compute. reflexivity. Qed.

Lemma lower_simple_settles (p t : N) : lower_simple p = Some t -> settles p t = true.
Proof.
  unfold lower_simple. destruct (p <? 128)%N.
  - destruct (is_upper p) eqn:Hu; [| discriminate]. intros [= <-].
    pose proof capitals_settle as H. rewrite forallb_forall in H.
    apply H. now apply capital_letter_listed.
  - intros H. apply assoc_In in H.
    pose proof table_settles as Ht. rewrite forallb_forall in Ht.
    exact (Ht (p, t) H).
Qed.

Lemma lower_point_lowered_point (before : bool) (p : N) (original rest : string) :
  is_lowered_point p = true -> lower_point before p original rest = original.
Proof.
  unfold is_lowered_point, lower_point.
  destruct (p =? CAPITAL_SIGMA)%N; [discriminate |].
  destruct (p =? CAPITAL_I_WITH_DOT)%N; [discriminate |].
  destruct (lower_simple p); [discriminate | reflexivity].
Qed.

(** What [toLowerCase] writes for a code point. *)
Lemma lower_point_kinds (before : bool) (p : N) (original rest : string) :
  (is_lowered_point p = true /\ lower_point before p original rest = original)
  \/ (exists t, settles p t = true
                /\ lower_point before p original rest = units_of_point t)
  \/ (p = CAPITAL_I_WITH_DOT
      /\ lower_point before p original rest = String "i" (String 0x307%N "")).
Proof.
  unfold lower_point, is_lowered_point.
  destruct (N.eqb_spec p CAPITAL_SIGMA) as [-> | _].
  { right. left.
    destruct (before && negb (cased_follows rest));
      [exists FINAL_SIGMA | exists SMALL_SIGMA]; split; reflexivity. }
  destruct (N.eqb_spec p CAPITAL_I_WITH_DOT) as [-> | _].
  { right. right. split; reflexivity. }
  destruct (lower_simple p) as [t |] eqn:E.
  - right. left. exists t. split; [now apply lower_simple_settles | reflexivity].
  - left. split; reflexivity.
Qed.

Lemma lower_from_unit (before : bool) (u : code_unit) (rest : string) :
  is_high_surrogate u && head_is is_low_surrogate rest = false ->
  lower_from before (String u rest)
  = lower_point before u (String u "") rest
    ++ lower_from (after_cased before u) rest.
Proof.
  destruct rest as [|v rest]; intros H.
  - simpl. now rewrite append_empty.
  - rewrite lower_from_pair. simpl in H. now rewrite H.
Qed.

Lemma high_is_not_low (c : code_unit) :
  is_high_surrogate c = true -> is_low_surrogate c = false.
Proof. char_classes. intros H. char_cases. Qed.

Lemma units_settled (before : bool) (p t : N) (rest : string) :
  settles p t = true ->
  lower_from before (units_of_point t ++ rest)
  = units_of_point t ++ lower_from (after_cased before p) rest.
Proof.
  unfold settles. rewrite !andb_true_iff.
  intros [[[Hl Hi] Hc] Hshape].
  apply Bool.eqb_prop in Hi, Hc.
  assert (Hstate : after_cased before t = after_cased before p)
    by (unfold after_cased; now rewrite Hi, Hc).
  destruct (units_of_point t) as [|u [|l [|x y]]]; try discriminate Hshape.
  - rewrite !andb_true_iff, !negb_true_iff, N.eqb_eq in Hshape.
    destruct Hshape as [[Hh _] ->]. cbn [append].
    rewrite lower_from_unit by now rewrite Hh.
    now rewrite (lower_point_lowered_point _ _ _ _ Hl), Hstate.
  - rewrite !andb_true_iff, N.eqb_eq in Hshape.
    destruct Hshape as [[Hh Hlow] E]. cbn [append].
    rewrite lower_from_pair, Hh, Hlow, E. cbn [andb].
    now rewrite (lower_point_lowered_point _ _ _ _ Hl), Hstate.
Qed.

Lemma dotted_i_settled (before : bool) (rest : string) :
  lower_from before (String "i" (String 0x307%N rest))
  = String "i"
      (String 0x307%N (lower_from (after_cased before CAPITAL_I_WITH_DOT) rest)).
Proof.
  rewrite lower_from_pair.
  change (is_high_surrogate "i"%char && is_low_surrogate 775%N) with false.
  cbv iota.
  rewrite (lower_point_lowered_point _ 105%N) by reflexivity.
  rewrite (lower_from_unit _ 775%N) by reflexivity.
  rewrite (lower_point_lowered_point _ 775%N) by reflexivity.
  cbn [append]. now destruct before.
Qed.

Lemma lower_point_head_low (before : bool) (p : N) (original rest : string) :
  head_is is_low_surrogate original = false ->
  head_is is_low_surrogate (lower_point before p original rest) = false.
Proof.
  intros Ho.
  destruct (lower_point_kinds before p original rest)
    as [[_ ->] | [(t & Ht & ->) | [_ ->]]]; [exact Ho | | reflexivity].
  unfold settles in Ht. rewrite !andb_true_iff in Ht. destruct Ht as [_ Hshape].
  destruct (units_of_point t) as [|u [|l [|x y]]]; try discriminate Hshape.
  - rewrite !andb_true_iff, !negb_true_iff in Hshape. now destruct Hshape as [[_ H] _].
  - rewrite !andb_true_iff in Hshape. destruct Hshape as [[H _] _].
    now apply high_is_not_low.
Qed.

Lemma lower_from_head_low (s : string) (before : bool) :
  head_is is_low_surrogate s = false ->
  head_is is_low_surrogate (lower_from before s) = false.
Proof.
  destruct s as [|c [|d s]]; [reflexivity | |]; intros H.
  - now apply lower_point_head_low.
  - rewrite lower_from_pair. destruct (is_high_surrogate c && is_low_surrogate d);
      rewrite head_is_app by apply lower_point_not_nil;
      now apply lower_point_head_low.
Qed.

(** A text in lower case is its own lower case. *)
Lemma lower_from_twice (s : string) :
  forall before, lower_from before (lower_from before s) = lower_from before s.
Proof.
  induction s as [| c | c d s IHs IHd] using string_pair_ind; intros before.
  - reflexivity.
  - cbn [lower_from].
    destruct (lower_point_kinds before c (String c "") "")
      as [[Hl ->] | [(t & Ht & ->) | [_ ->]]].
    + cbn [lower_from]. now apply lower_point_lowered_point.
    + rewrite <- (append_empty (units_of_point t)) at 1.
      rewrite (units_settled before c t "" Ht). cbn [lower_from].
      apply append_empty.
    + now rewrite dotted_i_settled.
  - rewrite lower_from_pair.
    destruct (is_high_surrogate c && is_low_surrogate d) eqn:Hpair.
    + destruct (lower_point_kinds before (astral c d) (String c (String d "")) s)
        as [[Hl ->] | [(t & Ht & ->) | [Hp ->]]].
      * cbn [append]. rewrite lower_from_pair, Hpair.
        now rewrite (lower_point_lowered_point _ _ _ _ Hl), IHs.
      * now rewrite (units_settled before _ t _ Ht), IHs.
      * cbn [append]. now rewrite dotted_i_settled, <- Hp, IHs.
    + destruct (lower_point_kinds before c (String c "") (String d s))
        as [[Hl ->] | [(t & Ht & ->) | [Hp ->]]].
      * cbn [append]. rewrite lower_from_unit.
        -- now rewrite (lower_point_lowered_point _ _ _ _ Hl), IHd.
        -- destruct (is_high_surrogate c) eqn:Hc; [| reflexivity].
           cbn [andb] in Hpair |- *. now apply lower_from_head_low.
      * now rewrite (units_settled before _ t _ Ht), IHd.
      * cbn [append]. now rewrite dotted_i_settled, <- Hp, IHd.
Qed.

(** [toLowerCase] applied twice is [toLowerCase] applied once. *)
Lemma toLowerCase_idempotent (s : string) :
  toLowerCase (toLowerCase s) = toLowerCase s.
Proof. apply lower_from_twice. Qed.

Lemma plain_unit_is_lowered (c : code_unit) :
  is_lower c || is_digit c = true ->
  is_lowered_point c = true /\ is_high_surrogate c = false.
Proof.
  intros H. unfold is_lowered_point, lower_simple, CAPITAL_SIGMA, CAPITAL_I_WITH_DOT.
  assert (H1 : (c <? 128)%N = true) by (char_classes; char_cases).
  assert (H2 : is_upper c = false) by (char_classes; char_cases).
  assert (H3 : (c =? 931)%N = false) by (char_classes; char_cases).
  assert (H4 : (c =? 304)%N = false) by (char_classes; char_cases).
  rewrite H1, H2, H3, H4. split; [reflexivity |]. char_classes. char_cases.
Qed.

(** A text of letters from a to z and digits is its own lower case. *)
Lemma plain_text_is_lowered (w : string) :
  all_chars (fun c => is_lower c || is_digit c) w = true ->
  forall before, lower_from before w = w.
Proof.
  induction w as [|c w IH]; [reflexivity |]. cbn [all_chars].
  rewrite andb_true_iff. intros [Hc Hw] before.
  destruct (plain_unit_is_lowered c Hc) as [Hl Hh].
  rewrite lower_from_unit by now rewrite Hh.
  now rewrite (lower_point_lowered_point _ _ _ _ Hl), IH.
Qed.

(** *** Upper case *)

Lemma special_capital_forms :
  forallb (fun entry => is_capital_form (concat_units (snd entry))) UPPER_SPECIAL
  = true.
Proof. vm_compute. reflexivity. Qed.

Lemma simple_capital_forms :
  forallb (fun entry => is_capital_form (String (snd entry) "")) UPPER_TABLE = true.
Proof. vm_compute. reflexivity. Qed.

(** The upper case of a code unit is the letter 32 places before it for a
    lower-case letter of ASCII, the code unit itself for any other character
    of ASCII, and a capital form in every case. *)
Lemma upper_unit_is_capital_form (c : code_unit) :
  is_capital_form (upper_unit c) = true
  /\ (is_lower c = true -> upper_unit c = String (c - 32)%N "")
  /\ ((c <? 128)%N = true -> is_lower c = false -> upper_unit c = String c "").
Proof.
  unfold upper_unit. destruct (c <? 128)%N eqn:Hc.
  - split; [| split; [now intros -> | now intros _ ->]].
    unfold is_capital_form, upper_unit.
    destruct (is_lower c) eqn:Hl.
    + assert (H1 : ((c - 32 <? 128) = true)%N) by char_cases.
      assert (H2 : is_lower (c - 32)%N = false) by (char_classes; char_cases).
      rewrite H1, H2. cbn [negb andb]. now rewrite eqb_refl.
    + rewrite Hc, Hl. cbn [negb andb]. now rewrite eqb_refl.
  - split; [| split; [char_classes; intros H; char_cases | discriminate]].
    destruct (assoc c UPPER_SPECIAL) as [units |] eqn:Es.
    { pose proof special_capital_forms as H. rewrite forallb_forall in H.
      exact (H (c, units) (assoc_In _ _ _ Es)). }
    destruct (assoc c UPPER_TABLE) as [target |] eqn:Et.
    { pose proof simple_capital_forms as H. rewrite forallb_forall in H.
      exact (H (c, target) (assoc_In _ _ _ Et)). }
    unfold is_capital_form, upper_unit. rewrite Hc, Es, Et, eqb_refl.
    assert (H : is_lower c = false) by (char_classes; char_cases).
    now rewrite H.
Qed.

Lemma upper_unit_not_nil (c : code_unit) : upper_unit c <> "".
Proof.
  destruct (upper_unit_is_capital_form c) as [H _].
  destruct (upper_unit c); [discriminate H | discriminate].
Qed.

(** ** Plain words *)

Section NoSeparator.

Variable sep : code_unit -> bool.

Lemma cons_head_forall (P : string -> Prop) (c : code_unit) (r : list string) :
  P (String c "") -> (forall p, P p -> P (String c p)) ->
  Forall P r -> Forall P (cons_head c r).
Proof.
  intros H1 Hc Hr. destruct Hr as [|p ps Hp Hps]; simpl; constructor; auto.
Qed.

Lemma split_runs_no_sep (s : string) :
  Forall (fun piece => all_chars (fun c => negb (sep c)) piece = true)
    (split_runs sep s).
Proof.
  induction s as [|c s IH]; simpl; [now repeat constructor |].
  destruct (sep c) eqn:Hc.
  - destruct (head_is sep s); [exact IH | now constructor].
  - apply cons_head_forall; [simpl; now rewrite Hc | | exact IH].
    intros p Hp. simpl. now rewrite Hc, Hp.
Qed.

End NoSeparator.

Lemma all_chars_both (p q r : code_unit -> bool) (s : string) :
  (forall c, p c = true -> q c = true -> r c = true) ->
  all_chars p s = true -> all_chars q s = true -> all_chars r s = true.
Proof.
  intros Hpq. induction s as [|c s IH]; simpl; [reflexivity |].
  rewrite !andb_true_iff. intros [Hp Hps] [Hq Hqs]. split; auto.
Qed.

Lemma token_char_kept (c : code_unit) :
  is_token_char (if is_token_char c then c else " "%char) = true.
Proof. destruct (is_token_char c) eqn:E; [exact E | reflexivity]. Qed.

Lemma mapped_text_has_token_chars (s : string) :
  all_chars is_token_char
    (map_chars (fun c => if is_token_char c then c else " "%char) s) = true.
Proof.
  induction s as [|c s IH]; [reflexivity |].
  cbn [map_chars all_chars]. now rewrite token_char_kept, IH.
Qed.

Lemma token_not_space (c : code_unit) :
  is_token_char c = true -> negb (is_space c) = true ->
  is_lower c || is_digit c = true.
Proof.
  unfold is_token_char. intros H1 H2. apply negb_true_iff in H2.
  now rewrite H2, orb_false_r in H1.
Qed.

(** A word counted by [extractKeywordsFromStory] is made of letters from a
    to z and digits. *)
Lemma story_words_plain (text w : string) :
  In w (story_words text) ->
  all_chars (fun c => is_lower c || is_digit c) w = true.
Proof.
  unfold story_words. intros Hin. apply filter_In in Hin as [Hin _].
  set (mapped := map_chars (fun c => if is_token_char c then c else " "%char)
                   (toLowerCase text)) in *.
  assert (Hmapped : all_chars is_token_char mapped = true)
    by apply mapped_text_has_token_chars.
  pose proof (split_runs_all_chars is_token_char is_space mapped Hmapped) as Hkept.
  pose proof (split_runs_no_sep is_space mapped) as Hnosep.
  rewrite Forall_forall in Hkept, Hnosep.
  apply (all_chars_both is_token_char (fun c => negb (is_space c))
           (fun c => is_lower c || is_digit c)); auto.
  exact token_not_space.
Qed.

(** ** Maximal runs *)

Section Runs.

Variable sep : code_unit -> bool.

Lemma split_runs_head_word (c : code_unit) (s : string) :
  sep c = false ->
  exists h t, split_runs sep (String c s) = String c h :: t
              /\ split_runs sep s = h :: t.
Proof.
  intros Hc. simpl. rewrite Hc. pose proof (split_runs_not_nil sep s) as Hne.
  destruct (split_runs sep s) as [|h t]; [congruence |]. now exists h, t.
Qed.

(** The non-empty pieces of a split are the maximal runs of characters that
    are not separators. *)
Lemma split_runs_are_runs (s : string) :
  runs sep s (filter truthy (split_runs sep s)).
Proof.
  induction s as [|c s IH]; [constructor |].
  destruct (sep c) eqn:Hc.
  - assert (E : filter truthy (split_runs sep (String c s))
                = filter truthy (split_runs sep s)).
    { simpl. rewrite Hc. now destruct (head_is sep s). }
    rewrite E. now constructor.
  - destruct (split_runs_head_word c s Hc) as (h & t & -> & E).
    rewrite E in IH. cbn [filter truthy].
    destruct s as [|d s].
    + injection E as <- <-. apply (runs_word sep (String c "") "" []).
      * discriminate.
      * simpl. now rewrite Hc.
      * reflexivity.
      * constructor.
    + destruct (sep d) eqn:Hd.
      * destruct (split_runs_head_sep sep (String d s)) as [ps Hps];
          [exact Hd |].
        rewrite Hps in E. injection E as <- <-. cbn [filter truthy] in IH.
        apply (runs_word sep (String c "") (String d s)).
        -- discriminate.
        -- simpl. now rewrite Hc.
        -- simpl. now rewrite Hd.
        -- exact IH.
      * destruct (split_runs_head_word d s Hd) as (h' & t' & E' & _).
        rewrite E' in E. injection E as <- <-. cbn [filter truthy] in IH.
        inversion IH as [| c0 text words Hsep Hruns Htext
                         | word rest words Hne Hword Hrest Hruns Htext Hwords];
          subst.
        -- congruence.
        -- apply (runs_word sep (String c (String d h')) rest).
           ++ discriminate.
           ++ simpl. rewrite Hc. exact Hword.
           ++ exact Hrest.
           ++ exact Hruns.
Qed.

Lemma word_is_maximal (word word' rest rest' : string) :
  all_chars (fun c => negb (sep c)) word = true ->
  all_chars (fun c => negb (sep c)) word' = true ->
  head_is (fun c => negb (sep c)) rest = false ->
  head_is (fun c => negb (sep c)) rest' = false ->
  word ++ rest = word' ++ rest' -> word = word' /\ rest = rest'.
Proof.
  revert word'. induction word as [|c word IH]; intros [|c' word'] Hw Hw' Hr Hr' E;
    cbn [append all_chars] in *.
  - now split.
  - subst rest. apply andb_true_iff in Hw' as [Hc _]. simpl in Hr. congruence.
  - subst rest'. apply andb_true_iff in Hw as [Hc _]. simpl in Hr'. congruence.
  - injection E as <- E. apply andb_true_iff in Hw as [_ Hw].
    apply andb_true_iff in Hw' as [_ Hw'].
    destruct (IH word' Hw Hw' Hr Hr' E) as [-> ->]. now split.
Qed.

(** A text has one list of maximal runs. *)
Lemma runs_unique (text : string) (words words' : list string) :
  runs sep text words -> runs sep text words' -> words = words'.
Proof.
  intros H. revert words'.
  induction H as [| c text words Hc H IH | word rest words Hne Hw Hr H IH];
    intros words' H'.
  - inversion H' as [| | word' rest' ws' Hne' Hw' Hr' H'' E]; [reflexivity |].
    destruct word'; [congruence | discriminate E].
  - inversion H' as [| c' text' ws' Hc' H'' | word' rest' ws' Hne' Hw' Hr' H'' E];
      subst; [now apply IH |].
    destruct word' as [|x word']; [congruence |]. cbn [append] in E.
    injection E as -> _. cbn [all_chars] in Hw'.
    apply andb_true_iff in Hw' as [Hx _]. rewrite Hc in Hx. discriminate Hx.
  - inversion H' as [E | c' text' ws' Hc' H'' E
                     | word' rest' ws' Hne' Hw' Hr' H'' E]; subst.
    + destruct word; [congruence | discriminate E].
    + destruct word as [|x word]; [congruence |]. cbn [append] in E.
      injection E as <- _. cbn [all_chars] in Hw.
      apply andb_true_iff in Hw as [Hx _]. rewrite Hc' in Hx. discriminate Hx.
    + destruct (word_is_maximal word' word rest' rest Hw' Hw Hr' Hr E) as [-> ->].
      f_equal. now apply IH.
Qed.

End Runs.

Lemma split_runs_map (sep sep' : code_unit -> bool) (f : code_unit -> code_unit)
  (s : string) :
  (forall c, sep (f c) = sep' c) ->
  (forall c, sep' c = false -> f c = c) ->
  split_runs sep (map_chars f s) = split_runs sep' s.
Proof.
  intros Hsep Hf. induction s as [|c s IH]; [reflexivity |].
  simpl. rewrite Hsep, IH.
  assert (Hh : head_is sep (map_chars f s) = head_is sep' s)
    by (destruct s; simpl; [reflexivity | apply Hsep]).
  rewrite Hh. destruct (sep' c) eqn:Hc; [reflexivity |]. now rewrite Hf.
Qed.

Lemma space_of_token_text (c : code_unit) :
  is_space (if is_token_char c then c else " "%char) = is_no_token c.
Proof.
  unfold is_token_char, is_no_token.
  destruct (is_lower c || is_digit c) eqn:E.
  - cbn [orb negb]. char_classes. char_cases.
  - cbn [orb negb]. destruct (is_space c) eqn:Hs; [exact Hs | reflexivity].
Qed.

Lemma token_text_keeps_tokens (c : code_unit) :
  is_no_token c = false -> (if is_token_char c then c else " "%char) = c.
Proof.
  unfold is_token_char, is_no_token. rewrite negb_false_iff. now intros ->.
Qed.

(** The words counted by [extractKeywordsFromStory] are the maximal runs of
    characters of [a-z0-9] of the text in lower case that are longer than
    two characters and no stop words. *)
Lemma story_words_are_tokens (text : string) :
  exists tokens,
    runs is_no_token (toLowerCase text) tokens
    /\ story_words text = filter is_keyword tokens.
Proof.
  exists (filter truthy (split_runs is_no_token (toLowerCase text))). split.
  - apply split_runs_are_runs.
  - unfold story_words.
    rewrite (split_runs_map is_space is_no_token _ _
               space_of_token_text token_text_keeps_tokens).
    rewrite filter_filter. apply filter_ext. intros w.
    unfold is_keyword. destruct w; reflexivity.
Qed.

Lemma trimmed_pieces_of_truthy (l : list string) :
  filter truthy (map trim (filter truthy l)) = filter truthy (map trim l).
Proof.
  induction l as [|x l IH]; [reflexivity |].
  destruct x as [|c x]; [exact IH |]. simpl filter at 2. simpl map.
  cbn [filter]. now rewrite IH.
Qed.

(** The keywords the caller supplies are the maximal runs of characters
    other than commas, semicolons and line breaks of the raw text, trimmed,
    without those that hold only whitespace, in lower case. *)
Lemma providedKeywords_are_pieces (raw : string) :
  exists pieces,
    runs is_keyword_separator raw pieces
    /\ providedKeywords raw = map toLowerCase (filter truthy (map trim pieces)).
Proof.
  exists (filter truthy (split_runs is_keyword_separator raw)). split.
  - apply split_runs_are_runs.
  - unfold providedKeywords. now rewrite trimmed_pieces_of_truthy.
Qed.

(** ** The keyword list *)

Lemma deriveKeywords_eq (topic story raw : string) :
  deriveKeywords topic story raw
  = map (replace_ai_word false)
      (keep_first (providedKeywords raw
                   ++ extractKeywordsFromStory (topic ++ ". " ++ story))%list).
Proof. unfold deriveKeywords. now rewrite distinct_keep_first. Qed.

Lemma keywords_before_rendering_lowered (topic story raw w : string) :
  In w (keep_first (providedKeywords raw
                    ++ extractKeywordsFromStory (topic ++ ". " ++ story))%list) ->
  lowered w.
Proof.
  rewrite keep_first_In, in_app_iff. intros [H | H].
  - now apply providedKeywords_lowered in H.
  - apply (story_words_lowered (topic ++ ". " ++ story)).
    now apply (extractKeywords_most_frequent (topic ++ ". " ++ story)).
Qed.

Lemma keywords_before_rendering_fixed (topic story raw w : string) :
  In w (keep_first (providedKeywords raw
                    ++ extractKeywordsFromStory (topic ++ ". " ++ story))%list) ->
  toLowerCase w = w.
Proof.
  rewrite keep_first_In, in_app_iff. intros [H | H].
  - unfold providedKeywords in H. apply in_map_iff in H as (x & <- & _).
    apply toLowerCase_idempotent.
  - apply plain_text_is_lowered, (story_words_plain (topic ++ ". " ++ story)).
    now apply (extractKeywords_most_frequent (topic ++ ". " ++ story)).
Qed.

(** C6, as the program has it. The keyword list of a plan is made of the
    keywords the caller supplied (the pieces between commas, semicolons and
    line breaks, trimmed, the empty ones left out, in lower case, in their
    order) followed by at most eight of the most frequent words of the topic
    and the story, each item being kept at its first occurrence only; in
    every item the whole word "ai" is then written "AI", so that the lower
    case of the list is the list before that step, which has no item twice.
    Its length is at most the number of supplied keywords plus eight. *)
Theorem keywords_are_supplied_then_most_frequent (form : ScriptForm)
  (plan : Script.VideoScript) :
  generateVideoScript form = Ok plan ->
  exists pieces tokens derived,
    let supplied := map toLowerCase (filter truthy (map trim pieces)) in
    runs is_keyword_separator (Form.keywords form) pieces
    /\ runs is_no_token
         (toLowerCase (topic form ++ ". " ++ the_trimmed_story form)) tokens
    /\ most_frequent 8 (filter is_keyword tokens) derived
    /\ Script.keywords plan
       = map (replace_ai_word false) (keep_first (supplied ++ derived)%list)
    /\ map toLowerCase (Script.keywords plan)
       = keep_first (supplied ++ derived)%list
    /\ NoDup (map toLowerCase (Script.keywords plan))
    /\ List.length (Script.keywords plan) <= List.length supplied + 8.
Proof.
  intros Hplan.
  destruct (generateVideoScript_inv _ _ Hplan) as (_ & _ & _ & _ & _ & Hk & _).
  destruct (providedKeywords_are_pieces (Form.keywords form))
    as (pieces & Hpieces & Hsupplied).
  destruct (story_words_are_tokens (topic form ++ ". " ++ the_trimmed_story form))
    as (tokens & Htokens & Hwords).
  pose proof (extractKeywords_most_frequent
                (topic form ++ ". " ++ the_trimmed_story form)) as Hmost.
  exists pieces, tokens,
    (extractKeywordsFromStory (topic form ++ ". " ++ the_trimmed_story form)).
  cbv zeta. rewrite <- Hsupplied, <- Hwords, Hk. unfold the_keywords.
  rewrite deriveKeywords_eq.
  split; [exact Hpieces |]. split; [exact Htokens |]. split; [exact Hmost |].
  assert (Hlower : map toLowerCase
                     (map (replace_ai_word false)
                        (keep_first
                           (providedKeywords (Form.keywords form)
                            ++ extractKeywordsFromStory
                                 (topic form ++ ". " ++ the_trimmed_story form))%list))
                   = keep_first
                       (providedKeywords (Form.keywords form)
                        ++ extractKeywordsFromStory
                             (topic form ++ ". " ++ the_trimmed_story form))%list).
  { rewrite map_map. rewrite <- (map_id (keep_first _)) at 2.
    apply map_ext_in. intros w Hw. rewrite toLowerCase_replace_ai_word.
    now apply (keywords_before_rendering_fixed (topic form)
                 (the_trimmed_story form) (Form.keywords form)). }
  split; [reflexivity |]. split; [exact Hlower | split].
  - rewrite Hlower. apply keep_first_NoDup.
  - rewrite length_map. etransitivity; [apply keep_first_length |].
    rewrite length_app. destruct Hmost as [Hlen _]. lia.
Qed.

(** C6, as stated: that the list holds the supplied keywords in lower case.
    The request [UPKEEP_FORM] supplies "maintain, ai tools"; the second
    keyword is "ai tools" once trimmed and in lower case, and the plan lists
    it as "AI tools". *)
Lemma supplied_ai_keyword_is_not_listed_in_lower_case :
  generateVideoScript UPKEEP_FORM = Ok UPKEEP_PLAN
  /\ runs is_keyword_separator (Form.keywords UPKEEP_FORM) ["maintain"; " ai tools"]
  /\ map toLowerCase (filter truthy (map trim ["maintain"; " ai tools"]))
     = ["maintain"; "ai tools"]
  /\ In "AI tools" (Script.keywords UPKEEP_PLAN)
  /\ ~ In "ai tools" (Script.keywords UPKEEP_PLAN).
Proof.
  split; [vm_compute; reflexivity |]. split; [| split; [reflexivity | split]].
  - apply (runs_word is_keyword_separator "maintain" ", ai tools"); try easy.
    apply runs_separator; [reflexivity |].
    apply (runs_word is_keyword_separator " ai tools" ""); try easy.
    constructor.
  - right; left; reflexivity.
  - vm_compute. intros H.
    repeat (destruct H as [H | H]; [discriminate H |]). exact H.
Qed.

(** ** The rendering of "ai" in the keywords *)

Lemma is_a_word (c : code_unit) : is_a c = true -> is_word c = true.
Proof. char_classes. intros H. char_cases. Qed.

Lemma is_a_not_i (c : code_unit) : is_a c = true -> is_i c = false.
Proof. char_classes. intros H. char_cases. Qed.

Lemma replace_ai_word_pair (prev : bool) (c d : code_unit) (s : string) :
  replace_ai_word prev (String c (String d s))
  = if negb prev && is_a c && is_i d && negb (head_is is_word s)
    then String "A" (String "I" (replace_ai_word true s))
    else String c (replace_ai_word (is_word c) (String d s)).
Proof. reflexivity. Qed.

Lemma head_is_word_replace (prev : bool) (s : string) :
  head_is is_word (replace_ai_word prev s) = head_is is_word s.
Proof.
  destruct s as [|c [|d s]]; try reflexivity.
  rewrite replace_ai_word_pair.
  destruct (negb prev && is_a c && is_i d && negb (head_is is_word s)) eqn:E;
    [| reflexivity].
  rewrite !andb_true_iff in E. destruct E as [[[_ Ha] _] _].
  simpl. now rewrite (is_a_word c Ha).
Qed.

Lemma ends_on_boundary_tail (x : code_unit) (before : string) :
  ends_on_boundary (String x before) -> ends_on_boundary before.
Proof.
  intros H rest c ->. apply (H (String x rest) c). reflexivity.
Qed.

Lemma ends_on_boundary_single (x : code_unit) :
  ends_on_boundary (String x "") -> is_word x = false.
Proof. intros H. apply (H "" x). reflexivity. Qed.

Lemma replace_ai_word_spec (s : string) :
  forall prev before c d after,
    replace_ai_word prev s = before ++ String c (String d after) ->
    is_a c = true -> is_i d = true ->
    (before = "" -> prev = false) ->
    ends_on_boundary before -> starts_on_boundary after ->
    c = "A"%char /\ d = "I"%char.
Proof.
  induction s as [| c0 | c0 d0 s IHs IHd] using string_pair_ind;
    intros prev before c d after Heq Ha Hi Hprev Hbefore Hafter.
  - destruct before; discriminate Heq.
  - destruct before as [|x [|y before]]; discriminate Heq.
  - rewrite replace_ai_word_pair in Heq.
    destruct (negb prev && is_a c0 && is_i d0 && negb (head_is is_word s)) eqn:E.
    + destruct before as [|x [|y before]]; cbn [append] in Heq.
      * injection Heq as <- <- _. now split.
      * injection Heq as _ <- _. discriminate Hi || (apply is_a_not_i in Ha; discriminate Ha).
      * injection Heq as <- <- Heq.
        apply (IHs true before c d after Heq Ha Hi); [| | exact Hafter].
        -- intros ->. apply ends_on_boundary_tail, ends_on_boundary_single in Hbefore.
           discriminate Hbefore.
        -- now apply ends_on_boundary_tail, ends_on_boundary_tail in Hbefore.
    + destruct before as [|x before]; cbn [append] in Heq.
      * injection Heq as -> Heq. rewrite (Hprev eq_refl) in E.
        rewrite (is_a_word c Ha) in Heq.
        destruct s as [|e s].
        -- simpl in Heq. injection Heq as -> <-.
           simpl in E. now rewrite Ha, Hi in E.
        -- cbn [negb andb] in Heq. injection Heq as -> <-.
           change (head_is is_word (replace_ai_word (is_word d) (String e s)) = false)
             in Hafter.
           rewrite head_is_word_replace in Hafter.
           simpl in E, Hafter. now rewrite Ha, Hi, Hafter in E.
      * injection Heq as -> Heq.
        apply (IHd (is_word x) before c d after Heq Ha Hi); [| | exact Hafter].
        -- intros ->. now apply ends_on_boundary_single.
        -- now apply ends_on_boundary_tail in Hbefore.
Qed.

Lemma replace_ai_word_after_word (d : code_unit) (s : string) :
  replace_ai_word true (String d s) = String d (replace_ai_word (is_word d) s).
Proof. destruct s; reflexivity. Qed.

Lemma lower_a (c : code_unit) : is_upper c = false -> is_a c = true -> c = "a"%char.
Proof. char_classes. intros H1 H2. char_cases. Qed.

Lemma lower_i (c : code_unit) : is_upper c = false -> is_i c = true -> c = "i"%char.
Proof. char_classes. intros H1 H2. char_cases. Qed.

Lemma lowered_cons (c : code_unit) (s : string) :
  lowered (String c s) -> is_upper c = false /\ lowered s.
Proof.
  unfold lowered. simpl. rewrite andb_true_iff, negb_true_iff. tauto.
Qed.

Lemma snoc_of_cons (x : code_unit) (b rest : string) (z : code_unit) :
  String x b = rest ++ String z "" ->
  (b = "" /\ x = z) \/ exists rest', b = rest' ++ String z "".
Proof.
  destruct rest as [|y rest]; simpl; intros [= -> ->].
  - now left.
  - right. now exists rest.
Qed.

Lemma inner_after_cons (x : code_unit) (b : string) (prev : bool) (after : string) :
  (is_word x = true -> prev = true) ->
  (exists rest z, String x b = rest ++ String z "" /\ is_word z = true)
  \/ head_is is_word after = true ->
  (b = "" /\ prev = true)
  \/ (exists rest z, b = rest ++ String z "" /\ is_word z = true)
  \/ head_is is_word after = true.
Proof.
  intros Hx [(rest & z & E & Hz) | H]; [| tauto].
  apply snoc_of_cons in E as [[-> ->] | [rest' ->]].
  - left. auto.
  - right. left. now exists rest', z.
Qed.

Lemma replace_ai_word_inner (s : string) :
  lowered s ->
  forall prev before c d after,
    replace_ai_word prev s = before ++ String c (String d after) ->
    is_a c = true -> is_i d = true ->
    (before = "" /\ prev = true)
    \/ (exists rest x, before = rest ++ String x "" /\ is_word x = true)
    \/ head_is is_word after = true ->
    c = "a"%char /\ d = "i"%char.
Proof.
  induction s as [| c0 | c0 d0 s IHs IHd] using string_pair_ind;
    intros Hlow prev before c d after Heq Ha Hi Hinner.
  - destruct before; discriminate Heq.
  - destruct before as [|x [|y before]]; discriminate Heq.
  - apply lowered_cons in Hlow as [Hc0 Hlow'].
    pose proof Hlow' as Hlow''. apply lowered_cons in Hlow'' as [Hd0 Hs].
    rewrite replace_ai_word_pair in Heq.
    destruct (negb prev && is_a c0 && is_i d0 && negb (head_is is_word s)) eqn:E.
    + rewrite !andb_true_iff, !negb_true_iff in E.
      destruct E as [[[Hprev _] _] Hnext].
      destruct before as [|x [|y before]]; cbn [append] in Heq.
      * injection Heq as _ _ <-. rewrite head_is_word_replace in Hinner.
        destruct Hinner as [[_ H] | [(rest & z & H & _) | H]]; try congruence.
        destruct rest; discriminate H.
      * injection Heq as _ <- _. discriminate Ha.
      * injection Heq as <- <- Heq.
        apply (IHs Hs true before c d after Heq Ha Hi).
        destruct Hinner as [[H _] | H]; [discriminate H |].
        apply inner_after_cons with (x := "I"%char); [reflexivity |].
        destruct H as [(rest & z & H & Hz) | H]; [| now right].
        apply snoc_of_cons in H as [[H _] | [rest' H]]; [discriminate H |].
        left. now exists rest', z.
    + destruct before as [|x before]; cbn [append] in Heq.
      * injection Heq as -> Heq. rewrite (is_a_word c Ha) in Heq.
        change (replace_ai_word true (String d0 s) = String d after) in Heq.
        rewrite replace_ai_word_after_word in Heq. injection Heq as -> _.
        split; [now apply lower_a | now apply lower_i].
      * injection Heq as -> Heq.
        apply (IHd Hlow' (is_word x) before c d after Heq Ha Hi).
        destruct Hinner as [[H _] | H]; [discriminate H |].
        now apply inner_after_cons with (x := x).
Qed.

(** C7, as the program has it. In every entry of the keyword list of a plan,
    every occurrence of the letters "ai" that stands as a word of its own,
    whatever its case, is written "AI"; an occurrence that touches another
    word character stays in lower case. *)
Theorem whole_word_ai_is_uppercase (form : ScriptForm)
  (plan : Script.VideoScript) (entry : string) :
  generateVideoScript form = Ok plan ->
  In entry (Script.keywords plan) ->
  every_ai_word_uppercase entry /\ every_inner_ai_lowercase entry.
Proof.
  intros Hplan Hin.
  destruct (generateVideoScript_inv _ _ Hplan) as (_ & _ & _ & _ & _ & Hk & _).
  rewrite Hk in Hin. unfold the_keywords in Hin. rewrite deriveKeywords_eq in Hin.
  apply in_map_iff in Hin as (raw & <- & Hraw).
  apply keywords_before_rendering_lowered in Hraw. split.
  - intros before c d after Heq Ha Hi Hbefore Hafter.
    now apply (replace_ai_word_spec raw false before c d after).
  - intros before c d after Heq Ha Hi Hinner.
    apply (replace_ai_word_inner raw Hraw false before c d after); auto.
Qed.

(** C7, as stated: that every occurrence of "ai" in every entry is written
    "AI" wherever it stands. The request [UPKEEP_FORM] has the keyword
    "maintain", which its plan keeps in lower case. *)
Lemma inner_ai_stays_lower_case :
  generateVideoScript UPKEEP_FORM = Ok UPKEEP_PLAN
  /\ In "maintain" (Script.keywords UPKEEP_PLAN)
  /\ ~ every_ai_uppercase "maintain".
Proof.
  split; [vm_compute; reflexivity |]. split; [left; reflexivity |].
  intros H.
  destruct (H "m" "a"%char "i"%char "ntain" eq_refl eq_refl eq_refl) as [Ha _].
  discriminate Ha.
Qed.

(** ** The overlay *)

Lemma replace_ai_anywhere_pair (c d : code_unit) (s : string) :
  replace_ai_anywhere (String c (String d s))
  = if is_a c && is_i d
    then String "A" (String "I" (replace_ai_anywhere s))
    else String c (replace_ai_anywhere (String d s)).
Proof. reflexivity. Qed.

Lemma is_i_not_a (c : code_unit) : is_i c = true -> is_a c = false.
Proof. char_classes. intros H. char_cases. Qed.

Lemma toLowerCase_replace_ai_anywhere (s : string) :
  toLowerCase (replace_ai_anywhere s) = toLowerCase s.
Proof. apply lower_from_alike, replace_ai_anywhere_alike. Qed.

Lemma replace_ai_anywhere_head (c : code_unit) (s : string) (d : code_unit) (after : string) :
  replace_ai_anywhere (String c s) = String d after ->
  is_i d = true -> d = c.
Proof.
  destruct s as [|e s].
  - simpl. now intros [= <- _].
  - rewrite replace_ai_anywhere_pair. destruct (is_a c && is_i e).
    + intros [= <- _] Hi. discriminate Hi.
    + now intros [= <- _].
Qed.

Lemma replace_ai_anywhere_spec (s : string) :
  every_ai_uppercase (replace_ai_anywhere s).
Proof.
  unfold every_ai_uppercase.
  induction s as [| c0 | c0 d0 s IHs IHd] using string_pair_ind;
    intros before c d after Heq Ha Hi.
  - destruct before; discriminate Heq.
  - destruct before as [|x [|y before]]; discriminate Heq.
  - rewrite replace_ai_anywhere_pair in Heq.
    destruct (is_a c0 && is_i d0) eqn:E.
    + destruct before as [|x [|y before]]; cbn [append] in Heq.
      * injection Heq as <- <- _. now split.
      * injection Heq as _ <- _. discriminate Ha.
      * injection Heq as _ _ Heq. now apply (IHs before c d after).
    + destruct before as [|x before]; cbn [append] in Heq.
      * injection Heq as -> Heq.
        apply replace_ai_anywhere_head in Heq; [| exact Hi]. subst d0.
        now rewrite Ha, Hi in E.
      * injection Heq as _ Heq. now apply (IHd before c d after).
Qed.

(** Where the beat has the letters "ai", the normalised text has "AI", and
    the text before and the text after are normalised on their own. *)
Lemma replace_ai_anywhere_at (before : string) :
  forall c d after,
    is_a c = true -> is_i d = true ->
    replace_ai_anywhere (before ++ String c (String d after))
    = replace_ai_anywhere before ++ "AI" ++ replace_ai_anywhere after.
Proof.
  induction before as [| x | x y before IHs IHd] using string_pair_ind;
    intros c d after Ha Hi.
  - cbn [append]. rewrite replace_ai_anywhere_pair, Ha, Hi. reflexivity.
  - cbn [append]. rewrite replace_ai_anywhere_pair, (is_a_not_i c Ha), andb_false_r.
    rewrite replace_ai_anywhere_pair, Ha, Hi. reflexivity.
  - change (String x (String y before) ++ String c (String d after))
      with (String x (String y (before ++ String c (String d after)))).
    rewrite !replace_ai_anywhere_pair. destruct (is_a x && is_i y).
    + rewrite IHs by assumption. reflexivity.
    + change (String y (before ++ String c (String d after)))
        with (String y before ++ String c (String d after)).
      rewrite IHd by assumption. reflexivity.
Qed.

(** C10. Before the beat is condensed into the overlay, [createOverlay]
    writes every occurrence of the letters "ai" as "AI", whatever their case
    and also inside longer words; a beat with the word "maintain" can thus
    yield an overlay with "mAIntAIn". *)
Theorem createOverlay_uppercases_every_ai (voiceover keyword : string) :
  createOverlay voiceover keyword
  = (if truthy (condense (replace_ai_anywhere voiceover))
     then capitalize (condense (replace_ai_anywhere voiceover))
     else "Key idea: " ++ capitalize keyword)
  /\ every_ai_uppercase (replace_ai_anywhere voiceover)
  /\ toLowerCase (replace_ai_anywhere voiceover) = toLowerCase voiceover
  /\ (forall before c d after,
        voiceover = before ++ String c (String d after) ->
        is_a c = true -> is_i d = true ->
        replace_ai_anywhere voiceover
        = replace_ai_anywhere before ++ "AI" ++ replace_ai_anywhere after)
  /\ createOverlay "They maintain models" keyword = "They mAIntAIn models".
Proof.
  split; [reflexivity |]. split; [apply replace_ai_anywhere_spec |].
  split; [apply toLowerCase_replace_ai_anywhere |]. split; [| reflexivity].
  intros before c d after -> Ha Hi. now apply replace_ai_anywhere_at.
Qed.

(** ** The query parameters *)

(** C9, as the program has it. Reading back the query parameters built from
    a request whose six fields are well-formed strings gives the request
    itself, in all six fields, empty ones included; the aspect ratio and the
    keywords are written under the names that are read first,
    [aspect_ratio] and [keywords], and a value under such a name is the one
    that is read. *)
Theorem load_of_build_is_identity (form : ScriptForm) :
  well_formed_request form ->
  loadFormFromParams (Some (buildSearchParams form)) = form
  /\ URLSearchParams.get (buildSearchParams form) "aspect_ratio"
     = Some (aspectRatio form)
  /\ URLSearchParams.get (buildSearchParams form) "keywords"
     = Some (Form.keywords form)
  /\ (forall params value,
        URLSearchParams.get params "aspect_ratio" = Some value ->
        aspectRatio (loadFormFromParams (Some params)) = value)
  /\ (forall params value,
        URLSearchParams.get params "keywords" = Some value ->
        Form.keywords (loadFormFromParams (Some params)) = value).
Proof.
  intros (Ht & Hs & Ha & Hm & Hk & Hl). unfold well_formed in *.
  assert (Hload : loadFormFromParams (Some (buildSearchParams form)) = form).
  { unfold buildSearchParams, URLSearchParams.set.
    rewrite Ht, Hs, Ha, Hm, Hk, Hl. destruct form; reflexivity. }
  split; [exact Hload |].
  split; [unfold buildSearchParams, URLSearchParams.set; now rewrite Ha |].
  split; [unfold buildSearchParams, URLSearchParams.set; now rewrite Hk |].
  split; intros params value Hget; simpl; now rewrite Hget.
Qed.

(** C9, as stated: for every request.  The parameters hold well-formed
    strings only: a topic that is a high surrogate by itself is written as
    U+FFFD and read back as such. *)
Lemma lone_surrogate_is_not_read_back :
  topic LONE_SURROGATE_FORM = String 0xD800%N ""
  /\ topic (loadFormFromParams (Some (buildSearchParams LONE_SURROGATE_FORM)))
     = String 0xFFFD%N ""
  /\ loadFormFromParams (Some (buildSearchParams LONE_SURROGATE_FORM))
     <> LONE_SURROGATE_FORM.
Proof. split; [reflexivity |]. split; [reflexivity | discriminate]. Qed.

(** ** When a plan is returned *)

Lemma own_mood_key (key : string) (p : MoodProfile) :
  own_entry MOOD_PROFILES key = Some p -> mem key OBJECT_PROTOTYPE_KEYS = false.
Proof.
  unfold MOOD_PROFILES. cbn [own_entry].
  destruct (eqb_spec "calm" key) as [<- | _]; [reflexivity |].
  destruct (eqb_spec "energetic" key) as [<- | _]; [reflexivity |].
  destruct (eqb_spec "inspirational" key) as [<- | _]; [reflexivity |].
  discriminate.
Qed.

Lemma own_language_key (key label : string) :
  own_entry LANGUAGE_LABELS key = Some label -> mem key OBJECT_PROTOTYPE_KEYS = false.
Proof.
  unfold LANGUAGE_LABELS. cbn [own_entry].
  repeat match goal with
  | |- context [eqb ?k key] =>
      destruct (eqb_spec k key) as [<- | _]; [reflexivity |]
  end.
  discriminate.
Qed.

Lemma the_mood_own (form : ScriptForm) :
  (exists profile, the_mood form = Own profile)
  <-> mem (mood form) OBJECT_PROTOTYPE_KEYS = false.
Proof.
  unfold the_mood, read.
  destruct (own_entry MOOD_PROFILES (mood form)) as [p |] eqn:E.
  - apply own_mood_key in E. split; [intros _; exact E | intros _; now exists p].
  - destruct (mem (mood form) OBJECT_PROTOTYPE_KEYS); cbn [nullish].
    + split; [intros [p H]; discriminate H | discriminate].
    + split; [reflexivity | intros _; now exists calm].
Qed.

Lemma the_language_own (form : ScriptForm) :
  (exists label, the_language form = Own label)
  <-> mem (language form) OBJECT_PROTOTYPE_KEYS = false.
Proof.
  unfold the_language, read.
  destruct (own_entry LANGUAGE_LABELS (language form)) as [l |] eqn:E.
  - apply own_language_key in E. split; [intros _; exact E | intros _; now exists l].
  - destruct (mem (language form) OBJECT_PROTOTYPE_KEYS); cbn [nullish].
    + split; [intros [l H]; discriminate H | discriminate].
    + split; [reflexivity | intros _; now exists "English"].
Qed.

Lemma createVisualDirection_own (v k : string) (m : MoodProfile)
  (ap : lookup AspectConcept) :
  exists text, createVisualDirection v k (Own m) ap = Ok text.
Proof.
  unfold createVisualDirection.
  repeat match goal with
  | |- context [if ?b then _ else _] => destruct b; [eexists; reflexivity |]
  end.
  eexists; reflexivity.
Qed.

Lemma planScene_own beats kws (m : MoodProfile) ap (v : string) (i : nat) :
  exists scene, planScene beats kws (Own m) ap v i = Ok scene.
Proof.
  unfold planScene.
  destruct (createVisualDirection_own v (selectKeywordForScene v kws i) m ap)
    as [text ->].
  simpl. eexists; reflexivity.
Qed.

Lemma bind_ok {A B : Type} (a : A) (k : A -> result B) : bind (Ok a) k = k a.
Proof. reflexivity. Qed.

Lemma element_first {A : Type} (l : list A) :
  l <> [] -> exists a, element l 0 = Ok a.
Proof. destruct l as [|a l]; [congruence | intros _; now exists a]. Qed.

Lemma element_last {A : Type} (l : list A) :
  l <> [] -> exists a, element l (List.length l - 1) = Ok a.
Proof.
  intros Hne. unfold element.
  destruct (nth_error l (List.length l - 1)) as [a |] eqn:E; [now exists a |].
  apply nth_error_None in E. destruct l; [congruence | simpl in E; lia].
Qed.

(** A plan is returned exactly when neither the mood nor the language of the
    request names a member of [Object.prototype]. *)
Lemma generateVideoScript_returns_iff (form : ScriptForm) :
  (exists plan, generateVideoScript form = Ok plan)
  <-> mem (mood form) OBJECT_PROTOTYPE_KEYS = false
      /\ mem (language form) OBJECT_PROTOTYPE_KEYS = false.
Proof.
  split.
  - intros [plan H].
    destruct (generateVideoScript_inv _ _ H) as (p & l & Hm & Hl & _). split.
    + apply the_mood_own. now exists p.
    + apply the_language_own. now exists l.
  - intros [Hm Hl]. apply the_mood_own in Hm as [p Hm].
    apply the_language_own in Hl as [l Hl].
    unfold generateVideoScript.
    change (nullish (read MOOD_PROFILES (mood form)) DEFAULT_MOOD_PROFILE)
      with (the_mood form).
    change (nullish (read LANGUAGE_LABELS (language form)) (Own "English"))
      with (the_language form).
    cbv zeta. rewrite Hm, Hl.
    match goal with
    | |- context [map_indexed ?f 0 ?beats] =>
        destruct (map_indexed_total f beats
                    (fun a i _ => planScene_own _ _ p _ a i) 0) as [scenes Hs];
        pose proof (parseStoryBeats_not_nil
                      (trim (filter_chars (fun c => negb (is_carriage_return c))
                               (story form)))) as Hne;
        destruct (map_indexed_nth _ _ _ _ Hs) as [Hlen _];
        rewrite Hs
    end.
    assert (Hscenes : scenes <> []).
    { intros ->. simpl in Hlen. symmetry in Hlen.
      now apply length_zero_iff_nil in Hlen. }
    destruct (element_first scenes Hscenes) as [opening Ho].
    destruct (element_last scenes Hscenes) as [closing Hc].
    rewrite bind_ok. cbn [string_receiver]. rewrite bind_ok, Ho, bind_ok, Hc, bind_ok.
    cbn [audio_receiver]. rewrite bind_ok. eexists; reflexivity.
Qed.

(** C1, at a request whose mood names an inherited member: building the plan
    raises a [TypeError] instead of falling back to the calm profile. *)
Theorem generateVideoScript_throws_on_inherited_mood :
  generateVideoScript CONSTRUCTOR_MOOD_FORM = Throw.
Proof. vm_compute. reflexivity. Qed.

(** ** Resolving the profiles *)

Lemma unknown_keys_resolve_to_defaults (form : ScriptForm) :
  (own_entry MOOD_PROFILES (mood form) = None ->
   mem (mood form) OBJECT_PROTOTYPE_KEYS = false ->
   the_mood form = Own calm)
  /\ (own_entry ASPECT_GUIDANCE (aspectRatio form) = None ->
      mem (aspectRatio form) OBJECT_PROTOTYPE_KEYS = false ->
      the_aspect form = Own landscape)
  /\ (own_entry LANGUAGE_LABELS (language form) = None ->
      mem (language form) OBJECT_PROTOTYPE_KEYS = false ->
      the_language form = Own "English").
Proof.
  unfold the_mood, the_aspect, the_language, read.
  repeat split; intros -> ->; reflexivity.
Qed.

(** C5, at the mood key "constructor", which is none of calm, energetic and
    inspirational: the key resolves to the member every object inherits, not
    to the calm profile, and that member has none of the profile's fields. *)
Theorem inherited_mood_key_is_not_calm :
  the_mood CONSTRUCTOR_MOOD_FORM = Inherited "constructor"
  /\ the_mood CONSTRUCTOR_MOOD_FORM <> Own calm
  /\ field pacing (the_mood CONSTRUCTOR_MOOD_FORM) = None
  /\ field audio (the_mood CONSTRUCTOR_MOOD_FORM) = None.
Proof. repeat split. discriminate. Qed.

(** ** The title *)

Lemma plan_title (form : ScriptForm) (plan : Script.VideoScript) :
  generateVideoScript form = Ok plan ->
  exists profile,
    the_mood form = Own profile
    /\ Script.title plan
       = topic form ++ TITLE_SEPARATOR ++ capitalize (voiceTone profile).
Proof.
  intros H. destruct (generateVideoScript_inv _ _ H) as (p & _ & Hm & _ & _ & _ & Ht & _).
  now exists p.
Qed.

(** C8, at the default request: between the topic and the voice tone the
    title holds the three characters the source file has there, U+00E2,
    U+20AC and U+201D, which are what an em dash becomes when its bytes are
    read in a one-byte encoding, and not the em dash. *)
Theorem title_of_default_form_has_no_em_dash :
  exists plan,
    generateVideoScript DEFAULT_FORM = Ok plan
    /\ Script.title plan
       = "How AI Works" ++ TITLE_SEPARATOR ++ "Warm, reassuring narration"
    /\ Script.title plan
       <> "How AI Works" ++ " " ++ EM_DASH ++ " " ++ "Warm, reassuring narration"
    /\ TITLE_SEPARATOR = of_utf8 TITLE_SEPARATOR_BYTES
    /\ TITLE_SEPARATOR
       = String " " (String 0xE2%N (String 0x20AC%N (String 0x201D%N " ")))
    /\ TITLE_SEPARATOR_BYTES = [32; 195; 162; 226; 130; 172; 226; 128; 157; 32]%N.
Proof.
  eexists. split; [vm_compute; reflexivity |].
  split; [reflexivity |]. split; [discriminate |]. repeat split.
Qed.

(** * The theorems at sample requests *)

(** The duration of the scene of [UPKEEP_PLAN]. *)
Lemma scene_duration_is_clamped_estimate_witness :
  generateVideoScript UPKEEP_FORM = Ok UPKEEP_PLAN
  /\ In UPKEEP_SCENE (Script.scenes UPKEEP_PLAN)
  /\ exists estimate seconds,
       nearest_integer (10 * words_in (voiceover UPKEEP_SCENE)) 27 estimate
       /\ clamped 4 9 estimate seconds
       /\ 4 <= seconds <= 9
       /\ duration UPKEEP_SCENE = String (digit seconds) "s".
Proof.
  split; [vm_compute; reflexivity |]. split; [left; reflexivity |].
  apply (scene_duration_is_clamped_estimate UPKEEP_FORM UPKEEP_PLAN UPKEEP_SCENE).
  - vm_compute; reflexivity.
  - left; reflexivity.
Defined.

(** The label of the only scene of [UPKEEP_PLAN]. *)
Lemma scene_label_follows_first_rule_witness :
  generateVideoScript UPKEEP_FORM = Ok UPKEEP_PLAN
  /\ nth_error (Script.scenes UPKEEP_PLAN) 0 = Some UPKEEP_SCENE
  /\ label_rule 0 (List.length (Script.scenes UPKEEP_PLAN))
       (voiceover UPKEEP_SCENE) (label UPKEEP_SCENE)
  /\ (List.length (Script.scenes UPKEEP_PLAN) = 1 ->
      label UPKEEP_SCENE = "Opening Hook").
Proof.
  split; [vm_compute; reflexivity |]. split; [reflexivity |].
  apply (scene_label_follows_first_rule UPKEEP_FORM UPKEEP_PLAN 0 UPKEEP_SCENE).
  - vm_compute; reflexivity.
  - reflexivity.
Defined.

(** The scenes of [BLANK_PLAN], whose story is two spaces. *)
Lemma blank_story_yields_default_narrative_witness :
  all_chars is_space (story BLANK_FORM) = true
  /\ generateVideoScript BLANK_FORM = Ok BLANK_PLAN
  /\ List.length (Script.scenes BLANK_PLAN) = 3
  /\ map voiceover (Script.scenes BLANK_PLAN) = DEFAULT_BEATS
  /\ (forall request : ScriptForm,
        parseStoryBeats (the_trimmed_story request) <> []).
Proof.
  split; [reflexivity |]. split; [vm_compute; reflexivity |].
  apply (blank_story_yields_default_narrative BLANK_FORM BLANK_PLAN).
  - reflexivity.
  - vm_compute; reflexivity.
Defined.

(** The keyword list of [UPKEEP_PLAN]. *)
Lemma keywords_are_supplied_then_most_frequent_witness :
  generateVideoScript UPKEEP_FORM = Ok UPKEEP_PLAN
  /\ exists pieces tokens derived,
       let supplied := map toLowerCase (filter truthy (map trim pieces)) in
       runs is_keyword_separator (Form.keywords UPKEEP_FORM) pieces
       /\ runs is_no_token
            (toLowerCase (topic UPKEEP_FORM ++ ". " ++ the_trimmed_story UPKEEP_FORM))
            tokens
       /\ most_frequent 8 (filter is_keyword tokens) derived
       /\ Script.keywords UPKEEP_PLAN
          = map (replace_ai_word false) (keep_first (supplied ++ derived)%list)
       /\ map toLowerCase (Script.keywords UPKEEP_PLAN)
          = keep_first (supplied ++ derived)%list
       /\ NoDup (map toLowerCase (Script.keywords UPKEEP_PLAN))
       /\ List.length (Script.keywords UPKEEP_PLAN) <= List.length supplied + 8.
Proof.
  split; [vm_compute; reflexivity |].
  apply (keywords_are_supplied_then_most_frequent UPKEEP_FORM UPKEEP_PLAN).
  vm_compute; reflexivity.
Defined.

(** The entry "AI tools" of [UPKEEP_PLAN], supplied as "ai tools". *)
Lemma whole_word_ai_is_uppercase_witness :
  generateVideoScript UPKEEP_FORM = Ok UPKEEP_PLAN
  /\ In "AI tools" (Script.keywords UPKEEP_PLAN)
  /\ every_ai_word_uppercase "AI tools"
  /\ every_inner_ai_lowercase "AI tools".
Proof.
  split; [vm_compute; reflexivity |]. split; [right; left; reflexivity |].
  apply (whole_word_ai_is_uppercase UPKEEP_FORM UPKEEP_PLAN "AI tools").
  - vm_compute; reflexivity.
  - right; left; reflexivity.
Defined.


(** The query parameters of [UPKEEP_FORM]. *)
Lemma load_of_build_is_identity_witness :
  well_formed_request UPKEEP_FORM
  /\ loadFormFromParams (Some (buildSearchParams UPKEEP_FORM)) = UPKEEP_FORM
  /\ URLSearchParams.get (buildSearchParams UPKEEP_FORM) "aspect_ratio"
     = Some (aspectRatio UPKEEP_FORM)
  /\ URLSearchParams.get (buildSearchParams UPKEEP_FORM) "keywords"
     = Some (Form.keywords UPKEEP_FORM)
  /\ (forall params value,
        URLSearchParams.get params "aspect_ratio" = Some value ->
        aspectRatio (loadFormFromParams (Some params)) = value)
  /\ (forall params value,
        URLSearchParams.get params "keywords" = Some value ->
        Form.keywords (loadFormFromParams (Some params)) = value).
Proof.
  assert (H : well_formed_request UPKEEP_FORM) by (repeat split).
  split; [exact H |]. exact (load_of_build_is_identity UPKEEP_FORM H).
Defined.

(** * Further properties of the generator *)

(** ** Pieces of a split *)

Lemma joined_cons (x : string) (xs : list string) : joined (x :: xs) = x ++ joined xs.
Proof.
  unfold joined. destruct xs as [|y ys]; simpl; [now rewrite append_empty | reflexivity].
Qed.

Lemma joined_cons_head (c : code_unit) (r : list string) :
  joined (cons_head c r) = String c (joined r).
Proof. destruct r as [|p ps]; [reflexivity |]. simpl cons_head. now rewrite !joined_cons. Qed.

Lemma joined_app (a b : list string) : joined (a ++ b)%list = joined a ++ joined b.
Proof.
  induction a as [|x a IH]; [reflexivity |].
  simpl app. rewrite !joined_cons, IH.
  clear. induction x as [|c x IH]; simpl; [reflexivity | now rewrite IH].
Qed.

Lemma joined_filter_truthy (l : list string) : joined (filter truthy l) = joined l.
Proof.
  induction l as [|x l IH]; [reflexivity |]. simpl filter.
  destruct x as [|c x]; simpl truthy; cbv iota; rewrite !joined_cons; now rewrite IH.
Qed.

Lemma filter_chars_app (p : code_unit -> bool) (a b : string) :
  filter_chars p (a ++ b) = filter_chars p a ++ filter_chars p b.
Proof.
  induction a as [|c a IH]; simpl; [reflexivity |].
  destruct (p c); simpl; now rewrite IH.
Qed.

Lemma filter_chars_twice (p q : code_unit -> bool) (s : string) :
  (forall c, p c = true -> q c = true) ->
  filter_chars p (filter_chars q s) = filter_chars p s.
Proof.
  intros Hpq. induction s as [|c s IH]; simpl; [reflexivity |].
  destruct (q c) eqn:Hq; simpl.
  - now rewrite IH.
  - destruct (p c) eqn:Hp; [| exact IH]. rewrite (Hpq c Hp) in Hq. discriminate.
Qed.

Section Pieces.

Variable sep : code_unit -> bool.

(** The pieces of a split, put together, are the text without its
    separators. *)
Lemma joined_split_runs (s : string) :
  joined (split_runs sep s) = filter_chars (fun c => negb (sep c)) s.
Proof.
  induction s as [|c s IH]; [reflexivity |]. simpl.
  destruct (sep c) eqn:Hc; simpl.
  - destruct (head_is sep s); [exact IH | now rewrite joined_cons].
  - now rewrite joined_cons_head, IH.
Qed.

End Pieces.

(** ** Trimming *)

Lemma letters_drop_spaces (s : string) : letters (drop_while is_space s) = letters s.
Proof.
  unfold letters. induction s as [|c s IH]; simpl; [reflexivity |].
  destruct (is_space c) eqn:Hc; simpl; [exact IH | now rewrite Hc].
Qed.

Lemma trimEnd_nil_blank (s : string) : trimEnd s = "" -> letters s = "".
Proof.
  unfold letters. induction s as [|c s IH]; simpl; [reflexivity |].
  destruct (trimEnd s) as [|d t]; [| discriminate].
  destruct (is_space c); [intros _; now apply IH | discriminate].
Qed.

Lemma letters_trimEnd (s : string) : letters (trimEnd s) = letters s.
Proof.
  induction s as [|c s IH]; [reflexivity |]. simpl trimEnd.
  destruct (trimEnd s) as [|d t] eqn:E.
  - pose proof (trimEnd_nil_blank s E) as Hs. unfold letters in *.
    destruct (is_space c) eqn:Hc; cbn [filter_chars]; rewrite Hc, Hs; reflexivity.
  - unfold letters in *. cbn [filter_chars] in *. now rewrite IH.
Qed.

Lemma letters_trim (s : string) : letters (trim s) = letters s.
Proof. unfold trim, trimStart. now rewrite letters_trimEnd, letters_drop_spaces. Qed.

Lemma trimEnd_idempotent (s : string) : trimEnd (trimEnd s) = trimEnd s.
Proof.
  induction s as [|c s IH]; [reflexivity |]. simpl trimEnd at 2 3.
  destruct (trimEnd s) as [|d t] eqn:E.
  - destruct (is_space c) eqn:Hc; [reflexivity |]. simpl. now rewrite Hc.
  - change (trimEnd (String c (String d t))) with
      (match trimEnd (String d t) with
       | "" => if is_space c then "" else String c ""
       | u => String c u
       end).
    now rewrite IH.
Qed.

Lemma trimEnd_head (s : string) :
  head_is is_space s = false -> head_is is_space (trimEnd s) = false.
Proof.
  destruct s as [|c s]; [reflexivity |]. simpl. intros Hc. rewrite Hc.
  destruct (trimEnd s); simpl; exact Hc.
Qed.

Lemma drop_while_fixed (p : code_unit -> bool) (s : string) :
  head_is p s = false -> drop_while p s = s.
Proof. destruct s as [|c s]; [reflexivity |]. simpl. now intros ->. Qed.

Lemma trim_idempotent (s : string) : trim (trim s) = trim s.
Proof.
  unfold trim, trimStart.
  rewrite (drop_while_fixed is_space (trimEnd _)).
  - apply trimEnd_idempotent.
  - apply trimEnd_head, drop_while_head.
Qed.

Lemma all_chars_drop_while (p q : code_unit -> bool) (s : string) :
  all_chars p s = true -> all_chars p (drop_while q s) = true.
Proof.
  induction s as [|c s IH]; simpl; [reflexivity |].
  rewrite andb_true_iff. intros [Hc Hs].
  destruct (q c); [now apply IH | simpl; now rewrite Hc, Hs].
Qed.

Lemma all_chars_trimEnd (p : code_unit -> bool) (s : string) :
  all_chars p s = true -> all_chars p (trimEnd s) = true.
Proof.
  induction s as [|c s IH]; simpl; [reflexivity |].
  rewrite andb_true_iff. intros [Hc Hs]. specialize (IH Hs).
  destruct (trimEnd s) as [|d t].
  - destruct (is_space c); [reflexivity | simpl; now rewrite Hc].
  - simpl in *. now rewrite Hc, IH.
Qed.

Lemma all_chars_trim (p : code_unit -> bool) (s : string) :
  all_chars p s = true -> all_chars p (trim s) = true.
Proof. intros H. now apply all_chars_trimEnd, all_chars_drop_while. Qed.

Lemma trimEnd_last (s : string) : last_is is_space (trimEnd s) = false.
Proof.
  induction s as [|c s IH]; [reflexivity |]. simpl trimEnd.
  destruct (trimEnd s) as [|d t].
  - destruct (is_space c) eqn:Hc; [reflexivity | simpl; exact Hc].
  - exact IH.
Qed.

(** ** The beats of a story *)

Lemma letters_app (a b : string) : letters (a ++ b) = letters a ++ letters b.
Proof. apply filter_chars_app. Qed.

Lemma letters_split_sentences (s : string) :
  forall after_end, letters (joined (split_sentences after_end s)) = letters s.
Proof.
  induction s as [|c s IH]; intros after_end; [reflexivity |].
  simpl split_sentences.
  destruct (is_space c && after_end && upper_after_spaces s) eqn:E.
  - rewrite !andb_true_iff in E. destruct E as [[Hc _] _].
    assert (Hs : letters (String c s) = letters s)
      by (unfold letters; simpl; now rewrite Hc).
    rewrite Hs. destruct (head_is is_space s); [apply IH |].
    rewrite joined_cons. apply IH.
  - rewrite joined_cons_head. unfold letters in *. simpl. now rewrite IH.
Qed.

Lemma split_sentences_all_chars (p : code_unit -> bool) (s : string) :
  all_chars p s = true ->
  forall after_end,
    Forall (fun piece => all_chars p piece = true) (split_sentences after_end s).
Proof.
  induction s as [|c s IH]; simpl; intros Hall after_end.
  - now repeat constructor.
  - apply andb_true_iff in Hall as [Hc Hs].
    destruct (is_space c && after_end && upper_after_spaces s).
    + destruct (head_is is_space s); [now apply IH |].
      constructor; [reflexivity | now apply IH].
    + apply all_chars_cons_head; [exact Hc | now apply IH].
Qed.

Lemma letters_trimmed_pieces (l : list string) :
  letters (joined (filter truthy (map trim l))) = letters (joined l).
Proof.
  rewrite joined_filter_truthy. induction l as [|x l IH]; [reflexivity |].
  simpl map. rewrite !joined_cons, !letters_app, IH, letters_trim. reflexivity.
Qed.

Lemma letters_sentences_of_lines (lines : list string) :
  letters (joined (flat_map
             (fun paragraph =>
                filter truthy (map trim (split_sentences false paragraph)))
             lines))
  = letters (joined lines).
Proof.
  induction lines as [|line lines IH]; [reflexivity |].
  simpl flat_map. rewrite joined_app, joined_cons, !letters_app, IH.
  now rewrite letters_trimmed_pieces, letters_split_sentences.
Qed.

Lemma not_space_not_newline (c : code_unit) :
  negb (is_space c) = true -> negb (is_newline c) = true.
Proof. char_classes. intros H. char_cases. Qed.

Lemma letters_lines (story : string) :
  letters (joined (filter truthy (map trim (split_runs is_newline story))))
  = letters story.
Proof.
  rewrite letters_trimmed_pieces, joined_split_runs. unfold letters.
  apply filter_chars_twice. exact not_space_not_newline.
Qed.

(** Splitting a story into beats only drops whitespace: a story that holds
    nothing but whitespace gets the default narrative, and the beats of any
    other story, put together, show the characters of the story that are not
    whitespace, in their order. *)
Theorem beats_keep_the_text_of_the_story (story : string) :
  (letters story = "" -> parseStoryBeats story = DEFAULT_BEATS)
  /\ (letters story <> "" ->
      letters (joined (parseStoryBeats story)) = letters story).
Proof.
  unfold parseStoryBeats. pose proof (letters_lines story) as Hlines.
  destruct (filter truthy (map trim (split_runs is_newline story)))
    as [|line lines] eqn:E.
  - split; [reflexivity |]. intros Hne. now rewrite <- Hlines in Hne.
  - assert (Hline : letters line <> "").
    { assert (Hin : In line (filter truthy (map trim (split_runs is_newline story))))
        by (rewrite E; now left).
      apply filter_In in Hin as [Hin Htruthy].
      apply in_map_iff in Hin as (raw & Hraw & _).
      destruct line as [|c t]; [discriminate Htruthy |].
      apply trim_head in Hraw. unfold letters. simpl. rewrite Hraw. discriminate. }
    assert (Hstory : letters story <> "").
    { rewrite <- Hlines, joined_cons, letters_app. intros H.
      destruct (letters line); [congruence | discriminate H]. }
    split; [intros H; contradiction |]. intros _.
    now rewrite letters_sentences_of_lines.
Qed.

Lemma trim_is_trimmed (x : string) :
  trim (trim x) = trim x
  /\ head_is is_space (trim x) = false
  /\ last_is is_space (trim x) = false.
Proof.
  split; [apply trim_idempotent |]. unfold trim, trimStart. split.
  - apply trimEnd_head, drop_while_head.
  - apply trimEnd_last.
Qed.

(** Every beat is a non-empty text that neither starts nor ends with
    whitespace and holds no line break. *)
Theorem beats_are_trimmed_lines (story beat : string) :
  In beat (parseStoryBeats story) ->
  beat <> ""
  /\ trim beat = beat
  /\ head_is is_space beat = false
  /\ last_is is_space beat = false
  /\ all_chars (fun c => negb (is_newline c)) beat = true.
Proof.
  unfold parseStoryBeats.
  destruct (filter truthy (map trim (split_runs is_newline story)))
    as [|line lines] eqn:E.
  - intros [<- | [<- | [<- | []]]]; repeat split; discriminate.
  - rewrite <- E. clear E line lines. rewrite in_flat_map.
    intros (paragraph & Hpar & Hbeat).
    apply filter_In in Hpar as [Hpar _].
    apply in_map_iff in Hpar as (raw & <- & Hraw).
    apply filter_In in Hbeat as [Hbeat Htruthy].
    apply in_map_iff in Hbeat as (piece & <- & Hpiece).
    destruct (trim_is_trimmed piece) as (Hidem & Hhead & Hlast).
    split; [intros Hnil; rewrite Hnil in Htruthy; discriminate |].
    repeat split; try assumption.
    apply all_chars_trim.
    pose proof (split_runs_no_sep is_newline story) as Hraws.
    rewrite Forall_forall in Hraws. specialize (Hraws raw Hraw).
    pose proof (split_sentences_all_chars _ (trim raw)
                  (all_chars_trim _ raw Hraws) false) as Hpieces.
    rewrite Forall_forall in Hpieces. now apply Hpieces.
Qed.

(** The beats of "  Hi there. Go on  ", at its first beat. *)
Lemma beats_are_trimmed_lines_witness :
  In "Hi there." (parseStoryBeats "  Hi there. Go on  ")
  /\ "Hi there." <> ""
  /\ trim "Hi there." = "Hi there."
  /\ head_is is_space "Hi there." = false
  /\ last_is is_space "Hi there." = false
  /\ all_chars (fun c => negb (is_newline c)) "Hi there." = true.
Proof.
  split; [left; reflexivity |].
  apply (beats_are_trimmed_lines "  Hi there. Go on  " "Hi there.").
  left; reflexivity.
Defined.

(** ** The shape of a returned plan *)

Lemma generateVideoScript_parts (form : ScriptForm) (plan : Script.VideoScript) :
  generateVideoScript form = Ok plan ->
  exists scenes languageText opening closing profile,
    map_indexed
      (planScene (the_beats form) (the_keywords form) (the_mood form) (the_aspect form))
      0 (the_beats form) = Ok scenes
    /\ the_language form = Own languageText
    /\ element scenes 0 = Ok opening
    /\ element scenes (List.length scenes - 1) = Ok closing
    /\ the_mood form = Own profile
    /\ Script.scenes plan = scenes
    /\ Script.hook plan
       = hookVerb profile ++ " viewers with: " ++ quote ++ voiceover opening ++ quote
    /\ Script.callToAction plan
       = "Close by reinforcing " ++ quote ++ voiceover closing ++ quote
         ++ " and invite viewers to explore how they can apply AI in everyday workflows."
    /\ Script.subtitle plan
       = "A " ++ toLowerCase languageText ++ " explainer crafted for a "
         ++ aspectRatio form ++ " frame."
    /\ Script.aspectRatio plan = aspectRatio form
    /\ Script.mood plan = mood form
    /\ Script.productionNotes plan
       = [ field safeZone (the_aspect form);
           Some ("Underscore narration with " ++ toLowerCase (audio profile)
                 ++ " mixed at -18 LUFS for clarity.");
           Some ("Animate key phrases like "
                 ++ JsString.concat ", " (map capitalize (firstn 3 (the_keywords form)))
                 ++ " using " ++ motion profile ++ ".") ].
Proof.
  unfold generateVideoScript.
  change (trim (filter_chars (fun c => negb (is_carriage_return c)) (story form)))
    with (the_trimmed_story form).
  change (parseStoryBeats (the_trimmed_story form)) with (the_beats form).
  change (deriveKeywords (topic form) (the_trimmed_story form) (Form.keywords form))
    with (the_keywords form).
  change (nullish (read MOOD_PROFILES (mood form)) DEFAULT_MOOD_PROFILE)
    with (the_mood form).
  change (nullish (read ASPECT_GUIDANCE (aspectRatio form)) DEFAULT_ASPECT_GUIDANCE)
    with (the_aspect form).
  change (nullish (read LANGUAGE_LABELS (language form)) (Own "English"))
    with (the_language form).
  cbv zeta.
  destruct (map_indexed _ 0 (the_beats form)) as [scenes |]; simpl; [| discriminate].
  destruct (the_language form) as [languageText | inherited]; simpl; [| discriminate].
  destruct (element scenes 0) as [opening |] eqn:Ho; simpl; [| discriminate].
  destruct (element scenes (List.length scenes - 1)) as [closing |] eqn:Hc; simpl;
    [| discriminate].
  destruct (the_mood form) as [profile | inherited]; simpl; [| discriminate].
  intros [= <-]. exists scenes, languageText, opening, closing, profile.
  simpl. repeat split; assumption || reflexivity.
Qed.

Lemma scene_ids_from (beats kws : list string) mp ap (items : list string) :
  forall start out,
    map_indexed (planScene beats kws mp ap) start items = Ok out ->
    map id out = seq (start + 1) (List.length items)
    /\ map voiceover out = items.
Proof.
  induction items as [|a items IH]; intros start out; simpl.
  - intros [= <-]. now split.
  - destruct (planScene beats kws mp ap a start) as [b |] eqn:Hb; simpl; [| discriminate].
    destruct (map_indexed (planScene beats kws mp ap) (S start) items) as [bs |] eqn:Hbs;
      simpl; [| discriminate].
    intros [= <-]. apply planScene_inv in Hb as (Hid & _ & Hv & _).
    destruct (IH _ _ Hbs) as [Hids Hvs]. simpl. rewrite Hid, Hv, Hids, Hvs.
    split; reflexivity.
Qed.

(** The scenes of a plan follow the beats of the story: one scene per beat
    and at least one, numbered from 1 in order, each with its beat as the
    voiceover. *)
Theorem scenes_follow_the_beats (form : ScriptForm) (plan : Script.VideoScript) :
  generateVideoScript form = Ok plan ->
  1 <= List.length (Script.scenes plan)
  /\ List.length (Script.scenes plan)
     = List.length (parseStoryBeats (the_trimmed_story form))
  /\ map id (Script.scenes plan) = seq 1 (List.length (Script.scenes plan))
  /\ map voiceover (Script.scenes plan) = parseStoryBeats (the_trimmed_story form).
Proof.
  intros Hplan.
  destruct (generateVideoScript_parts _ _ Hplan)
    as (scenes & _ & _ & _ & _ & Hs & _ & _ & _ & _ & -> & _).
  destruct (scene_ids_from _ _ _ _ _ _ _ Hs) as [Hids Hvs].
  assert (Hlen : List.length scenes = List.length (the_beats form)).
  { rewrite <- Hvs. symmetry. apply length_map. }
  pose proof (parseStoryBeats_not_nil (the_trimmed_story form)) as Hne.
  fold (the_beats form) in Hne |- *.
  split; [| split; [exact Hlen | split; [now rewrite Hlen | exact Hvs]]].
  rewrite Hlen. destruct (the_beats form); [congruence | simpl; lia].
Qed.

Lemma scenes_follow_the_beats_witness :
  generateVideoScript BLANK_FORM = Ok BLANK_PLAN
  /\ 1 <= List.length (Script.scenes BLANK_PLAN)
  /\ List.length (Script.scenes BLANK_PLAN)
     = List.length (parseStoryBeats (the_trimmed_story BLANK_FORM))
  /\ map id (Script.scenes BLANK_PLAN) = seq 1 (List.length (Script.scenes BLANK_PLAN))
  /\ map voiceover (Script.scenes BLANK_PLAN)
     = parseStoryBeats (the_trimmed_story BLANK_FORM).
Proof.
  split; [vm_compute; reflexivity |].
  apply (scenes_follow_the_beats BLANK_FORM BLANK_PLAN).
  vm_compute; reflexivity.
Defined.

Lemma element_nth {A : Type} (l : list A) (i : nat) (a : A) :
  element l i = Ok a -> nth_error l i = Some a.
Proof. unfold element. destruct (nth_error l i); [now intros [= ->] | discriminate]. Qed.

(** The hook of a plan quotes the first beat of the story after the hook verb
    of the mood, and the call to action quotes the last beat. *)
Theorem hook_and_call_to_action_quote_the_ends (form : ScriptForm)
  (plan : Script.VideoScript) :
  generateVideoScript form = Ok plan ->
  exists profile first last,
    the_mood form = Own profile
    /\ nth_error (parseStoryBeats (the_trimmed_story form)) 0 = Some first
    /\ nth_error (parseStoryBeats (the_trimmed_story form))
         (List.length (parseStoryBeats (the_trimmed_story form)) - 1) = Some last
    /\ Script.hook plan
       = hookVerb profile ++ " viewers with: " ++ quote ++ first ++ quote
    /\ Script.callToAction plan
       = "Close by reinforcing " ++ quote ++ last ++ quote
         ++ " and invite viewers to explore how they can apply AI in everyday workflows.".
Proof.
  intros Hplan.
  destruct (generateVideoScript_parts _ _ Hplan)
    as (scenes & l & opening & closing & profile
        & Hs & _ & Ho & Hc & Hm & _ & Hhook & Hcall & _).
  destruct (scene_ids_from _ _ _ _ _ _ _ Hs) as [_ Hvs].
  apply element_nth in Ho, Hc.
  assert (Hlen : List.length scenes = List.length (the_beats form)).
  { rewrite <- Hvs. symmetry. apply length_map. }
  exists profile, (voiceover opening), (voiceover closing).
  fold (the_beats form). rewrite <- Hlen, <- Hvs, !nth_error_map, Ho, Hc.
  repeat split; assumption || reflexivity.
Qed.

Lemma hook_and_call_to_action_quote_the_ends_witness :
  generateVideoScript BLANK_FORM = Ok BLANK_PLAN
  /\ exists profile first last,
       the_mood BLANK_FORM = Own profile
       /\ nth_error (parseStoryBeats (the_trimmed_story BLANK_FORM)) 0 = Some first
       /\ nth_error (parseStoryBeats (the_trimmed_story BLANK_FORM))
            (List.length (parseStoryBeats (the_trimmed_story BLANK_FORM)) - 1)
          = Some last
       /\ Script.hook BLANK_PLAN
          = hookVerb profile ++ " viewers with: " ++ quote ++ first ++ quote
       /\ Script.callToAction BLANK_PLAN
          = "Close by reinforcing " ++ quote ++ last ++ quote
            ++ " and invite viewers to explore how they can apply AI in everyday workflows.".
Proof.
  split; [vm_compute; reflexivity |].
  apply (hook_and_call_to_action_quote_the_ends BLANK_FORM BLANK_PLAN).
  vm_compute; reflexivity.
Defined.

(** ** The settings of a returned plan *)

Lemma own_mood_profile (key : string) (p : MoodProfile) :
  own_entry MOOD_PROFILES key = Some p -> In p [calm; energetic; inspirational].
Proof.
  unfold MOOD_PROFILES. cbn [own_entry].
  repeat match goal with
  | |- context [eqb ?k key] => destruct (eqb k key)
  end; intros [= <-]; simpl; auto.
Qed.

Lemma own_language_label (key label : string) :
  own_entry LANGUAGE_LABELS key = Some label -> In label (map snd LANGUAGE_LABELS).
Proof.
  unfold LANGUAGE_LABELS. cbn [own_entry].
  repeat match goal with
  | |- context [eqb ?k key] => destruct (eqb k key)
  end; intros [= <-]; simpl; auto 10.
Qed.

(** A returned plan repeats the mood and the aspect ratio of the request; its
    pacing, audio and three colours are those of the profile the mood names
    in the table, or of the calm profile when it names none; its language is
    the label of the language code, or "English" when the code is not in the
    table; and it has three production notes. *)
Theorem plan_settings_come_from_the_tables (form : ScriptForm)
  (plan : Script.VideoScript) :
  generateVideoScript form = Ok plan ->
  Script.mood plan = mood form
  /\ Script.aspectRatio plan = aspectRatio form
  /\ (exists profile,
        In profile [calm; energetic; inspirational]
        /\ (own_entry MOOD_PROFILES (mood form) = Some profile
            \/ (own_entry MOOD_PROFILES (mood form) = None /\ profile = calm))
        /\ Script.pacing plan = pacing profile
        /\ Script.audioRecommendation plan = audio profile
        /\ Script.colorPalette plan = colorPalette profile
        /\ List.length (Script.colorPalette plan) = 3)
  /\ In (Script.language plan) (map snd LANGUAGE_LABELS)
  /\ (own_entry LANGUAGE_LABELS (language form) = Some (Script.language plan)
      \/ (own_entry LANGUAGE_LABELS (language form) = None
          /\ Script.language plan = "English"))
  /\ List.length (Script.productionNotes plan) = 3.
Proof.
  intros Hplan.
  destruct (generateVideoScript_inv _ _ Hplan)
    as (profile & label & Hm & Hl & _ & _ & _ & Hlang & Hp & Ha & Hc).
  destruct (generateVideoScript_parts _ _ Hplan)
    as (scenes & label' & opening & closing & profile'
        & _ & _ & _ & _ & _ & _ & _ & _ & _ & Har & Hmood & Hnotes).
  split; [exact Hmood |]. split; [exact Har |].
  assert (Hprofile : own_entry MOOD_PROFILES (mood form) = Some profile
                     \/ (own_entry MOOD_PROFILES (mood form) = None /\ profile = calm)).
  { unfold the_mood, read in Hm.
    destruct (own_entry MOOD_PROFILES (mood form)) as [p |]; [left |].
    - cbn [nullish] in Hm. congruence.
    - right. destruct (mem (mood form) OBJECT_PROTOTYPE_KEYS); cbn [nullish] in Hm;
        [discriminate Hm |].
      unfold DEFAULT_MOOD_PROFILE in Hm. split; congruence. }
  assert (Hin : In profile [calm; energetic; inspirational]).
  { destruct Hprofile as [H | [_ ->]]; [now apply own_mood_profile in H | now left]. }
  assert (Hlabel : own_entry LANGUAGE_LABELS (language form) = Some label
                   \/ (own_entry LANGUAGE_LABELS (language form) = None
                       /\ label = "English")).
  { unfold the_language, read in Hl.
    destruct (own_entry LANGUAGE_LABELS (language form)) as [l |]; [left |].
    - cbn [nullish] in Hl. congruence.
    - right. destruct (mem (language form) OBJECT_PROTOTYPE_KEYS); cbn [nullish] in Hl;
        [discriminate Hl |].
      split; congruence. }
  split.
  { exists profile. repeat split; try assumption.
    rewrite Hc. destruct Hin as [<- | [<- | [<- | []]]]; reflexivity. }
  rewrite Hlang. split.
  { destruct Hlabel as [H | [_ ->]];
      [now apply own_language_label in H | simpl; auto]. }
  split; [exact Hlabel | now rewrite Hnotes].
Qed.

Lemma plan_settings_come_from_the_tables_witness :
  generateVideoScript BLANK_FORM = Ok BLANK_PLAN
  /\ Script.mood BLANK_PLAN = mood BLANK_FORM
  /\ Script.aspectRatio BLANK_PLAN = aspectRatio BLANK_FORM
  /\ (exists profile,
        In profile [calm; energetic; inspirational]
        /\ (own_entry MOOD_PROFILES (mood BLANK_FORM) = Some profile
            \/ (own_entry MOOD_PROFILES (mood BLANK_FORM) = None /\ profile = calm))
        /\ Script.pacing BLANK_PLAN = pacing profile
        /\ Script.audioRecommendation BLANK_PLAN = audio profile
        /\ Script.colorPalette BLANK_PLAN = colorPalette profile
        /\ List.length (Script.colorPalette BLANK_PLAN) = 3)
  /\ In (Script.language BLANK_PLAN) (map snd LANGUAGE_LABELS)
  /\ (own_entry LANGUAGE_LABELS (language BLANK_FORM) = Some (Script.language BLANK_PLAN)
      \/ (own_entry LANGUAGE_LABELS (language BLANK_FORM) = None
          /\ Script.language BLANK_PLAN = "English"))
  /\ List.length (Script.productionNotes BLANK_PLAN) = 3.
Proof.
  split; [vm_compute; reflexivity |].
  apply (plan_settings_come_from_the_tables BLANK_FORM BLANK_PLAN).
  vm_compute; reflexivity.
Defined.

(** ** Durations and the average *)

(** A beat of at most 12 words is given 4 seconds and one of 23 words or more
    9 seconds, and a beat with more words never gets a shorter duration. *)
Theorem duration_steps_with_the_word_count (text other : string) :
  (wordCount text <= 12 <-> estimateDurationSeconds text = 4)
  /\ (23 <= wordCount text <-> estimateDurationSeconds text = 9)
  /\ (wordCount text <= wordCount other ->
      estimateDurationSeconds text <= estimateDurationSeconds other).
Proof.
  unfold estimateDurationSeconds, clamp.
  pose proof (Nat.div_mod_eq (20 * wordCount text + 27) 54) as E.
  pose proof (Nat.mod_upper_bound (20 * wordCount text + 27) 54) as B.
  pose proof (Nat.div_mod_eq (20 * wordCount other + 27) 54) as E'.
  pose proof (Nat.mod_upper_bound (20 * wordCount other + 27) 54) as B'.
  repeat split; intros; lia.
Qed.

Lemma sum_of_word_counts (beats : list string) (lo hi : nat) :
  (forall beat, In beat beats -> lo <= wordCount beat <= hi) ->
  forall acc,
    acc + List.length beats * lo
    <= fold_left (fun sum beat => sum + wordCount beat) beats acc
    <= acc + List.length beats * hi.
Proof.
  induction beats as [|b beats IH]; intros Hall acc; simpl; [lia |].
  assert (Hb := Hall b (or_introl eq_refl)).
  specialize (IH (fun x H => Hall x (or_intror H)) (acc + wordCount b)). lia.
Qed.

(** The number of words per beat quoted in the narration style lies between
    the smallest and the largest word count of the beats. *)
Theorem average_lies_between_the_extremes (beats : list string) (lo hi : nat) :
  beats <> [] ->
  (forall beat, In beat beats -> lo <= wordCount beat <= hi) ->
  lo <= roundedAverageWordsPerBeat beats <= hi.
Proof.
  intros Hne Hall. unfold roundedAverageWordsPerBeat.
  pose proof (sum_of_word_counts beats lo hi Hall 0) as Hsum. simpl in Hsum.
  set (total := fold_left (fun sum beat => sum + wordCount beat) beats 0) in *.
  destruct (List.length beats) as [|n] eqn:Hlen.
  - apply length_zero_iff_nil in Hlen. contradiction.
  - split.
    + apply Nat.div_le_lower_bound; [lia | nia].
    + apply Nat.lt_succ_r. apply Nat.Div0.div_lt_upper_bound. nia.
Qed.

Lemma average_lies_between_the_extremes_witness :
  ["one two three"; "four"] <> []
  /\ (forall beat, In beat ["one two three"; "four"] -> 1 <= wordCount beat <= 3)
  /\ 1 <= roundedAverageWordsPerBeat ["one two three"; "four"] <= 3.
Proof.
  assert (Hne : ["one two three"; "four"] <> []) by discriminate.
  assert (Hall : forall beat, In beat ["one two three"; "four"] ->
                   1 <= wordCount beat <= 3).
  { intros beat [<- | [<- | []]]; vm_compute; lia. }
  split; [exact Hne |]. split; [exact Hall |].
  exact (average_lies_between_the_extremes ["one two three"; "four"] 1 3 Hne Hall).
Defined.

(** ** The keyword of a scene *)

Lemma keyword_fallback_is_listed (kws : list string) (index : nat) :
  kws <> [] ->
  exists k,
    nth_error kws (index mod List.length kws) = Some k
    /\ nullish (nth_error kws (index mod List.length kws))
         (nullish (nth_error kws 0) "insight") = k.
Proof.
  intros Hne.
  assert (Hlt : index mod List.length kws < List.length kws).
  { apply Nat.mod_upper_bound. destruct kws; [congruence | discriminate]. }
  apply nth_error_Some in Hlt.
  destruct (nth_error kws (index mod List.length kws)) as [k |]; [| congruence].
  now exists k.
Qed.

(** The keyword chosen for a scene is always one of the keywords of the plan;
    only when there is none is it the word "insight". *)
Theorem selected_keyword_is_listed (voiceover : string) (kws : list string)
  (index : nat) :
  (kws = [] /\ selectKeywordForScene voiceover kws index = "insight")
  \/ In (selectKeywordForScene voiceover kws index) kws.
Proof.
  destruct kws as [|k0 kws];
    [left; split; [reflexivity | now destruct index] | right].
  unfold selectKeywordForScene.
  destruct (keyword_fallback_is_listed (k0 :: kws) index) as (k & Hk & ->);
    [discriminate |].
  apply nth_error_In in Hk.
  destruct (find _ (k0 :: kws)) as [m |] eqn:Hfind; [| exact Hk].
  destruct (truthy m); [| exact Hk].
  now apply find_some in Hfind.
Qed.

Lemma find_first {A : Type} (p : A -> bool) (before : list A) (x : A) (after : list A) :
  (forall b, In b before -> p b = false) -> p x = true ->
  find p (before ++ x :: after)%list = Some x.
Proof.
  intros Hbefore Hx. induction before as [|b before IH]; simpl.
  - now rewrite Hx.
  - rewrite (Hbefore b (or_introl eq_refl)). apply IH.
    intros b' Hb'. apply Hbefore. now right.
Qed.

(** The keyword of a scene is the first keyword of the list that the beat
    mentions, whatever the case of the letters of either. *)
Theorem selected_keyword_is_first_mentioned (voiceover : string)
  (before : list string) (keyword : string) (after : list string) (index : nat) :
  keyword <> "" ->
  occurs_in (toLowerCase keyword) (toLowerCase voiceover) ->
  (forall k, In k before -> ~ occurs_in (toLowerCase k) (toLowerCase voiceover)) ->
  selectKeywordForScene voiceover (before ++ keyword :: after)%list index = keyword.
Proof.
  intros Hne Hin Hbefore. unfold selectKeywordForScene.
  rewrite (find_first _ before keyword after).
  - destruct keyword; [congruence | reflexivity].
  - intros k Hk. apply includes_false. now apply Hbefore.
  - now apply includes_spec.
Qed.

Lemma selected_keyword_is_first_mentioned_witness :
  "learns" <> ""
  /\ occurs_in (toLowerCase "learns") (toLowerCase "AI Learns fast")
  /\ (forall k, In k ["data"] ->
        ~ occurs_in (toLowerCase k) (toLowerCase "AI Learns fast"))
  /\ selectKeywordForScene "AI Learns fast" (["data"] ++ "learns" :: ["AI"])%list 7
     = "learns".
Proof.
  assert (Hne : "learns" <> "") by discriminate.
  assert (Hin : occurs_in (toLowerCase "learns") (toLowerCase "AI Learns fast"))
    by (apply includes_spec; reflexivity).
  assert (Hbefore : forall k, In k ["data"] ->
            ~ occurs_in (toLowerCase k) (toLowerCase "AI Learns fast")).
  { intros k [<- | []]. apply includes_false. reflexivity. }
  split; [exact Hne |]. split; [exact Hin |]. split; [exact Hbefore |].
  exact (selected_keyword_is_first_mentioned "AI Learns fast" ["data"] "learns"
           ["AI"] 7 Hne Hin Hbefore).
Defined.

Lemma find_none {A : Type} (p : A -> bool) (l : list A) :
  (forall x, In x l -> p x = false) -> find p l = None.
Proof.
  induction l as [|x l IH]; intros H; simpl; [reflexivity |].
  rewrite (H x (or_introl eq_refl)). apply IH. intros y Hy. apply H. now right.
Qed.

(** When the beat mentions no keyword, the scenes take the keywords in turn:
    the scene at index [i] gets the keyword at index [i] modulo the length of
    the list. *)
Theorem unmentioned_keywords_are_taken_in_turn (voiceover : string)
  (kws : list string) (index : nat) :
  kws <> [] ->
  (forall k, In k kws -> ~ occurs_in (toLowerCase k) (toLowerCase voiceover)) ->
  nth_error kws (index mod List.length kws)
  = Some (selectKeywordForScene voiceover kws index).
Proof.
  intros Hne Hnone. unfold selectKeywordForScene.
  rewrite find_none.
  - destruct (keyword_fallback_is_listed kws index Hne) as (k & Hk & ->). exact Hk.
  - intros k Hk. apply includes_false. now apply Hnone.
Qed.

Lemma unmentioned_keywords_are_taken_in_turn_witness :
  ["data"; "models"; "vision"] <> []
  /\ (forall k, In k ["data"; "models"; "vision"] ->
        ~ occurs_in (toLowerCase k) (toLowerCase "Nothing to see"))
  /\ nth_error ["data"; "models"; "vision"]
       (4 mod List.length ["data"; "models"; "vision"])
     = Some (selectKeywordForScene "Nothing to see" ["data"; "models"; "vision"] 4).
Proof.
  assert (Hne : ["data"; "models"; "vision"] <> []) by discriminate.
  assert (Hnone : forall k, In k ["data"; "models"; "vision"] ->
            ~ occurs_in (toLowerCase k) (toLowerCase "Nothing to see")).
  { intros k [<- | [<- | [<- | []]]]; apply includes_false; reflexivity. }
  split; [exact Hne |]. split; [exact Hnone |].
  exact (unmentioned_keywords_are_taken_in_turn "Nothing to see"
           ["data"; "models"; "vision"] 4 Hne Hnone).
Defined.

(** ** The overlay text *)

Lemma all_chars_filter_chars (p : code_unit -> bool) (s : string) :
  all_chars p (filter_chars p s) = true.
Proof.
  induction s as [|c s IH]; simpl; [reflexivity |].
  destruct (p c) eqn:Hc; simpl; [now rewrite Hc | exact IH].
Qed.

Lemma overlay_words_are_plain (voiceover w : string) :
  In w (split_runs is_space (overlay_text voiceover)) ->
  all_chars is_alnum w = true.
Proof.
  unfold overlay_text. set (text := replace_ai_anywhere voiceover). intros Hin.
  pose proof (split_runs_all_chars (fun c => is_alnum c || is_space c) is_space _
                (all_chars_filter_chars _ text)) as Hkept.
  pose proof (split_runs_no_sep is_space
                (filter_chars (fun c => is_alnum c || is_space c) text)) as Hnosep.
  rewrite Forall_forall in Hkept, Hnosep.
  apply (all_chars_both (fun c => is_alnum c || is_space c)
           (fun c => negb (is_space c)) is_alnum); auto.
  intros c H1 H2. apply negb_true_iff in H2. now rewrite H2, orb_false_r in H1.
Qed.

Lemma concat_words_truthy (sep w : string) (ws : list string) :
  truthy w = true -> truthy (JsString.concat sep (w :: ws)) = true.
Proof.
  destruct w as [|c w]; [discriminate |]. intros _.
  destruct ws; reflexivity.
Qed.

Lemma long_words_are_truthy (l : list string) :
  filter (fun word => 2 <? JsString.length word) (filter truthy l)
  = filter (fun word => 2 <? JsString.length word) l.
Proof.
  rewrite filter_filter. apply filter_ext. intros w. now destruct w.
Qed.

(** The overlay of a scene is never empty.  Its words are the first six of
    the maximal runs of letters and digits of the beat, read with "ai"
    written "AI" and without the characters other than letters, digits and
    whitespace, that are longer than two characters; they are joined by a
    space and capitalised, and when there is no such word the overlay falls
    back on the keyword of the scene. *)
Theorem overlay_shows_six_plain_words_at_most (voiceover keyword : string) :
  createOverlay voiceover keyword <> ""
  /\ exists tokens,
       let words :=
         firstn 6 (filter (fun word => 2 <? JsString.length word) tokens) in
       runs is_space (overlay_text voiceover) tokens
       /\ List.length words <= 6
       /\ (forall w, In w words ->
             2 < JsString.length w /\ all_chars is_alnum w = true)
       /\ (words <> [] ->
           createOverlay voiceover keyword = capitalize (JsString.concat " " words))
       /\ (words = [] ->
           createOverlay voiceover keyword = "Key idea: " ++ capitalize keyword).
Proof.
  unfold createOverlay, condense. fold (overlay_text voiceover).
  rewrite <- (long_words_are_truthy (split_runs is_space (overlay_text voiceover))).
  set (tokens := filter truthy (split_runs is_space (overlay_text voiceover))).
  assert (Hruns : runs is_space (overlay_text voiceover) tokens)
    by apply split_runs_are_runs.
  set (kept := filter (fun word => 2 <? JsString.length word) tokens).
  assert (Hkept : forall w, In w kept ->
            2 < JsString.length w /\ all_chars is_alnum w = true).
  { intros w Hw. apply filter_In in Hw as [Hw Hlen]. split.
    - now apply Nat.ltb_lt.
    - apply filter_In in Hw as [Hw _]. now apply overlay_words_are_plain in Hw. }
  assert (Hfirst : forall w, In w (firstn 6 kept) -> In w kept).
  { intros w Hw. rewrite <- (firstn_skipn 6 kept). apply in_or_app. now left. }
  assert (Hcap : forall t, t <> "" -> capitalize t <> "").
  { intros [|c t] Ht; [congruence |]. simpl.
    pose proof (upper_unit_not_nil c) as Hu.
    destruct (upper_unit c); [congruence | discriminate]. }
  destruct (firstn 6 kept) as [|w ws] eqn:E.
  - split; [discriminate |]. exists tokens. cbv zeta. fold kept. rewrite E.
    repeat split; try easy. simpl. lia.
  - assert (Hw : truthy w = true).
    { destruct (Hkept w (Hfirst w (or_introl eq_refl))) as [Hlen _].
      destruct w; [simpl in Hlen; lia | reflexivity]. }
    pose proof (concat_words_truthy " " w ws Hw) as Ht. rewrite Ht. split.
    + apply Hcap. destruct (JsString.concat " " (w :: ws)); [discriminate Ht | discriminate].
    + exists tokens. cbv zeta. fold kept. rewrite E.
      split; [exact Hruns |]. split; [rewrite <- E; apply firstn_le_length |].
      split; [intros x Hx; now apply Hkept, Hfirst |].
      split; [reflexivity | discriminate].
Qed.

(** ** The visual direction *)

Lemma includes_either (text a b : string) :
  (includes text a || includes text b = true /\ (occurs_in a text \/ occurs_in b text))
  \/ (includes text a || includes text b = false
      /\ ~ (occurs_in a text \/ occurs_in b text)).
Proof.
  destruct (includes text a) eqn:Ea; destruct (includes text b) eqn:Eb;
    rewrite ?includes_spec, ?includes_false in *; simpl; tauto.
Qed.

(** The visual direction follows the first of five rules that applies to the
    beat, read without regard to the case of its letters: data or patterns,
    predict or outcomes, learn or training, experience or humans, and a
    generic direction otherwise; the generic direction reads the palette of
    the mood and raises when the mood is an inherited member. *)
Theorem visual_direction_follows_first_rule (voiceover keyword : string)
  (moodProfile : lookup MoodProfile) (aspectProfile : lookup AspectConcept) :
  let visuals := createVisualDirection voiceover keyword moodProfile aspectProfile in
  let data := mentions voiceover "data" \/ mentions voiceover "patterns" in
  let dashboards := mentions voiceover "predict" \/ mentions voiceover "outcomes" in
  let training := mentions voiceover "learn" \/ mentions voiceover "training" in
  let humans := mentions voiceover "experience" \/ mentions voiceover "humans" in
  (data ->
   visuals
   = Ok ("Visualize flowing data points morphing into a neural network mesh; "
         ++ show (field motion moodProfile) ++ " with "
         ++ show (field lighting moodProfile) ++ "."))
  /\ (~ data -> dashboards ->
      visuals
      = Ok ("Show predictive dashboards coming to life with confident highlights; "
            ++ show (field framing aspectProfile)))
  /\ (~ data -> ~ dashboards -> training ->
      visuals
      = Ok ("Illustrate an AI training loop with layered animations that progressively refine, paired with "
            ++ show (field motion moodProfile) ++ "."))
  /\ (~ data -> ~ dashboards -> ~ training -> humans ->
      visuals
      = Ok ("Contrast human learning and machine learning through mirrored compositions, gently lit to stay "
            ++ show (field lighting moodProfile) ++ "."))
  /\ (~ data -> ~ dashboards -> ~ training -> ~ humans ->
      match moodProfile with
      | Own m =>
          visuals
          = Ok ("Create calm, abstract imagery around " ++ keyword ++ ", using "
                ++ show (nth_error (colorPalette m) 0) ++ " and "
                ++ show (nth_error (colorPalette m) 1) ++ " accents.")
      | Inherited _ => visuals = Throw
      end).
Proof.
  unfold createVisualDirection, mentions. cbv zeta.
  destruct (includes_either (toLowerCase voiceover) "data" "patterns") as [D | D];
  destruct (includes_either (toLowerCase voiceover) "predict" "outcomes") as [P | P];
  destruct (includes_either (toLowerCase voiceover) "learn" "training") as [L | L];
  destruct (includes_either (toLowerCase voiceover) "experience" "humans") as [H | H];
  destruct D as [E1 D]; destruct P as [E2 P]; destruct L as [E3 L];
  destruct H as [E4 H];
  try rewrite E1; try rewrite E2; try rewrite E3; try rewrite E4;
  repeat split; intros; try reflexivity; try tauto;
  destruct moodProfile; reflexivity.
Qed.

(** ** The supporting assets *)

(** The assets of a scene hold the graph exactly when the beat mentions
    "data", the probability bars exactly when it mentions "predict", and the
    progress bar exactly when it mentions "adjust" or "improves"; the B-roll
    entry naming the keyword always comes last, so there are one to four
    assets. *)
Theorem supporting_assets_follow_the_beat (voiceover keyword : string) :
  let assets := createSupportingAssets voiceover keyword in
  (In "Overlay graph that pulses in sync with narration." assets
   <-> mentions voiceover "data")
  /\ (In "HUD-style animation showing probability bars filling up." assets
      <-> mentions voiceover "predict")
  /\ (In "Progress bar that subtly advances with each beat." assets
      <-> mentions voiceover "adjust" \/ mentions voiceover "improves")
  /\ last assets "" = "B-roll: contextual visuals highlighting " ++ keyword ++ "."
  /\ 1 <= List.length assets <= 4.
Proof.
  unfold createSupportingAssets, mentions. cbv zeta.
  destruct (includes (toLowerCase voiceover) "data") eqn:E1;
  destruct (includes (toLowerCase voiceover) "predict") eqn:E2;
  destruct (includes (toLowerCase voiceover) "adjust") eqn:E3;
  destruct (includes (toLowerCase voiceover) "improves") eqn:E4;
  rewrite ?includes_spec, ?includes_false in *;
  cbn [orb app In last List.length];
  repeat split; try lia; try tauto;
  intros H; repeat (destruct H as [H | H]; try discriminate H); tauto.
Qed.

(** ** The words taken from the story *)

(** A keyword taken from the story is a run of lower-case letters and digits,
    longer than two characters, that is not a stop word. *)
Theorem derived_keywords_are_plain_words (text w : string) :
  In w (extractKeywordsFromStory text) ->
  2 < JsString.length w
  /\ ~ In w STOP_WORDS
  /\ all_chars (fun c => is_lower c || is_digit c) w = true.
Proof.
  intros Hin.
  apply (extractKeywords_most_frequent text) in Hin.
  split; [| split].
  - unfold story_words in Hin. apply filter_In in Hin as [_ Hkeep].
    apply andb_true_iff in Hkeep as [Hlen _]. now apply Nat.ltb_lt.
  - unfold story_words in Hin. apply filter_In in Hin as [_ Hkeep].
    apply andb_true_iff in Hkeep as [_ Hstop].
    intros Hw. apply mem_In in Hw. rewrite Hw in Hstop. discriminate.
  - now apply (story_words_plain text).
Qed.

Lemma derived_keywords_are_plain_words_witness :
  In "learns" (extractKeywordsFromStory "AI learns. It learns from the data!")
  /\ 2 < JsString.length "learns"
  /\ ~ In "learns" STOP_WORDS
  /\ all_chars (fun c => is_lower c || is_digit c) "learns" = true.
Proof.
  split; [vm_compute; left; reflexivity |].
  apply (derived_keywords_are_plain_words "AI learns. It learns from the data!" "learns").
  vm_compute; left; reflexivity.
Defined.

(** ** The order of the keyword list *)

Lemma keep_first_app (a b : list string) :
  keep_first (a ++ b)%list
  = (keep_first a ++ filter (fun y => negb (mem y a)) (keep_first b))%list.
Proof.
  induction a as [|x a IH]; simpl.
  - induction (keep_first b) as [|y l IHl]; simpl; congruence.
  - rewrite IH, filter_app, filter_filter. f_equal. f_equal.
    apply filter_ext. intros y. rewrite negb_orb. apply andb_comm.
Qed.

Lemma keep_first_fixed (l : list string) : NoDup l -> keep_first l = l.
Proof.
  induction 1 as [|x l Hx Hnd IH]; simpl; [reflexivity |].
  rewrite IH. f_equal. apply forallb_filter_id. apply forallb_forall.
  intros y Hy. apply negb_true_iff, eqb_neq. intros ->. contradiction.
Qed.

(** The keyword list starts with the distinct keywords the caller supplied,
    in their order; the keywords taken from the story follow, without those
    the caller already supplied. *)
Theorem supplied_keywords_come_first (topic story rawKeywords : string) :
  deriveKeywords topic story rawKeywords
  = (map (replace_ai_word false) (keep_first (providedKeywords rawKeywords))
     ++ map (replace_ai_word false)
          (filter (fun w => negb (mem w (providedKeywords rawKeywords)))
             (extractKeywordsFromStory (topic ++ ". " ++ story))))%list.
Proof.
  rewrite deriveKeywords_eq, keep_first_app, map_app.
  rewrite (keep_first_fixed (extractKeywordsFromStory _)); [reflexivity |].
  apply (extractKeywords_most_frequent (topic ++ ". " ++ story)).
Qed.

(** ** Capital letters *)


(** ** Writing "AI" twice *)

Lemma every_ai_uppercase_tail (c : code_unit) (s : string) :
  every_ai_uppercase (String c s) -> every_ai_uppercase s.
Proof.
  intros H before x y after ->. apply (H (String c before) x y after). reflexivity.
Qed.

Lemma replace_ai_anywhere_fixed (s : string) :
  every_ai_uppercase s -> replace_ai_anywhere s = s.
Proof.
  induction s as [| c | c d s IHs IHd] using string_pair_ind; intros H;
    try reflexivity.
  rewrite replace_ai_anywhere_pair. destruct (is_a c && is_i d) eqn:E.
  - apply andb_true_iff in E as [Ha Hi].
    destruct (H "" c d s eq_refl Ha Hi) as [-> ->].
    rewrite IHs; [reflexivity |].
    now apply every_ai_uppercase_tail, every_ai_uppercase_tail in H.
  - rewrite IHd; [reflexivity | now apply every_ai_uppercase_tail in H].
Qed.

Lemma replace_ai_word_head (prev : bool) (d : code_unit) (s : string) :
  exists d' rest,
    replace_ai_word prev (String d s) = String d' rest
    /\ (is_i d' = true -> d' = d \/ is_a d = true)
    /\ (d' = d -> prev = true ->
        rest = replace_ai_word (is_word d) s).
Proof.
  destruct s as [|e s].
  - exists d, "". repeat split; auto.
  - rewrite replace_ai_word_pair.
    destruct (negb prev && is_a d && is_i e && negb (head_is is_word s)) eqn:E.
    + rewrite !andb_true_iff, negb_true_iff in E. destruct E as [[[Hp Ha] _] _].
      exists "A"%char, (String "I" (replace_ai_word true s)).
      split; [reflexivity |]. split; [discriminate |].
      intros _ Hprev. congruence.
    + exists d, (replace_ai_word (is_word d) (String e s)). repeat split; auto.
Qed.

Lemma replace_ai_word_twice (s : string) :
  forall prev,
    replace_ai_word prev (replace_ai_word prev s) = replace_ai_word prev s.
Proof.
  induction s as [| c | c d s IHs IHd] using string_pair_ind; intros prev;
    try reflexivity.
  rewrite replace_ai_word_pair.
  destruct (negb prev && is_a c && is_i d && negb (head_is is_word s)) eqn:E.
  - rewrite replace_ai_word_pair, head_is_word_replace.
    rewrite !andb_true_iff in E. destruct E as [[[Hp _] _] Hn].
    rewrite Hp, Hn. change (is_a "A"%char) with true.
    change (is_i "I"%char) with true. cbn [andb]. rewrite IHs. reflexivity.
  - destruct (negb prev && is_a c) eqn:Hpa.
    + apply andb_true_iff in Hpa as [Hp Ha]. cbn [andb] in E.
      rewrite (is_a_word c Ha), replace_ai_word_after_word.
      rewrite replace_ai_word_pair, Hp, Ha, head_is_word_replace.
      cbn [andb]. rewrite E, (is_a_word c Ha).
      rewrite <- replace_ai_word_after_word, IHd. reflexivity.
    + destruct (replace_ai_word_head (is_word c) d s) as (d' & rest & Heq & _).
      pose proof (IHd (is_word c)) as Htwice. rewrite Heq in *.
      rewrite replace_ai_word_pair, Hpa. cbn [andb]. now rewrite Htwice.
Qed.

(** Writing "ai" as "AI" a second time changes nothing, in the overlay text
    as in the keywords. *)
Theorem ai_is_written_once (s : string) :
  replace_ai_anywhere (replace_ai_anywhere s) = replace_ai_anywhere s
  /\ replace_ai_word false (replace_ai_word false s) = replace_ai_word false s.
Proof.
  split.
  - apply replace_ai_anywhere_fixed, replace_ai_anywhere_spec.
  - apply replace_ai_word_twice.
Qed.

(** ** The story as it is read *)

Lemma filter_chars_fixed (p : code_unit -> bool) (s : string) :
  all_chars p s = true -> filter_chars p s = s.
Proof.
  induction s as [|c s IH]; simpl; [reflexivity |].
  rewrite andb_true_iff. intros [Hc Hs]. now rewrite Hc, IH.
Qed.

Lemma the_trimmed_story_fixed (form : ScriptForm) :
  the_trimmed_story (with_story form (the_trimmed_story form))
  = the_trimmed_story form.
Proof.
  unfold the_trimmed_story, with_story. cbn [story].
  rewrite filter_chars_fixed; [apply trim_idempotent |].
  apply all_chars_trim, all_chars_filter_chars.
Qed.

(** The plan depends on the story only through the text that is read from
    it, without carriage returns and without the whitespace around it: a
    request whose story is that text is treated like the request itself. *)
Theorem plan_reads_the_story_without_its_margins (form : ScriptForm) :
  generateVideoScript (with_story form (the_trimmed_story form))
  = generateVideoScript form
  /\ all_chars (fun c => negb (is_carriage_return c)) (the_trimmed_story form) = true
  /\ trim (the_trimmed_story form) = the_trimmed_story form.
Proof.
  split; [| split].
  - pose proof (the_trimmed_story_fixed form) as H.
    unfold the_trimmed_story, with_story in H. cbn [story] in H.
    unfold generateVideoScript, the_trimmed_story, with_story.
    cbn [story topic mood aspectRatio language Form.keywords].
    rewrite H. reflexivity.
  - apply all_chars_trim, all_chars_filter_chars.
  - apply trim_idempotent.
Qed.

(** ** The page *)

(** An edit writes the field it names and no other; reading a field after
    writing it gives what was written, writing back what was read changes
    nothing, and of two edits of a field the later one stays. *)
Theorem edits_write_one_field (form : ScriptForm) (key other : FieldKey)
  (earlier value : string) :
  readField (writeField form key value) key = value
  /\ (other <> key ->
      readField (writeField form key value) other = readField form other)
  /\ writeField form key (readField form key) = form
  /\ writeField (writeField form key earlier) key value = writeField form key value.
Proof.
  destruct form. repeat split.
  - destruct key; reflexivity.
  - destruct key, other; intros H; reflexivity || now contradiction H.
  - destruct key; reflexivity.
  - destruct key; reflexivity.
Qed.




(** ** Counting words *)

Lemma word_starts_app (a b : string) :
  forall after,
    word_starts after (a ++ " " ++ b) = word_starts after a + word_starts true b.
Proof.
  induction a as [|c a IH]; intros after; [reflexivity |].
  cbn [append word_starts]. destruct (is_space c); rewrite IH; lia.
Qed.

Lemma word_starts_blank (s : string) :
  all_chars is_space s = true -> forall after, word_starts after s = 0.
Proof.
  induction s as [|c s IH]; simpl; [reflexivity |].
  intros H after. apply andb_true_iff in H as [Hc Hs]. rewrite Hc. now apply IH.
Qed.

Lemma word_starts_length (s : string) :
  forall after, word_starts after s <= JsString.length s.
Proof.
  induction s as [|c s IH]; intros after; simpl; [lia |].
  destruct (is_space c); [specialize (IH true) | specialize (IH false)];
    destruct after; lia.
Qed.

(** The word count of two texts joined by a space is the sum of their word
    counts; a text of whitespace only has no word, and no text has more words
    than characters. *)
Theorem word_count_adds_up (a b : string) :
  wordCount (a ++ " " ++ b) = wordCount a + wordCount b
  /\ (all_chars is_space a = true -> wordCount a = 0)
  /\ wordCount a <= JsString.length a.
Proof.
  rewrite !wordCount_words_in. unfold words_in. split; [apply word_starts_app |].
  split; [intros H; now apply word_starts_blank | apply word_starts_length].
Qed.

(** ** Keyword lists without words *)

Lemma map_nil_iff {A B : Type} (f : A -> B) (l : list A) : map f l = [] <-> l = [].
Proof. destruct l; simpl; split; congruence. Qed.

Lemma keep_first_nil_iff (l : list string) : keep_first l = [] <-> l = [].
Proof. destruct l; simpl; split; congruence. Qed.

Lemma extractKeywords_nil_iff (text : string) :
  extractKeywordsFromStory text = [] <-> story_words text = [].
Proof.
  pose proof (extractKeywords_most_frequent text) as (_ & _ & Hin & _ & Hout).
  split; intros H.
  - destruct (story_words text) as [|w ws]; [reflexivity |].
    destruct (Hout w (or_introl eq_refl)) as [Hlen _].
    + rewrite H. intros [].
    + rewrite H in Hlen. discriminate Hlen.
  - destruct (extractKeywordsFromStory text) as [|w ws]; [reflexivity |].
    specialize (Hin w (or_introl eq_refl)). rewrite H in Hin. destruct Hin.
Qed.

(** The keyword list is empty exactly when the caller supplied no keyword
    and the topic and the story hold no word to take; the scenes then all get
    the keyword "insight". *)
Theorem keyword_list_is_empty_only_without_words (topic story rawKeywords : string) :
  (deriveKeywords topic story rawKeywords = []
   <-> providedKeywords rawKeywords = []
       /\ story_words (topic ++ ". " ++ story) = [])
  /\ (deriveKeywords topic story rawKeywords = [] ->
      forall voiceover index,
        selectKeywordForScene voiceover
          (deriveKeywords topic story rawKeywords) index = "insight").
Proof.
  split.
  - rewrite deriveKeywords_eq, map_nil_iff, keep_first_nil_iff.
    rewrite <- extractKeywords_nil_iff. split.
    + intros H. now apply app_eq_nil in H.
    + intros [-> ->]. reflexivity.
  - intros -> voiceover index. now destruct index.
Qed.

(** ** The keywords the caller supplies *)

Lemma no_space_is_written :
  written_by_lowering (fun c => negb (is_space c)) = true.
Proof. vm_compute. reflexivity. Qed.

Lemma no_separator_is_written :
  written_by_lowering (fun c => negb (is_keyword_separator c)) = true.
Proof. vm_compute. reflexivity. Qed.

(** A keyword the caller supplied is kept as a non-empty text in lower case
    (lower-casing it again changes nothing, and it has no letter from A to
    Z), without whitespace around it and without a comma, a semicolon or a
    line break in it. *)
Theorem supplied_keywords_are_tidy (rawKeywords w : string) :
  In w (providedKeywords rawKeywords) ->
  w <> ""
  /\ toLowerCase w = w
  /\ lowered w
  /\ head_is is_space w = false
  /\ last_is is_space w = false
  /\ all_chars (fun c => negb (is_keyword_separator c)) w = true.
Proof.
  unfold providedKeywords. rewrite in_map_iff.
  intros (t & <- & Ht). apply filter_In in Ht as [Ht Htruthy].
  apply in_map_iff in Ht as (piece & <- & Hpiece).
  destruct (trim_is_trimmed piece) as (_ & Hhead & Hlast).
  pose proof (split_runs_no_sep is_keyword_separator rawKeywords) as Hnosep.
  rewrite Forall_forall in Hnosep. specialize (Hnosep piece Hpiece).
  apply all_chars_trim in Hnosep.
  split; [| split; [apply toLowerCase_idempotent
                   | split; [apply toLowerCase_lowered | split; [| split]]]].
  - apply lower_from_not_nil. destruct (trim piece); [discriminate Htruthy | discriminate].
  - apply (lower_from_head is_space no_space_is_written). exact Hhead.
  - apply (lower_from_last is_space no_space_is_written). exact Hlast.
  - apply lower_from_keeps; [exact no_separator_is_written | exact Hnosep].
Qed.

Lemma supplied_keywords_are_tidy_witness :
  In "machine learning" (providedKeywords " AI ;  Machine Learning,,")
  /\ "machine learning" <> ""
  /\ toLowerCase "machine learning" = "machine learning"
  /\ lowered "machine learning"
  /\ head_is is_space "machine learning" = false
  /\ last_is is_space "machine learning" = false
  /\ all_chars (fun c => negb (is_keyword_separator c)) "machine learning" = true.
Proof.
  split; [right; left; reflexivity |].
  apply (supplied_keywords_are_tidy " AI ;  Machine Learning,," "machine learning").
  right; left; reflexivity.
Defined.

(** ** Lines and beats *)

Section Joining.

Variable sep : code_unit -> bool.

Lemma split_runs_after_sep (x : code_unit) (s : string) :
  sep x = true ->
  hd "" (split_runs sep (String x s)) = ""
  /\ filter truthy (tl (split_runs sep (String x s)))
     = filter truthy (split_runs sep s).
Proof.
  intros Hx. simpl. rewrite Hx. destruct (head_is sep s) eqn:Hs; [| now split].
  destruct (split_runs_head_sep sep s Hs) as [ps ->]. now split.
Qed.

Lemma split_runs_after_char (x : code_unit) (s : string) :
  sep x = false ->
  hd "" (split_runs sep (String x s)) = String x (hd "" (split_runs sep s))
  /\ tl (split_runs sep (String x s)) = tl (split_runs sep s).
Proof.
  intros Hx. simpl. rewrite Hx. pose proof (split_runs_not_nil sep s) as Hne.
  destruct (split_runs sep s); [congruence | now split].
Qed.

Lemma filter_truthy_hd_tl (l : list string) :
  l <> [] ->
  filter truthy l
  = ((if truthy (hd "" l) then [hd "" l] else []) ++ filter truthy (tl l))%list.
Proof. destruct l as [|h t]; [congruence |]. intros _. simpl. now destruct (truthy h). Qed.

Lemma split_runs_joined (a : string) (c : code_unit) (b : string) :
  sep c = true ->
  hd "" (split_runs sep (a ++ String c b)) = hd "" (split_runs sep a)
  /\ filter truthy (tl (split_runs sep (a ++ String c b)))
     = (filter truthy (tl (split_runs sep a)) ++ filter truthy (split_runs sep b))%list.
Proof.
  intros Hc. induction a as [|x a [IHh IHt]].
  - cbn [append]. destruct (split_runs_after_sep c b Hc) as [Hh Ht]. now split.
  - change (String x a ++ String c b) with (String x (a ++ String c b)).
    destruct (sep x) eqn:Hx.
    + destruct (split_runs_after_sep x (a ++ String c b) Hx) as [-> ->].
      destruct (split_runs_after_sep x a Hx) as [-> ->]. split; [reflexivity |].
      rewrite (filter_truthy_hd_tl (split_runs sep (a ++ String c b)))
        by apply split_runs_not_nil.
      rewrite (filter_truthy_hd_tl (split_runs sep a)) by apply split_runs_not_nil.
      now rewrite IHh, IHt, app_assoc.
    + destruct (split_runs_after_char x (a ++ String c b) Hx) as [-> ->].
      destruct (split_runs_after_char x a Hx) as [-> ->].
      now rewrite IHh, IHt.
Qed.

Lemma split_runs_whole (s : string) :
  all_chars (fun c => negb (sep c)) s = true -> split_runs sep s = [s].
Proof.
  induction s as [|c s IH]; simpl; [reflexivity |].
  rewrite andb_true_iff, negb_true_iff. intros [-> Hs]. now rewrite IH.
Qed.

End Joining.

Lemma story_lines_joined (a b : string) :
  story_lines (a ++ LF ++ b) = (story_lines a ++ story_lines b)%list.
Proof.
  unfold story_lines, LF. cbn [append].
  rewrite <- (trimmed_pieces_of_truthy (split_runs is_newline (a ++ _))).
  rewrite <- (trimmed_pieces_of_truthy (split_runs is_newline a)).
  rewrite <- (trimmed_pieces_of_truthy (split_runs is_newline b)).
  rewrite <- filter_app, <- map_app. f_equal. f_equal.
  destruct (split_runs_joined is_newline a 10%N b eq_refl) as [Hh Ht].
  rewrite (filter_truthy_hd_tl (split_runs is_newline (a ++ _)))
    by apply split_runs_not_nil.
  rewrite (filter_truthy_hd_tl (split_runs is_newline a)) by apply split_runs_not_nil.
  now rewrite Hh, Ht, app_assoc.
Qed.

Lemma parseStoryBeats_of_lines (story : string) :
  story_lines story <> [] ->
  parseStoryBeats story = flat_map line_sentences (story_lines story).
Proof.
  unfold parseStoryBeats. fold (story_lines story).
  destruct (story_lines story); [congruence | reflexivity].
Qed.

(** The lines of a story are read one by one: the lines of two stories
    joined by a line break are the lines of the first followed by those of
    the second, and so are the beats when neither story is blank. *)
Theorem lines_are_read_one_by_one (a b : string) :
  story_lines (a ++ LF ++ b) = (story_lines a ++ story_lines b)%list
  /\ (story_lines a <> [] -> story_lines b <> [] ->
      parseStoryBeats (a ++ LF ++ b) = (parseStoryBeats a ++ parseStoryBeats b)%list).
Proof.
  split; [apply story_lines_joined |]. intros Ha Hb.
  rewrite !parseStoryBeats_of_lines; try assumption.
  - now rewrite story_lines_joined, flat_map_app.
  - rewrite story_lines_joined. intros H. apply app_eq_nil in H as [H _]. contradiction.
Qed.

Lemma story_line_starts_with_text (story line : string) :
  In line (story_lines story) ->
  truthy line = true /\ head_is is_space line = false.
Proof.
  unfold story_lines. rewrite filter_In, in_map_iff.
  intros [(raw & <- & _) Ht]. split; [exact Ht |].
  now destruct (trim_is_trimmed raw) as (_ & H & _).
Qed.

Lemma flat_map_length_at_least {A B : Type} (f : A -> list B) (l : list A) :
  (forall x, In x l -> f x <> []) -> List.length l <= List.length (flat_map f l).
Proof.
  induction l as [|x l IH]; intros H; simpl; [lia |].
  rewrite length_app. specialize (IH (fun y Hy => H y (or_intror Hy))).
  specialize (H x (or_introl eq_refl)). destruct (f x); [congruence | simpl; lia].
Qed.

(** Every line of the story that holds more than whitespace gives at least
    one beat, so a story has at least as many scenes as it has such lines. *)
Theorem each_line_gives_a_beat (story : string) :
  List.length (story_lines story) <= List.length (parseStoryBeats story).
Proof.
  destruct (story_lines story) as [|l ls] eqn:E; [simpl; lia |].
  rewrite parseStoryBeats_of_lines by (rewrite E; discriminate).
  rewrite <- E. apply flat_map_length_at_least. intros line Hline.
  destruct (story_line_starts_with_text story line Hline) as [Ht Hh].
  now apply sentences_of_paragraph_not_nil.
Qed.

Lemma split_sentences_whole (body : string) (c : code_unit) :
  all_chars (fun x => negb (is_sentence_end x)) body = true ->
  split_sentences false (body ++ String c "") = [body ++ String c ""].
Proof.
  induction body as [|x body IH]; simpl.
  - intros _. now rewrite andb_false_r.
  - rewrite andb_true_iff, negb_true_iff. intros [Hx Hbody].
    rewrite andb_false_r. cbn [andb]. rewrite Hx.
    destruct (is_space x); now rewrite IH.
Qed.

(** A story of one line, without whitespace around it, whose only mark of a
    sentence end, if any, is its last character, is one beat: the story
    itself. *)
Theorem one_sentence_is_one_beat (body : string) (c : code_unit) :
  trim (body ++ String c "") = body ++ String c "" ->
  all_chars (fun x => negb (is_newline x)) (body ++ String c "") = true ->
  all_chars (fun x => negb (is_sentence_end x)) body = true ->
  parseStoryBeats (body ++ String c "") = [body ++ String c ""].
Proof.
  intros Htrim Hline Hbody. unfold parseStoryBeats.
  rewrite (split_runs_whole is_newline _ Hline). cbn [map]. rewrite Htrim.
  assert (Ht : truthy (body ++ String c "") = true) by (destruct body; reflexivity).
  cbn [filter]. rewrite Ht. cbn [flat_map].
  rewrite (split_sentences_whole body c Hbody). cbn [map]. rewrite Htrim.
  cbn [filter]. rewrite Ht. reflexivity.
Qed.

Lemma one_sentence_is_one_beat_witness :
  trim ("AI learns from data" ++ String "." "") = "AI learns from data" ++ String "." ""
  /\ all_chars (fun x => negb (is_newline x)) ("AI learns from data" ++ String "." "")
     = true
  /\ all_chars (fun x => negb (is_sentence_end x)) "AI learns from data" = true
  /\ parseStoryBeats ("AI learns from data" ++ String "." "")
     = ["AI learns from data" ++ String "." ""].
Proof.
  split; [reflexivity |]. split; [reflexivity |]. split; [reflexivity |].
  apply (one_sentence_is_one_beat "AI learns from data" "."%char); reflexivity.
Defined.

(** ** What the language changes *)

(** The language of a request changes the language label of the plan, its
    subtitle and its narration style, and nothing else: the scenes, the
    keywords, the title, the hook, the call to action, the mood settings and
    the production notes are those of the same request in any other
    language. *)
Theorem language_changes_the_labels_only (form : ScriptForm) (code : string)
  (plan plan' : Script.VideoScript) :
  generateVideoScript form = Ok plan ->
  generateVideoScript (with_language form code) = Ok plan' ->
  Script.scenes plan' = Script.scenes plan
  /\ Script.keywords plan' = Script.keywords plan
  /\ Script.title plan' = Script.title plan
  /\ Script.hook plan' = Script.hook plan
  /\ Script.callToAction plan' = Script.callToAction plan
  /\ Script.pacing plan' = Script.pacing plan
  /\ Script.audioRecommendation plan' = Script.audioRecommendation plan
  /\ Script.colorPalette plan' = Script.colorPalette plan
  /\ Script.productionNotes plan' = Script.productionNotes plan.
Proof.
  intros H H'.
  destruct (generateVideoScript_inv _ _ H)
    as (p & l & Hm & _ & _ & Hk & Ht & _ & Hp & Ha & Hc).
  destruct (generateVideoScript_inv _ _ H')
    as (p' & l' & Hm' & _ & _ & Hk' & Ht' & _ & Hp' & Ha' & Hc').
  destruct (generateVideoScript_parts _ _ H)
    as (scenes & l1 & o & c & q & Hs & _ & Ho & Hcl & Hq & Hsc & Hhook & Hcall
        & _ & _ & _ & Hnotes).
  destruct (generateVideoScript_parts _ _ H')
    as (scenes' & l1' & o' & c' & q' & Hs' & _ & Ho' & Hcl' & Hq' & Hsc' & Hhook'
        & Hcall' & _ & _ & _ & Hnotes').
  change (the_mood (with_language form code)) with (the_mood form) in *.
  change (the_beats (with_language form code)) with (the_beats form) in *.
  change (the_keywords (with_language form code)) with (the_keywords form) in *.
  change (the_aspect (with_language form code)) with (the_aspect form) in *.
  change (topic (with_language form code)) with (topic form) in *.
  assert (Ep : p' = p) by congruence. assert (Eq : q = p) by congruence.
  assert (Eq' : q' = p) by congruence.
  assert (Es : scenes' = scenes) by congruence.
  rewrite Ep in *. rewrite Eq in *. rewrite Eq' in *. rewrite Es in *.
  assert (Eo : o' = o) by congruence. assert (Ec : c' = c) by congruence.
  rewrite Eo in *. rewrite Ec in *.
  rewrite Hsc, Hsc', Hk, Hk', Ht, Ht', Hhook, Hhook', Hcall, Hcall', Hp, Hp',
    Ha, Ha', Hc, Hc', Hnotes, Hnotes'.
  repeat split.
Qed.

Lemma language_changes_the_labels_only_witness :
  generateVideoScript UPKEEP_FORM = Ok UPKEEP_PLAN
  /\ generateVideoScript (with_language UPKEEP_FORM "ja") = Ok UPKEEP_PLAN_JA
  /\ Script.scenes UPKEEP_PLAN_JA = Script.scenes UPKEEP_PLAN
  /\ Script.keywords UPKEEP_PLAN_JA = Script.keywords UPKEEP_PLAN
  /\ Script.title UPKEEP_PLAN_JA = Script.title UPKEEP_PLAN
  /\ Script.hook UPKEEP_PLAN_JA = Script.hook UPKEEP_PLAN
  /\ Script.callToAction UPKEEP_PLAN_JA = Script.callToAction UPKEEP_PLAN
  /\ Script.pacing UPKEEP_PLAN_JA = Script.pacing UPKEEP_PLAN
  /\ Script.audioRecommendation UPKEEP_PLAN_JA = Script.audioRecommendation UPKEEP_PLAN
  /\ Script.colorPalette UPKEEP_PLAN_JA = Script.colorPalette UPKEEP_PLAN
  /\ Script.productionNotes UPKEEP_PLAN_JA = Script.productionNotes UPKEEP_PLAN.
Proof.
  split; [vm_compute; reflexivity |]. split; [vm_compute; reflexivity |].
  apply (language_changes_the_labels_only UPKEEP_FORM "ja" UPKEEP_PLAN UPKEEP_PLAN_JA);
    vm_compute; reflexivity.
Defined.
